(** * einsum.h: the equation parser, output-mode resolver and dispatcher

    A shallow embedding of [struct Einsum] of [src/einsum.h]
    (template parameters [ComputeType], [IntType], [kMaxNumModes_]) and of
    the two functions that create the cuTENSOR handle.

    Conventions of the embedding.
    - [std::string] is a sequence of [ascii]; [std::string::npos] is [None].
    - The local buffers [modeA], [modeB], [modeC] and [implicitModeC] are
      represented by the list of the cells written so far, so the counter
      that the source keeps next to each buffer ([numModesA], ...) is the
      length of the list.
    - The [std::array] members are lists of [kMaxNumModes_] cells; a cell is
      [None] while it holds an indeterminate value (the constructor has no
      member initializer for the arrays) and [Some v] once written.
    - [modesA_], [modesB_], [modesC_] hold [int] in the source; every value
      stored is the conversion of a [char] and is read back with
      [static_cast<char>], so the cells hold the character itself.
    - [IntType] is taken to be [int64_t], the type of the extent and stride
      members; extents and strides are copied, never computed with.
    - An access outside a [std::vector] or [std::array] with [operator[]] has
      no defined behaviour, and neither has reading the value of a cell that
      was never written; the embedding stops there with [Undefined].
    - Indices into the equation are held in [int] and [size_t]; equations are
      taken to be shorter than 2^31 characters. *)

From Stdlib Require Import ZArith Ascii String List Sorted Permutation Lia.
From stdpp Require Import base tactics option list strings.

Import ListNotations.
Local Open Scope string_scope.
Local Open Scope list_scope.
Local Open Scope nat_scope.

(** ** Outcomes of a call *)

Inductive exception : Type :=
| c10_Error (msg : string)            (* thrown by TORCH_CHECK *)
| runtime_error (msg : string)        (* std::runtime_error *)
| cutensor_error (line : nat) (status : nat)
                                      (* std::runtime_error built by HANDLE_ERROR *)
| out_of_range (what : string).       (* thrown by at() *)

Inductive fault : Type :=
| OutOfBounds (container : string) (index : nat)
| Indeterminate (container : string) (index : nat).

Inductive outcome (A : Type) : Type :=
| Done (a : A)
| Throw (e : exception)
| Undefined (f : fault).

Arguments Done {A} a.
Arguments Throw {A} e.
Arguments Undefined {A} f.

#[global] Instance outcome_ret : MRet outcome := fun A a => Done a.

#[global] Instance outcome_bind : MBind outcome := fun A B f m =>
  match m with
  | Done a => f a
  | Throw e => Throw e
  | Undefined u => Undefined u
  end.

(** ** std::string *)

Fixpoint starts_with (pat s : list ascii) : bool :=
  match pat, s with
  | [], _ => true
  | _ :: _, [] => false
  | p :: pat', c :: s' => Ascii.eqb p c && starts_with pat' s'
  end.

Fixpoint find_from (pat s : list ascii) (pos : nat) : option nat :=
  match s with
  | [] => if starts_with pat [] then Some pos else None
  | _ :: s' => if starts_with pat s then Some pos else find_from pat s' (S pos)
  end.

(** [equation.find(pat)]: the first position at which [pat] occurs. *)
Definition find (equation : list ascii) (pat : string) : option nat :=
  find_from (list_ascii_of_string pat) equation 0.

(** The characters [equation.at(i)] for [first <= i < last]. *)
Definition substr (equation : list ascii) (first last : nat) : list ascii :=
  take (last - first) (drop first equation).

(** ** Containers *)

(** [v[i]] on a [std::vector] or a local buffer. *)
Definition vec_index {T} (name : string) (v : list T) (i : nat) : outcome T :=
  match v !! i with
  | Some x => Done x
  | None => Undefined (OutOfBounds name i)
  end.

(** [a[i] = x] on a [std::array] member. *)
Definition array_store {T} (name : string) (a : list (option T)) (i : nat) (x : T)
  : outcome (list (option T)) :=
  if i <? length a then Done (<[i := Some x]> a)
  else Undefined (OutOfBounds name i).

(** [a[i]] on a [std::array] member, read for its value. *)
Definition array_load {T} (name : string) (a : list (option T)) (i : nat) : outcome T :=
  match a !! i with
  | Some (Some x) => Done x
  | Some None => Undefined (Indeterminate name i)
  | None => Undefined (OutOfBounds name i)
  end.

(** The reads [a.at(i)], [a.at(i + 1)], ..., [n] of them, each for the value
    of the cell: [at] throws outside the array, and reading a cell that was
    never written has no defined behaviour. *)
Fixpoint copy_at {T} (name : string) (a : list (option T)) (n i : nat)
  : outcome (list T) :=
  match n with
  | 0 => Done []
  | S n' =>
      match a !! i with
      | Some (Some x) => rest ← copy_at name a n' (S i); Done (x :: rest)
      | Some None => Undefined (Indeterminate name i)
      | None => Throw (out_of_range name)
      end
  end.

(** Conversion of a [size_t] to [uint32_t]. *)
Definition u32 (n : nat) : nat := Z.to_nat (Z.of_nat n mod 2 ^ 32).

(** ** The object *)

Record Einsum : Type := mkEinsum {
  numModesA_ : nat;
  numModesB_ : nat;
  numModesC_ : nat;
  isInitialized_ : bool;
  modesA_ : list (option ascii);
  modesB_ : list (option ascii);
  modesC_ : list (option ascii);
  extentA_ : list (option Z);
  extentB_ : list (option Z);
  extentC_ : list (option Z);
  stridesA_ : list (option Z);
  stridesB_ : list (option Z)
}.

Definition set_numModesB_ (e : Einsum) (n : nat) : Einsum :=
  mkEinsum (numModesA_ e) n (numModesC_ e) (isInitialized_ e)
    (modesA_ e) (modesB_ e) (modesC_ e) (extentA_ e) (extentB_ e) (extentC_ e)
    (stridesA_ e) (stridesB_ e).

Definition set_numModesC_ (e : Einsum) (n : nat) : Einsum :=
  mkEinsum (numModesA_ e) (numModesB_ e) n (isInitialized_ e)
    (modesA_ e) (modesB_ e) (modesC_ e) (extentA_ e) (extentB_ e) (extentC_ e)
    (stridesA_ e) (stridesB_ e).

Definition set_isInitialized_ (e : Einsum) (b : bool) : Einsum :=
  mkEinsum (numModesA_ e) (numModesB_ e) (numModesC_ e) b
    (modesA_ e) (modesB_ e) (modesC_ e) (extentA_ e) (extentB_ e) (extentC_ e)
    (stridesA_ e) (stridesB_ e).

Definition set_operandA (e : Einsum) (m : list (option ascii)) (x s : list (option Z))
  : Einsum :=
  mkEinsum (numModesA_ e) (numModesB_ e) (numModesC_ e) (isInitialized_ e)
    m (modesB_ e) (modesC_ e) x (extentB_ e) (extentC_ e) s (stridesB_ e).

Definition set_operandB (e : Einsum) (m : list (option ascii)) (x s : list (option Z))
  : Einsum :=
  mkEinsum (numModesA_ e) (numModesB_ e) (numModesC_ e) (isInitialized_ e)
    (modesA_ e) m (modesC_ e) (extentA_ e) x (extentC_ e) (stridesA_ e) s.

Definition set_modesC_ (e : Einsum) (m : list (option ascii)) : Einsum :=
  mkEinsum (numModesA_ e) (numModesB_ e) (numModesC_ e) (isInitialized_ e)
    (modesA_ e) (modesB_ e) m (extentA_ e) (extentB_ e) (extentC_ e)
    (stridesA_ e) (stridesB_ e).

Definition set_extentC_ (e : Einsum) (x : list (option Z)) : Einsum :=
  mkEinsum (numModesA_ e) (numModesB_ e) (numModesC_ e) (isInitialized_ e)
    (modesA_ e) (modesB_ e) (modesC_ e) (extentA_ e) (extentB_ e) x
    (stridesA_ e) (stridesB_ e).

(** ** The constructor and the accessors *)

Section EinsumModel.

(** The template parameter, and whether plain [char] is a signed type on the
    platform (it orders the characters that [std::sort] compares). *)
Variable kMaxNumModes_ : nat.
Variable char_is_signed : bool.

Definition is_npos (pos : option nat) : bool :=
  match pos with
  | None => true
  | Some _ => false
  end.

(** The value of a position known to be different from [npos]. *)
Definition position (pos : option nat) : nat := default 0 pos.

Definition usesB (equation : list ascii) : bool :=
  negb (is_npos (find equation ",")).

Definition isImplicit (equation : list ascii) : bool :=
  is_npos (find equation "->").

Definition a_start : nat := 0.

Definition a_end (equation : list ascii) : nat :=
  let arrow_pos := find equation "->" in
  let comma_pos := find equation "," in
  if isImplicit equation
  then (if is_npos comma_pos then length equation else position comma_pos)
  else (if is_npos comma_pos then position arrow_pos else position comma_pos).

Definition b_start (equation : list ascii) : nat :=
  if usesB equation then position (find equation ",") + 1 else 0.

Definition b_end (equation : list ascii) : nat :=
  if usesB equation
  then (if isImplicit equation then length equation
        else position (find equation "->"))
  else 0.

Definition c_start (equation : list ascii) : nat :=
  if isImplicit equation then length equation
  else position (find equation "->") + 2.

Definition c_end (equation : list ascii) : nat := length equation.

(** An extraction loop (lines 120-145) from index [i], with [n] indices left
    before the end of the segment; [mode] is the buffer filled so far. *)
Fixpoint extract_loop (equation : list ascii) (n i : nat) (mode : list ascii)
  : outcome (list ascii) :=
  match n with
  | 0 => Done mode
  | S n' =>
      if length mode <? kMaxNumModes_ + 2 then
        match equation !! i with
        | None => Throw (out_of_range "basic_string::at")
        | Some c =>
            if Ascii.eqb c " " (* skip spaces *)
            then extract_loop equation n' (S i) mode
            else extract_loop equation n' (S i) (mode ++ [c])
        end
      else Done mode
  end.

Definition extract_modes (equation : list ascii) (first last : nat)
  : outcome (list ascii) :=
  extract_loop equation (last - first) first [].

Definition extract_modeA (equation : list ascii) : outcome (list ascii) :=
  extract_modes equation a_start (a_end equation).

Definition extract_modeB (equation : list ascii) : outcome (list ascii) :=
  extract_modes equation (b_start equation) (b_end equation).

Definition extract_modeC (equation : list ascii) : outcome (list ascii) :=
  extract_modes equation (c_start equation) (c_end equation).

(** [buf[count++] = c] on a local buffer of [capacity] cells. *)
Definition buffer_store (name : string) (capacity : nat) (buf : list ascii) (c : ascii)
  : outcome (list ascii) :=
  if length buf <? capacity then Done (buf ++ [c])
  else Undefined (OutOfBounds name (length buf)).

Fixpoint copyModesIf_loop (modeA modeB modeC : list ascii) : outcome (list ascii) :=
  match modeA with
  | [] => Done modeC
  | mode :: modeA' =>
      if existsb (Ascii.eqb mode) modeB (* found *)
      then copyModesIf_loop modeA' modeB modeC
      else
        modeC' ← buffer_store "implicitModeC" (kMaxNumModes_ + 1) modeC mode;
        if kMaxNumModes_ <? length modeC'
        then Throw (runtime_error "too many modes in output tensor.")
        else copyModesIf_loop modeA' modeB modeC'
  end.

(** Copy all modes from modeA to modeC if they don't appear in modeB. *)
Definition copyModesIf (modeA : list ascii) (numModesA : nat)
    (modeB : list ascii) (numModesB : nat) (modeC : list ascii)
  : outcome (list ascii) :=
  copyModesIf_loop (take numModesA modeA) (take numModesB modeB) modeC.

(** The integer value of a [char]. *)
Definition char_value (c : ascii) : Z :=
  let n := Z.of_nat (nat_of_ascii c) in
  if char_is_signed && (128 <=? n)%Z then (n - 256)%Z else n.

Definition char_less (a b : ascii) : bool := (char_value a <? char_value b)%Z.

Fixpoint sort_insert (c : ascii) (sorted : list ascii) : list ascii :=
  match sorted with
  | [] => [c]
  | x :: rest => if char_less c x then c :: sorted else x :: sort_insert c rest
  end.

(** [std::sort] on a range of [char] with [operator<]. *)
Fixpoint std_sort (l : list ascii) : list ascii :=
  match l with
  | [] => []
  | c :: rest => sort_insert c (std_sort rest)
  end.

(** The loops of lines 212-224, for the operand named [X]. *)
Fixpoint copy_operand (X : string) (n i : nat) (mode : list ascii)
    (shape strides : list Z)
    (modes_ : list (option ascii)) (extent_ strides_ : list (option Z))
  : outcome (list (option ascii) * list (option Z) * list (option Z)) :=
  match n with
  | 0 => Done (modes_, extent_, strides_)
  | S n' =>
      m ← vec_index ("mode" ++ X) mode i;
      modes_ ← array_store ("modes" ++ X ++ "_") modes_ i m;
      x ← vec_index (X ++ "_shape") shape i;
      extent_ ← array_store ("extent" ++ X ++ "_") extent_ i x;
      s ← vec_index (X ++ "_strides") strides i;
      strides_ ← array_store ("strides" ++ X ++ "_") strides_ i s;
      copy_operand X n' (S i) mode shape strides modes_ extent_ strides_
  end.

(** The inner loops of lines 231-247: the extent stored at the first index
    [j < n] whose mode is [mode], or [None] when there is none. *)
Fixpoint find_extent (X : string) (modes_ : list (option ascii))
    (extent_ : list (option Z)) (n j : nat) (mode : ascii) : outcome (option Z) :=
  match n with
  | 0 => Done None
  | S n' =>
      m ← array_load ("modes" ++ X ++ "_") modes_ j;
      if Ascii.eqb m mode
      then x ← array_load ("extent" ++ X ++ "_") extent_ j; Done (Some x)
      else find_extent X modes_ extent_ n' (S j) mode
  end.

(** The loop of lines 226-248. *)
Fixpoint resolve_output (n i : nat) (redirectModeC : list ascii) (e : Einsum)
  : outcome Einsum :=
  match n with
  | 0 => Done e
  | S n' =>
      mode ← vec_index "redirectModeC" redirectModeC i;
      modesC ← array_store "modesC_" (modesC_ e) i mode;
      let e := set_modesC_ e modesC in
      inA ← find_extent "A" (modesA_ e) (extentA_ e) (numModesA_ e) 0 mode;
      e ← match inA with
          | Some x =>
              extentC ← array_store "extentC_" (extentC_ e) i x;
              Done (set_extentC_ e extentC)
          | None =>
              inB ← find_extent "B" (modesB_ e) (extentB_ e) (numModesB_ e) 0 mode;
              match inB with
              | Some x =>
                  extentC ← array_store "extentC_" (extentC_ e) i x;
                  Done (set_extentC_ e extentC)
              | None => Done e
              end
          end;
      resolve_output n' (S i) redirectModeC e
  end.

(** The object after the member initializer list. *)
Definition Einsum_init (A_shape B_shape : list Z) : Einsum :=
  mkEinsum (u32 (length A_shape)) (u32 (length B_shape)) 0 false
    (replicate kMaxNumModes_ None) (replicate kMaxNumModes_ None)
    (replicate kMaxNumModes_ None) (replicate kMaxNumModes_ None)
    (replicate kMaxNumModes_ None) (replicate kMaxNumModes_ None)
    (replicate kMaxNumModes_ None) (replicate kMaxNumModes_ None).

(** Lines 194-210: the output modes and their number. *)
Definition output_modes (implicit : bool) (modeA modeB modeC : list ascii)
    (e : Einsum) : outcome (list ascii * Einsum) :=
  if implicit then
    implicitModeC ← copyModesIf modeA (numModesA_ e) modeB (numModesB_ e) [];
    implicitModeC ← copyModesIf modeB (numModesB_ e) modeA (numModesA_ e)
                      implicitModeC;
    Done (std_sort implicitModeC, set_numModesC_ e (length implicitModeC))
  else Done (modeC, set_numModesC_ e (length modeC)).

(** [Einsum::Einsum]. *)
Definition Einsum_ctor (equation : string)
    (A_shape A_strides B_shape B_strides : list Z) : outcome Einsum :=
  let equation := list_ascii_of_string equation in
  let e := Einsum_init A_shape B_shape in
  let dots := find equation "..." in
  if negb (is_npos dots)
  then Throw (c10_Error "Broadcast einsum with ... is not supported.")
  else
    let e := if negb (usesB equation) then set_numModesB_ e 0 else e in
    modeA ← extract_modeA equation;
    modeB ← extract_modeB equation;
    modeC ← extract_modeC equation;
    if negb (length modeA =? numModesA_ e)
    then Throw (runtime_error
                  "modes substring for first operand and shape don't match.")
    else if negb (length modeB =? numModesB_ e)
    then Throw (runtime_error
                  "modes substring for second operand and shape don't match.")
    else if kMaxNumModes_ <? numModesA_ e
    then Throw (runtime_error "too many modes in first operand.")
    else if kMaxNumModes_ <? numModesB_ e
    then Throw (runtime_error "too many modes in second operand.")
    else
      '(redirectModeC, e) ← output_modes (isImplicit equation) modeA modeB modeC e;
      '(modesA, extentA, stridesA) ←
        copy_operand "A" (numModesA_ e) 0 modeA A_shape A_strides
          (modesA_ e) (extentA_ e) (stridesA_ e);
      let e := set_operandA e modesA extentA stridesA in
      '(modesB, extentB, stridesB) ←
        copy_operand "B" (numModesB_ e) 0 modeB B_shape B_strides
          (modesB_ e) (extentB_ e) (stridesB_ e);
      let e := set_operandB e modesB extentB stridesB in
      e ← resolve_output (numModesC_ e) 0 redirectModeC e;
      Done (set_isInitialized_ e true).

(** [Einsum::getOutputShape]. *)
Definition getOutputShape (e : Einsum) : outcome (list Z) :=
  if negb (isInitialized_ e) then Done []
  else copy_at "extentC_" (extentC_ e) (numModesC_ e) 0.

Definition isInitialized (e : Einsum) : bool := isInitialized_ e.

Definition modesA (e : Einsum) : outcome (list ascii) :=
  copy_at "modesA_" (modesA_ e) (numModesA_ e) 0.

Definition modesB (e : Einsum) : outcome (list ascii) :=
  copy_at "modesB_" (modesB_ e) (numModesB_ e) 0.

Definition modesC (e : Einsum) : outcome (list ascii) :=
  copy_at "modesC_" (modesC_ e) (numModesC_ e) 0.

(** ** Dispatch to the backend *)

Inductive tensor : Type := tensorA | tensorB | tensorC.

Inductive find_attribute : Type :=
| AUTOTUNE_MODE_INCREMENTAL
| INCREMENTAL_COUNT (incCount : nat).

(** The cuTENSOR entry points that [execute] calls, with the arguments that
    come from the object; device pointers, the handle and the stream are
    opaque to this file and left out. *)
Inductive backend_call : Type :=
| cutensorInitTensorDescriptor (desc : tensor) (numModes : nat)
    (extent stride : list (option Z))
| cutensorGetAlignmentRequirement (desc : tensor)
| cutensorInitContractionDescriptor (modesA modesB modesC : list (option ascii))
| cutensorInitContractionFind
| cutensorContractionFindSetAttribute (attribute : find_attribute)
| cutensorInitContractionPlan (worksize : Z)
| cutensorContraction (alpha beta : Z) (worksize : Z)
| cutensorReduction (alpha beta : Z) (modesA modesC : list (option ascii))
    (worksize : Z).

(** The backend: the status it returns to a call, given the calls made so
    far; [0] is [CUTENSOR_STATUS_SUCCESS]. *)
Variable backend : list backend_call -> backend_call -> nat.

Definition kWorksize_ : Z := 1024 * 1024 * 8 * 128.

(** A computation that calls the backend: it extends the log of calls. *)
Definition backend_io (A : Type) : Type :=
  list backend_call -> outcome A * list backend_call.

Definition io_ret {A} (a : A) : backend_io A := fun log => (Done a, log).

Definition io_bind {A B} (m : backend_io A) (k : A -> backend_io B) : backend_io B :=
  fun log =>
    match m log with
    | (Done a, log') => k a log'
    | (Throw ex, log') => (Throw ex, log')
    | (Undefined f, log') => (Undefined f, log')
    end.

(** The macro [HANDLE_ERROR], at the invocation that starts at [line]. *)
Definition HANDLE_ERROR (line : nat) (call : backend_call) : backend_io unit :=
  fun log =>
    match backend log call with
    | 0 => (Done tt, log ++ [call])
    | S _ as err => (Throw (cutensor_error line err), log ++ [call])
    end.

Definition contraction_path (e : Einsum) : backend_io unit :=
  io_bind (HANDLE_ERROR 318
    (cutensorInitTensorDescriptor tensorB (numModesB_ e) (extentB_ e) (stridesB_ e)))
  (fun _ => io_bind (HANDLE_ERROR 325 (cutensorGetAlignmentRequirement tensorB))
  (fun _ => io_bind (HANDLE_ERROR 329
    (cutensorInitContractionDescriptor (modesA_ e) (modesB_ e) (modesC_ e)))
  (fun _ => io_bind (HANDLE_ERROR 338 cutensorInitContractionFind)
  (fun _ => io_bind (HANDLE_ERROR 343
    (cutensorContractionFindSetAttribute AUTOTUNE_MODE_INCREMENTAL))
  (fun _ => io_bind (HANDLE_ERROR 351
    (cutensorContractionFindSetAttribute (INCREMENTAL_COUNT 4)))
  (fun _ => io_bind (HANDLE_ERROR 359 (cutensorInitContractionPlan kWorksize_))
  (fun _ => HANDLE_ERROR 365 (cutensorContraction 1 0 kWorksize_)))))))).

Definition reduction_path (e : Einsum) : backend_io unit :=
  HANDLE_ERROR 375 (cutensorReduction 1 0 (modesA_ e) (modesC_ e) kWorksize_).

(** [Einsum::execute]. *)
Definition execute (e : Einsum) (C_strides : list Z) : backend_io bool :=
  if negb (isInitialized_ e) then io_ret false
  else
    io_bind (HANDLE_ERROR 289
      (cutensorInitTensorDescriptor tensorA (numModesA_ e) (extentA_ e) (stridesA_ e)))
    (fun _ => io_bind (HANDLE_ERROR 297
      (cutensorInitTensorDescriptor tensorC (numModesC_ e) (extentC_ e)
         (Some <$> C_strides)))
    (fun _ => io_bind (HANDLE_ERROR 305 (cutensorGetAlignmentRequirement tensorA))
    (fun _ => io_bind (HANDLE_ERROR 309 (cutensorGetAlignmentRequirement tensorC))
    (fun _ => io_bind
      (if 0 <? numModesB_ e
       then contraction_path e (* dispatch to contraction *)
       else reduction_path e (* dispatch to reduction *))
    (fun _ => io_ret true))))).

(** ** A client of one object

    The member functions are all [const]: a call leaves the object as it
    was, and only the log of backend calls grows. *)





(** [Einsum::getWorksize]. *)
Definition getWorksize : Z := kWorksize_.

(** ** The handle (lines 421-436) *)

Definition CUTENSOR_N_CACHELINES : nat := 512.

(** The cuTENSOR entry points called on the handle that is being created. *)
Inductive handle_call : Type :=
| cutensorInit
| cutensorHandleAttachPlanCachelines (numCachelines : nat).

(** A [cutensorHandle_t] is opaque to this file: a handle is known by the
    calls made on it, each with the status it returned. *)
Definition cutensorHandle_t : Type := list (handle_call * nat).

(** [atoi] of the C library, and the status that the backend returns to a
    call on a handle, given the calls made so far. *)
Variable atoi : string -> Z.
Variable handle_backend : list handle_call -> handle_call -> nat.

Definition handle_io (A : Type) : Type :=
  list handle_call -> outcome A * list handle_call.

(** The macro [HANDLE_ERROR] once its argument has returned the status
    [err]. *)
Definition HANDLE_ERROR_status (line : nat) (err : nat) : outcome unit :=
  match err with
  | 0 => Done tt
  | S _ => Throw (cutensor_error line err)
  end.

(** [CreateCuTensorHandle]; [getenv] is the environment of the process at
    the time of the call. The allocation of the cachelines is taken to
    succeed, and the text of the variable to be one that [atoi] converts. *)
Definition CreateCuTensorHandle (getenv : string -> option string)
  : handle_io cutensorHandle_t :=
  fun log =>
    let init := handle_backend log cutensorInit in (* the status is dropped *)
    let handle := [(cutensorInit, init)] in
    let log := log ++ [cutensorInit] in
    if match getenv "CUTENSOR_CACHE" with
       | Some value => (atoi value =? 1)%Z
       | None => false
       end
    then
      let attach := cutensorHandleAttachPlanCachelines CUTENSOR_N_CACHELINES in
      let err := handle_backend log attach in
      match HANDLE_ERROR_status 428 err with
      | Done _ => (Done (handle ++ [(attach, err)]), log ++ [attach])
      | Throw ex => (Throw ex, log ++ [attach])
      | Undefined f => (Undefined f, log ++ [attach])
      end
    else (Done handle, log).



(** ** Vocabulary of the statements *)

(** The three segments of the equation that the extraction loops visit. *)
Definition segmentA (equation : list ascii) : list ascii :=
  substr equation a_start (a_end equation).

Definition segmentB (equation : list ascii) : list ascii :=
  substr equation (b_start equation) (b_end equation).

Definition segmentC (equation : list ascii) : list ascii :=
  substr equation (c_start equation) (c_end equation).

(** The characters of a segment other than the space. *)
Definition remove_spaces (segment : list ascii) : list ascii :=
  List.filter (fun c => negb (Ascii.eqb c " ")) segment.

(** The sequence [l] with a space put before its position [k] (after its
    last character when [k] is not a position of [l]). *)
Definition with_space (k : nat) (l : list ascii) : list ascii :=
  take k l ++ " "%char :: drop k l.

(** An equation with a space inserted at position [k]. *)
Definition insert_space (k : nat) (equation : string) : string :=
  string_of_list_ascii (with_space k (list_ascii_of_string equation)).

(** The modes of [modeA] that do not occur in [modeB], in their order. *)
Definition non_contracted (modeA modeB : list ascii) : list ascii :=
  List.filter (fun mode => negb (existsb (Ascii.eqb mode) modeB)) modeA.

(** The extent at the first position of [modes] that holds [mode]. *)
Fixpoint extent_of (mode : ascii) (modes : list ascii) (shape : list Z) : option Z :=
  match modes, shape with
  | m :: modes', x :: shape' =>
      if Ascii.eqb m mode then Some x else extent_of mode modes' shape'
  | _, _ => None
  end.

(** The cell of [extentC_] for an output mode: its extent in the first
    operand, else in the second, else the cell is never written. *)
Definition output_extent (modeA : list ascii) (A_shape : list Z)
    (modeB : list ascii) (B_shape : list Z) (mode : ascii) : option Z :=
  match extent_of mode modeA A_shape with
  | Some x => Some x
  | None => extent_of mode modeB B_shape
  end.

(** An array of [kMaxNumModes_] cells whose first cells hold [l]. *)
Definition filled {T} (l : list T) : list (option T) :=
  (Some <$> l) ++ replicate (kMaxNumModes_ - length l) None.

(** The array [extentC_] once the output modes [modes] are resolved. *)
Definition output_cells (modeA : list ascii) (A_shape : list Z)
    (modeB : list ascii) (B_shape : list Z) (modes : list ascii)
  : list (option Z) :=
  (output_extent modeA A_shape modeB B_shape <$> modes)
  ++ replicate (kMaxNumModes_ - length modes) None.

(** The content of a mode buffer after its extraction loop. *)
Definition operand_modes (segment : list ascii) : list ascii :=
  take (kMaxNumModes_ + 2) (remove_spaces segment).

(** The content of [implicitModeC] before it is sorted. *)
Definition implicit_modes (modeA modeB : list ascii) : list ascii :=
  non_contracted modeA modeB ++ non_contracted modeB modeA.

(** The constructor in closed form: the order of its checks and the object
    it builds ([Einsum_ctor_summary] proves it equal to [Einsum_ctor]). *)
Definition ctor_summary (equation : string)
    (A_shape A_strides B_shape B_strides : list Z) : outcome Einsum :=
  let equation := list_ascii_of_string equation in
  let modeA := operand_modes (segmentA equation) in
  let modeB := operand_modes (segmentB equation) in
  let modeC := operand_modes (segmentC equation) in
  let nA := u32 (length A_shape) in
  let nB := if usesB equation then u32 (length B_shape) else 0 in
  let redirectModeC :=
    if isImplicit equation then std_sort (implicit_modes modeA modeB) else modeC in
  if negb (is_npos (find equation "..."))
  then Throw (c10_Error "Broadcast einsum with ... is not supported.")
  else if negb (length modeA =? nA)
  then Throw (runtime_error
                "modes substring for first operand and shape don't match.")
  else if negb (length modeB =? nB)
  then Throw (runtime_error
                "modes substring for second operand and shape don't match.")
  else if kMaxNumModes_ <? nA
  then Throw (runtime_error "too many modes in first operand.")
  else if kMaxNumModes_ <? nB
  then Throw (runtime_error "too many modes in second operand.")
  else if isImplicit equation && (kMaxNumModes_ <? length redirectModeC)
  then Throw (runtime_error "too many modes in output tensor.")
  else if length A_strides <? nA
  then Undefined (OutOfBounds "A_strides" (length A_strides))
  else if length B_strides <? nB
  then Undefined (OutOfBounds "B_strides" (length B_strides))
  else if kMaxNumModes_ <? length redirectModeC
  then Undefined (OutOfBounds "modesC_" kMaxNumModes_)
  else
    Done (mkEinsum nA nB (length redirectModeC) true
            (filled modeA) (filled modeB) (filled redirectModeC)
            (filled (take nA A_shape)) (filled (take nB B_shape))
            (output_cells modeA (take nA A_shape) modeB (take nB B_shape)
               redirectModeC)
            (filled (take nA A_strides)) (filled (take nB B_strides))).

Definition char_le (a b : ascii) : Prop := (char_value a <= char_value b)%Z.


Definition contraction_call (c : backend_call) : bool :=
  match c with
  | cutensorContraction _ _ _ => true
  | _ => false
  end.

Definition reduction_call (c : backend_call) : bool :=
  match c with
  | cutensorReduction _ _ _ _ _ => true
  | _ => false
  end.

(** The invocations of [HANDLE_ERROR] in [execute] in program order: the
    line at which each one starts and the call it wraps. *)
Definition execute_plan (e : Einsum) (C_strides : list Z)
  : list (nat * backend_call) :=
  [ (289, cutensorInitTensorDescriptor tensorA (numModesA_ e) (extentA_ e)
            (stridesA_ e));
    (297, cutensorInitTensorDescriptor tensorC (numModesC_ e) (extentC_ e)
            (Some <$> C_strides));
    (305, cutensorGetAlignmentRequirement tensorA);
    (309, cutensorGetAlignmentRequirement tensorC) ] ++
  (if 0 <? numModesB_ e
   then [ (318, cutensorInitTensorDescriptor tensorB (numModesB_ e) (extentB_ e)
                  (stridesB_ e));
          (325, cutensorGetAlignmentRequirement tensorB);
          (329, cutensorInitContractionDescriptor (modesA_ e) (modesB_ e)
                  (modesC_ e));
          (338, cutensorInitContractionFind);
          (343, cutensorContractionFindSetAttribute AUTOTUNE_MODE_INCREMENTAL);
          (351, cutensorContractionFindSetAttribute (INCREMENTAL_COUNT 4));
          (359, cutensorInitContractionPlan kWorksize_);
          (365, cutensorContraction 1 0 kWorksize_) ]
   else [ (375, cutensorReduction 1 0 (modesA_ e) (modesC_ e) kWorksize_) ]).

(** A sequence of [HANDLE_ERROR] invocations run in order. *)
Fixpoint run_plan (plan : list (nat * backend_call)) : backend_io unit :=
  match plan with
  | [] => io_ret tt
  | (line, call) :: rest => io_bind (HANDLE_ERROR line call) (fun _ => run_plan rest)
  end.

(** The status that the backend returns to each of [calls], made in turn
    after the calls of [log]. *)
Fixpoint statuses (log calls : list backend_call) : list nat :=
  match calls with
  | [] => []
  | call :: rest => backend log call :: statuses (log ++ [call]) rest
  end.

(** The size of the workspace that a call tells the backend it may use. *)
Definition worksize_of (c : backend_call) : option Z :=
  match c with
  | cutensorInitContractionPlan worksize => Some worksize
  | cutensorContraction _ _ worksize => Some worksize
  | cutensorReduction _ _ _ _ worksize => Some worksize
  | _ => None
  end.

(** The environment variable CUTENSOR_CACHE is set to a text that [atoi]
    reads as 1. *)
Definition cache_requested (getenv : string -> option string) : bool :=
  match getenv "CUTENSOR_CACHE" with
  | Some value => (atoi value =? 1)%Z
  | None => false
  end.



(** The values of [cells] read one after the other, [cells] being the cells
    of an array from its index [i] on: the values when every cell was
    written, and no defined result at the first cell that was not. *)
Fixpoint read_cells {T} (name : string) (cells : list (option T)) (i : nat)
  : outcome (list T) :=
  match cells with
  | [] => Done []
  | Some x :: rest => values ← read_cells name rest (S i); Done (x :: values)
  | None :: _ => Undefined (Indeterminate name i)
  end.

(** What an accessor answers that reads, with [at], the first [n] cells of
    an array [a] of [capacity] cells: the values of the cells when they were
    all written and [n] is within the capacity, [std::out_of_range] when
    every cell of the array was written and [n] is more than the capacity,
    and no defined result when one of the cells it reads was never
    written. *)
Definition reads_checked {T} (name : string) (a : list (option T))
    (capacity n : nat) (r : outcome (list T)) : Prop :=
  (forall l,
      take (n `min` capacity) a = Some <$> l ->
      r = if n <=? capacity then Done l else Throw (out_of_range name)) /\
  (forall i,
      i < n -> a !! i = Some None ->
      exists j, j <= i /\ r = Undefined (Indeterminate name j)).

(** * Properties *)

(** ** Integers and characters *)

Lemma u32_small (n : nat) : (Z.of_nat n < 2 ^ 32)%Z -> u32 n = n.
Proof.
  intros H. unfold u32. rewrite Z.mod_small by lia. apply Nat2Z.id.
Qed.

Lemma u32_le (n : nat) : u32 n <= n.
Proof.
  unfold u32.
  assert (H : (Z.of_nat n mod 2 ^ 32 <= Z.of_nat n)%Z) by (apply Z.mod_le; lia).
  assert (H' : (0 <= Z.of_nat n mod 2 ^ 32)%Z) by (apply Z.mod_pos_bound; lia).
  lia.
Qed.

Lemma char_value_inj (a b : ascii) : char_value a = char_value b -> a = b.
Proof.
  unfold char_value. intros H.
  assert (Ha := nat_ascii_bounded a). assert (Hb := nat_ascii_bounded b).
  rewrite <- (ascii_nat_embedding a), <- (ascii_nat_embedding b). f_equal.
  destruct char_is_signed; simpl in H;
    repeat match type of H with
           | context [(?x <=? ?y)%Z] => destruct (Z.leb_spec x y)
           end; lia.
Qed.

(** ** std::string::find *)

Lemma starts_with_prefix (pat s : list ascii) :
  starts_with pat s = true <-> exists post, s = pat ++ post.
Proof.
  revert s. induction pat as [|p pat IH]; intros s; simpl.
  - split; eauto.
  - destruct s as [|c s].
    + split; [discriminate | intros [post H]; discriminate].
    + rewrite andb_true_iff, IH. split.
      * intros [Hc [post ->]]. apply Ascii.eqb_eq in Hc as ->. eauto.
      * intros [post H]. injection H as -> ->. rewrite Ascii.eqb_refl. eauto.
Qed.

Lemma find_from_None (pat s : list ascii) (pos : nat) :
  find_from pat s pos = None <->
  forall pre post, s <> pre ++ pat ++ post.
Proof.
  revert pos. induction s as [|c s IH]; intros pos; simpl.
  - destruct (starts_with pat []) eqn:E.
    + apply starts_with_prefix in E as [post E]. split; [discriminate|].
      intros H. exfalso. apply (H [] post). exact E.
    + split; [|reflexivity]. intros _ pre post H.
      symmetry in H. apply app_eq_nil in H as [-> H]. simpl in H.
      assert (starts_with pat [] = true) by (apply starts_with_prefix; eauto).
      congruence.
  - destruct (starts_with pat (c :: s)) eqn:E.
    + apply starts_with_prefix in E as [post E]. split; [discriminate|].
      intros H. exfalso. apply (H [] post). exact E.
    + rewrite IH. split.
      * intros H [|x pre] post Heq.
        -- simpl in Heq.
           assert (starts_with pat (c :: s) = true)
             by (apply starts_with_prefix; eauto).
           congruence.
        -- injection Heq as _ Heq. exact (H _ _ Heq).
      * intros H pre post ->. apply (H (c :: pre) post). reflexivity.
Qed.

Lemma find_from_bound (pat s : list ascii) (pos p : nat) :
  find_from pat s pos = Some p ->
  pos <= p /\ p + length pat <= pos + length s.
Proof.
  revert pos. induction s as [|c s IH]; intros pos; simpl.
  - destruct (starts_with pat []) eqn:E; [|discriminate].
    intros [= <-]. apply starts_with_prefix in E as [post E].
    symmetry in E. apply app_eq_nil in E as [-> _]. simpl. lia.
  - destruct (starts_with pat (c :: s)) eqn:E.
    + intros [= <-]. apply starts_with_prefix in E as [post E].
      apply (f_equal length) in E. rewrite length_app in E. simpl in E. lia.
    + intros H. apply IH in H. lia.
Qed.

Lemma find_bound (equation : list ascii) (pat : string) (p : nat) :
  find equation pat = Some p ->
  p + length (list_ascii_of_string pat) <= length equation.
Proof.
  unfold find. intros H. apply find_from_bound in H. lia.
Qed.

Lemma find_None (equation : list ascii) (pat : string) :
  find equation pat = None <->
  forall pre post, equation <> pre ++ list_ascii_of_string pat ++ post.
Proof. apply find_from_None. Qed.

Lemma find_contains (equation : list ascii) (pat : string) :
  is_npos (find equation pat) = false <->
  exists pre post, equation = pre ++ list_ascii_of_string pat ++ post.
Proof.
  split.
  - intros H.
    destruct (find_from (list_ascii_of_string pat) equation 0) eqn:E.
    + clear H. revert E. generalize 0.
      induction equation as [|c s IH]; intros pos; simpl.
      * destruct (starts_with _ []) eqn:E; [|discriminate].
        intros _. apply starts_with_prefix in E as [post E]. exists [], post. exact E.
      * destruct (starts_with _ (c :: s)) eqn:E.
        -- intros _. apply starts_with_prefix in E as [post E]. exists [], post. exact E.
        -- intros H. apply IH in H as (pre & post & ->). exists (c :: pre), post. reflexivity.
    + unfold find in H. rewrite E in H. discriminate.
  - intros (pre & post & H). destruct (find equation pat) eqn:E; [reflexivity|].
    exfalso. exact (proj1 (find_None _ _) E _ _ H).
Qed.

Lemma list_ascii_of_string_app (a b : string) :
  list_ascii_of_string (a +:+ b) = list_ascii_of_string a ++ list_ascii_of_string b.
Proof.
  induction a as [|c a IH]; simpl; [reflexivity|]. f_equal. exact IH.
Qed.

Lemma segments_in_range (equation : list ascii) :
  a_end equation <= length equation /\
  b_start equation <= length equation /\
  b_end equation <= length equation /\
  c_start equation <= length equation /\
  c_end equation <= length equation.
Proof.
  unfold a_end, b_start, b_end, c_start, c_end, usesB, isImplicit.
  destruct (find equation "->") as [p|] eqn:Ea;
    destruct (find equation ",") as [q|] eqn:Ec; simpl;
    try apply find_bound in Ea; try apply find_bound in Ec; simpl in *; lia.
Qed.

(** ** The extraction loops *)

Lemma remove_spaces_app (l1 l2 : list ascii) :
  remove_spaces (l1 ++ l2) = remove_spaces l1 ++ remove_spaces l2.
Proof. apply List.filter_app. Qed.

Lemma remove_spaces_length (l : list ascii) : length (remove_spaces l) <= length l.
Proof. apply List.filter_length_le. Qed.

Lemma extract_loop_spec (equation : list ascii) (n : nat) :
  forall i mode,
    length mode <= kMaxNumModes_ + 2 -> i + n <= length equation ->
    extract_loop equation n i mode =
    Done (mode ++ take (kMaxNumModes_ + 2 - length mode)
                    (remove_spaces (take n (drop i equation)))).
Proof.
  induction n as [|n IH]; intros i mode Hlen Hn; simpl.
  - rewrite take_nil, app_nil_r. reflexivity.
  - destruct (equation !! i) as [c|] eqn:Ec;
      [|apply lookup_ge_None in Ec; lia].
    rewrite (drop_S _ _ _ Ec). simpl.
    destruct (Nat.ltb_spec (length mode) (kMaxNumModes_ + 2)) as [Hlt|Hge].
    + destruct (Ascii.eqb c " ") eqn:Esp; simpl.
      * apply IH; lia.
      * rewrite IH by (rewrite ?length_app; simpl; lia).
        rewrite length_app. simpl.
        replace (kMaxNumModes_ + 2 - length mode)
          with (S (kMaxNumModes_ + 2 - (length mode + 1))) by lia.
        simpl. rewrite <- app_assoc. reflexivity.
    + replace (kMaxNumModes_ + 2 - length mode) with 0 by lia.
      rewrite take_0, app_nil_r. reflexivity.
Qed.

Lemma extract_modes_spec (equation : list ascii) (first last : nat) :
  first <= length equation -> last <= length equation ->
  extract_modes equation first last =
  Done (operand_modes (substr equation first last)).
Proof.
  intros Hfirst Hlast. unfold extract_modes, operand_modes, substr.
  rewrite extract_loop_spec by (simpl; lia). simpl.
  rewrite Nat.sub_0_r. reflexivity.
Qed.

Lemma extraction_spec (equation : list ascii) :
  extract_modeA equation = Done (operand_modes (segmentA equation)) /\
  extract_modeB equation = Done (operand_modes (segmentB equation)) /\
  extract_modeC equation = Done (operand_modes (segmentC equation)).
Proof.
  destruct (segments_in_range equation) as (HA & HB1 & HB2 & HC1 & HC2).
  unfold extract_modeA, extract_modeB, extract_modeC, segmentA, segmentB, segmentC.
  rewrite !extract_modes_spec by (unfold a_start; lia). auto.
Qed.

(** ** copyModesIf and the sort *)

Lemma non_contracted_In (modeA modeB : list ascii) (m : ascii) :
  In m (non_contracted modeA modeB) <-> In m modeA /\ ~ In m modeB.
Proof.
  unfold non_contracted. rewrite List.filter_In, negb_true_iff.
  split; intros [H1 H2]; split; try exact H1.
  - intros Hin. assert (existsb (Ascii.eqb m) modeB = true); [|congruence].
    apply existsb_exists. exists m. split; [exact Hin | apply Ascii.eqb_refl].
  - destruct (existsb (Ascii.eqb m) modeB) eqn:E; [|reflexivity].
    apply existsb_exists in E as (x & Hx & Heq). apply Ascii.eqb_eq in Heq as ->.
    contradiction.
Qed.

Lemma copyModesIf_loop_spec (modeA modeB modeC : list ascii) :
  length modeC <= kMaxNumModes_ ->
  copyModesIf_loop modeA modeB modeC =
  if length modeC + length (non_contracted modeA modeB) <=? kMaxNumModes_
  then Done (modeC ++ non_contracted modeA modeB)
  else Throw (runtime_error "too many modes in output tensor.").
Proof.
  revert modeC. induction modeA as [|mode modeA IH]; intros modeC Hlen; simpl.
  - rewrite Nat.add_0_r, app_nil_r.
    destruct (Nat.leb_spec (length modeC) kMaxNumModes_); [reflexivity | lia].
  - destruct (existsb (Ascii.eqb mode) modeB) eqn:E; simpl.
    + apply IH. exact Hlen.
    + unfold buffer_store.
      destruct (Nat.ltb_spec (length modeC) (kMaxNumModes_ + 1)); [|lia].
      simpl. rewrite length_app. simpl.
      destruct (Nat.ltb_spec kMaxNumModes_ (length modeC + 1)).
      * destruct (Nat.leb_spec
                    (length modeC + S (length (non_contracted modeA modeB)))
                    kMaxNumModes_); [lia | reflexivity].
      * rewrite IH by (rewrite length_app; simpl; lia).
        rewrite length_app. simpl. rewrite <- app_assoc. simpl.
        replace (length modeC + 1 + length (non_contracted modeA modeB))
          with (length modeC + S (length (non_contracted modeA modeB))) by lia.
        reflexivity.
Qed.

Lemma sort_insert_perm (c : ascii) (l : list ascii) :
  Permutation (sort_insert c l) (c :: l).
Proof.
  induction l as [|x l IH]; simpl; [reflexivity|].
  destruct (char_less c x); [reflexivity|].
  rewrite IH. apply perm_swap.
Qed.

Lemma std_sort_perm (l : list ascii) : Permutation (std_sort l) l.
Proof.
  induction l as [|c l IH]; simpl; [reflexivity|].
  rewrite sort_insert_perm. constructor. exact IH.
Qed.

Lemma sort_insert_hd (c x : ascii) (l : list ascii) :
  char_le x c -> HdRel char_le x l -> HdRel char_le x (sort_insert c l).
Proof.
  intros Hxc Hl. destruct l as [|y l]; simpl.
  - constructor. exact Hxc.
  - destruct (char_less c y); constructor; [exact Hxc|].
    inversion Hl; assumption.
Qed.

Lemma sort_insert_sorted (c : ascii) (l : list ascii) :
  Sorted char_le l -> Sorted char_le (sort_insert c l).
Proof.
  induction 1 as [|x l Hs IH Hhd]; simpl.
  - repeat constructor.
  - unfold char_less. destruct (Z.ltb_spec (char_value c) (char_value x)).
    + constructor; [constructor; assumption|]. constructor. unfold char_le. lia.
    + constructor; [exact IH|]. apply sort_insert_hd; [|exact Hhd].
      unfold char_le. lia.
Qed.

Lemma std_sort_sorted (l : list ascii) : Sorted char_le (std_sort l).
Proof.
  induction l as [|c l IH]; simpl; [constructor|].
  apply sort_insert_sorted. exact IH.
Qed.

Lemma std_sort_length (l : list ascii) : length (std_sort l) = length l.
Proof. apply Permutation_length, std_sort_perm. Qed.

Lemma std_sort_In (l : list ascii) (m : ascii) : In m (std_sort l) <-> In m l.
Proof.
  split; apply Permutation_in; [|symmetry]; apply std_sort_perm.
Qed.

(** ** Arrays *)

Lemma filled_length {T} (l : list T) :
  length l <= kMaxNumModes_ -> length (filled l) = kMaxNumModes_.
Proof.
  intros H. unfold filled. rewrite length_app, length_fmap, length_replicate. lia.
Qed.

Lemma filled_nil {T} : filled (@nil T) = replicate kMaxNumModes_ None.
Proof. unfold filled. simpl. rewrite Nat.sub_0_r. reflexivity. Qed.

Lemma filled_lookup {T} (l : list T) (i : nat) (x : T) :
  l !! i = Some x -> filled l !! i = Some (Some x).
Proof.
  intros H. unfold filled. rewrite lookup_app_l.
  - rewrite list_lookup_fmap, H. reflexivity.
  - rewrite length_fmap. eapply lookup_lt_Some, H.
Qed.

Lemma take_filled {T} (l : list T) : take (length l) (filled l) = Some <$> l.
Proof.
  unfold filled. rewrite take_app_le by (rewrite length_fmap; lia).
  apply take_ge. rewrite length_fmap. lia.
Qed.

(** Writing the next free cell of an array whose first cells are [cells]. *)
Lemma store_next {T} (name : string) (cells : list (option T)) (x : T) :
  array_store name (cells ++ replicate (kMaxNumModes_ - length cells) None)
    (length cells) x =
  if length cells <? kMaxNumModes_
  then Done ((cells ++ [Some x]) ++
             replicate (kMaxNumModes_ - S (length cells)) None)
  else Undefined (OutOfBounds name (length cells)).
Proof.
  unfold array_store. rewrite length_app, length_replicate.
  destruct (Nat.ltb_spec (length cells) kMaxNumModes_) as [Hlt|Hge].
  - destruct (Nat.ltb_spec (length cells)
                (length cells + (kMaxNumModes_ - length cells))); [|lia].
    f_equal. rewrite insert_app_r_alt by lia. rewrite Nat.sub_diag.
    replace (kMaxNumModes_ - length cells)
      with (S (kMaxNumModes_ - S (length cells))) by lia.
    simpl. rewrite <- app_assoc. reflexivity.
  - destruct (Nat.ltb_spec (length cells)
                (length cells + (kMaxNumModes_ - length cells))); [lia|].
    reflexivity.
Qed.

Lemma filled_store {T} (name : string) (l : list T) (i : nat) (x : T) :
  l !! i = Some x -> i < kMaxNumModes_ ->
  array_store name (filled (take i l)) i x = Done (filled (take (S i) l)).
Proof.
  intros Hl Hi. assert (Hlt := lookup_lt_Some _ _ _ Hl).
  unfold filled. rewrite (take_S_r _ _ _ Hl), fmap_app. simpl.
  assert (Hlen : length (Some <$> take i l) = i)
    by (rewrite length_fmap, length_take; lia).
  pose proof (store_next name (Some <$> take i l) x) as H.
  rewrite Hlen in H. rewrite length_app, length_take. simpl.
  replace (i `min` length l) with i by lia.
  rewrite H. destruct (Nat.ltb_spec i kMaxNumModes_); [|lia].
  replace (i + 1) with (S i) by lia. reflexivity.
Qed.

Lemma copy_at_take {T} (name : string) (a : list (option T)) (n i : nat) :
  i + n <= length a ->
  copy_at name a n i = read_cells name (take n (drop i a)) i.
Proof.
  revert i. induction n as [|n IH]; intros i Hlen.
  - rewrite take_0. reflexivity.
  - cbn [copy_at]. destruct (a !! i) as [cell|] eqn:E.
    + rewrite (drop_S _ _ _ E). cbn [take read_cells].
      destruct cell as [x|]; [|reflexivity].
      rewrite IH by lia. reflexivity.
    + apply lookup_ge_None in E. lia.
Qed.

Lemma read_cells_written {T} (name : string) (l : list T) (i : nat) :
  read_cells name (Some <$> l) i = Done l.
Proof.
  revert i. induction l as [|x l IH]; intros i; simpl; [reflexivity|].
  rewrite IH. reflexivity.
Qed.

Lemma read_cells_Done {T} (name : string) (cells : list (option T)) :
  forall i l, read_cells name cells i = Done l -> cells = Some <$> l.
Proof.
  induction cells as [|[x|] cells IH]; intros i l H; simpl in H.
  - injection H as <-. reflexivity.
  - destruct (read_cells name cells (S i)) as [values| |] eqn:E;
      simpl in H; try discriminate H.
    injection H as <-. simpl. f_equal. exact (IH _ _ E).
  - discriminate H.
Qed.

Lemma read_cells_no_throw {T} (name : string) (cells : list (option T)) :
  forall i ex, read_cells name cells i <> Throw ex.
Proof.
  induction cells as [|[x|] cells IH]; intros i ex; simpl; try discriminate.
  specialize (IH (S i) ex).
  destruct (read_cells name cells (S i)); simpl; congruence.
Qed.

(** Reading cells of which one was never written has no defined result. *)
Lemma read_cells_unwritten {T} (name : string) (cells : list (option T)) :
  forall i k,
    cells !! k = Some None ->
    exists j, j <= k /\ read_cells name cells i = Undefined (Indeterminate name (i + j)).
Proof.
  induction cells as [|[x|] cells IH]; intros i k Hk.
  - discriminate Hk.
  - destruct k as [|k]; [discriminate Hk|]. simpl in Hk.
    destruct (IH (S i) k Hk) as (j & Hj & Hr).
    exists (S j). split; [lia|]. simpl. rewrite Hr. simpl.
    do 2 f_equal. lia.
  - exists 0. split; [lia|]. simpl. rewrite Nat.add_0_r. reflexivity.
Qed.

(** ** The loops over the members *)

Lemma vec_index_Some {T} (name : string) (v : list T) (i : nat) (x : T) :
  v !! i = Some x -> vec_index name v i = Done x.
Proof. intros H. unfold vec_index. rewrite H. reflexivity. Qed.

Lemma vec_index_None {T} (name : string) (v : list T) (i : nat) :
  v !! i = None -> vec_index name v i = Undefined (OutOfBounds name i).
Proof. intros H. unfold vec_index. rewrite H. reflexivity. Qed.

Lemma array_load_filled {T} (name : string) (l : list T) (i : nat) (x : T) :
  l !! i = Some x -> array_load name (filled l) i = Done x.
Proof.
  intros H. unfold array_load. rewrite (filled_lookup _ _ _ H). reflexivity.
Qed.

Lemma copy_operand_spec (X : string) (mode : list ascii) (shape strides : list Z)
    (n : nat) :
  forall i,
    i + n <= kMaxNumModes_ -> i + n <= length mode -> i + n <= length shape ->
    i <= length strides ->
    copy_operand X n i mode shape strides
      (filled (take i mode)) (filled (take i shape)) (filled (take i strides)) =
    if i + n <=? length strides
    then Done (filled (take (i + n) mode), filled (take (i + n) shape),
               filled (take (i + n) strides))
    else Undefined (OutOfBounds (X ++ "_strides") (length strides)).
Proof.
  induction n as [|n IH]; intros i HK Hmode Hshape Hstrides; simpl.
  - rewrite Nat.add_0_r.
    destruct (Nat.leb_spec i (length strides)); [reflexivity | lia].
  - destruct (mode !! i) as [m|] eqn:Em;
      [|apply lookup_ge_None in Em; lia].
    destruct (shape !! i) as [x|] eqn:Ex;
      [|apply lookup_ge_None in Ex; lia].
    rewrite (vec_index_Some _ _ _ _ Em). simpl.
    rewrite (filled_store _ _ _ _ Em) by lia. simpl.
    rewrite (vec_index_Some _ _ _ _ Ex). simpl.
    rewrite (filled_store _ _ _ _ Ex) by lia. simpl.
    destruct (strides !! i) as [s|] eqn:Es.
    + assert (i < length strides) by (eapply lookup_lt_Some, Es).
      rewrite (vec_index_Some _ _ _ _ Es). simpl.
      rewrite (filled_store _ _ _ _ Es) by lia. simpl.
      rewrite IH by lia.
      replace (S i + n) with (i + S n) by lia. reflexivity.
    + rewrite (vec_index_None _ _ _ Es). simpl.
      apply lookup_ge_None in Es.
      destruct (Nat.leb_spec (i + S n) (length strides)); [lia|].
      replace i with (length strides) by lia. reflexivity.
Qed.

Lemma find_extent_spec (X : string) (modes : list ascii) (shape : list Z)
    (mode : ascii) (n : nat) :
  forall j,
    j + n = length modes -> length modes = length shape ->
    find_extent X (filled modes) (filled shape) n j mode =
    Done (extent_of mode (drop j modes) (drop j shape)).
Proof.
  induction n as [|n IH]; intros j Hn Hlen; simpl.
  - rewrite drop_ge by lia. reflexivity.
  - destruct (modes !! j) as [m|] eqn:Em;
      [|apply lookup_ge_None in Em; lia].
    destruct (shape !! j) as [x|] eqn:Ex;
      [|apply lookup_ge_None in Ex; lia].
    rewrite (array_load_filled _ _ _ _ Em). simpl.
    rewrite (drop_S _ _ _ Em), (drop_S _ _ _ Ex). simpl.
    destruct (Ascii.eqb m mode).
    + rewrite (array_load_filled _ _ _ _ Ex). reflexivity.
    + apply IH; lia.
Qed.

Lemma output_cells_skip (mA mB : list ascii) (sA sB : list Z) (rC : list ascii)
    (i : nat) (mode : ascii) :
  rC !! i = Some mode -> i < kMaxNumModes_ ->
  output_extent mA sA mB sB mode = None ->
  output_cells mA sA mB sB (take (S i) rC) = output_cells mA sA mB sB (take i rC).
Proof.
  intros Hm Hi Hnone. assert (Hlt := lookup_lt_Some _ _ _ Hm).
  unfold output_cells. rewrite (take_S_r _ _ _ Hm), fmap_app, length_app. simpl.
  rewrite Hnone, length_take.
  replace (i `min` length rC) with i by lia.
  replace (kMaxNumModes_ - i) with (S (kMaxNumModes_ - (i + 1))) by lia.
  simpl. rewrite <- app_assoc. reflexivity.
Qed.

Lemma output_cells_store (mA mB : list ascii) (sA sB : list Z) (rC : list ascii)
    (i : nat) (mode : ascii) (x : Z) :
  rC !! i = Some mode -> i < kMaxNumModes_ ->
  output_extent mA sA mB sB mode = Some x ->
  array_store "extentC_" (output_cells mA sA mB sB (take i rC)) i x =
  Done (output_cells mA sA mB sB (take (S i) rC)).
Proof.
  intros Hm Hi Hsome. assert (Hlt := lookup_lt_Some _ _ _ Hm).
  unfold output_cells. rewrite (take_S_r _ _ _ Hm), fmap_app, length_app. simpl.
  rewrite Hsome, !length_take.
  replace (i `min` length rC) with i by lia.
  pose proof (store_next "extentC_"
                (output_extent mA sA mB sB <$> take i rC) x) as H.
  rewrite length_fmap, length_take in H.
  replace (i `min` length rC) with i in H by lia.
  rewrite H. destruct (Nat.ltb_spec i kMaxNumModes_); [|lia].
  replace (i + 1) with (S i) by lia. reflexivity.
Qed.

Lemma resolve_output_spec (mA mB : list ascii) (sA sB : list Z)
    (tA tB : list (option Z)) (rC : list ascii) (nC : nat) (b : bool) (n : nat) :
  forall i,
    length mA = length sA -> length mB = length sB ->
    i + n = length rC -> i <= kMaxNumModes_ ->
    resolve_output n i rC
      (mkEinsum (length mA) (length mB) nC b
         (filled mA) (filled mB) (filled (take i rC))
         (filled sA) (filled sB) (output_cells mA sA mB sB (take i rC)) tA tB) =
    if length rC <=? kMaxNumModes_
    then Done (mkEinsum (length mA) (length mB) nC b
                 (filled mA) (filled mB) (filled rC)
                 (filled sA) (filled sB) (output_cells mA sA mB sB rC) tA tB)
    else Undefined (OutOfBounds "modesC_" kMaxNumModes_).
Proof.
  induction n as [|n IH]; intros i HA HB Hn Hi; simpl.
  - destruct (Nat.leb_spec (length rC) kMaxNumModes_); [|lia].
    rewrite take_ge by lia. reflexivity.
  - destruct (rC !! i) as [mode|] eqn:Em;
      [|apply lookup_ge_None in Em; lia].
    rewrite (vec_index_Some _ _ _ _ Em). simpl.
    destruct (Nat.eq_dec i kMaxNumModes_) as [->|Hne].
    + unfold array_store. rewrite filled_length by (rewrite length_take; lia).
      rewrite Nat.ltb_irrefl. simpl.
      destruct (Nat.leb_spec (length rC) kMaxNumModes_); [lia | reflexivity].
    + rewrite (filled_store _ _ _ _ Em) by lia. simpl.
      rewrite (find_extent_spec "A" mA sA mode (length mA) 0) by lia.
      rewrite !drop_0. simpl. unfold set_modesC_, set_extentC_. simpl.
      destruct (extent_of mode mA sA) as [x|] eqn:EA.
      * rewrite (output_cells_store mA mB sA sB rC i mode x Em)
          by (try lia; unfold output_extent; rewrite EA; reflexivity).
        simpl. apply IH; lia.
      * rewrite (find_extent_spec "B" mB sB mode (length mB) 0) by lia.
        rewrite !drop_0. simpl. destruct (extent_of mode mB sB) as [x|] eqn:EB.
        -- rewrite (output_cells_store mA mB sA sB rC i mode x Em)
             by (try lia; unfold output_extent; rewrite EA, EB; reflexivity).
           simpl. apply IH; lia.
        -- simpl.
           rewrite <- (output_cells_skip mA mB sA sB rC i mode Em)
             by (try lia; unfold output_extent; rewrite EA, EB; reflexivity).
           apply IH; lia.
Qed.

(** ** The constructor in closed form *)

Lemma output_modes_spec (implicit : bool) (modeA modeB modeC : list ascii)
    (e : Einsum) :
  numModesA_ e = length modeA -> numModesB_ e = length modeB ->
  output_modes implicit modeA modeB modeC e =
  if implicit then
    if kMaxNumModes_ <? length (implicit_modes modeA modeB)
    then Throw (runtime_error "too many modes in output tensor.")
    else Done (std_sort (implicit_modes modeA modeB),
               set_numModesC_ e (length (implicit_modes modeA modeB)))
  else Done (modeC, set_numModesC_ e (length modeC)).
Proof.
  intros HA HB. unfold output_modes. destruct implicit; [|reflexivity].
  unfold copyModesIf. rewrite HA, HB, !take_ge by lia.
  rewrite copyModesIf_loop_spec by (simpl; lia). simpl.
  unfold implicit_modes. rewrite length_app.
  destruct (Nat.leb_spec (length (non_contracted modeA modeB)) kMaxNumModes_)
    as [Hle|Hgt]; simpl.
  - rewrite copyModesIf_loop_spec by exact Hle.
    destruct (Nat.leb_spec
                (length (non_contracted modeA modeB) +
                 length (non_contracted modeB modeA)) kMaxNumModes_);
      destruct (Nat.ltb_spec kMaxNumModes_
                  (length (non_contracted modeA modeB) +
                   length (non_contracted modeB modeA)));
      try lia; simpl; rewrite ?length_app; reflexivity.
  - destruct (Nat.ltb_spec kMaxNumModes_
                (length (non_contracted modeA modeB) +
                 length (non_contracted modeB modeA))); [reflexivity | lia].
Qed.

Lemma Einsum_ctor_summary (equation : string)
    (A_shape A_strides B_shape B_strides : list Z) :
  Einsum_ctor equation A_shape A_strides B_shape B_strides =
  ctor_summary equation A_shape A_strides B_shape B_strides.
Proof.
  unfold Einsum_ctor, ctor_summary.
  set (eq := list_ascii_of_string equation).
  destruct (extraction_spec eq) as (-> & -> & ->).
  set (modeA := operand_modes (segmentA eq)).
  set (modeB := operand_modes (segmentB eq)).
  set (modeC := operand_modes (segmentC eq)).
  destruct (negb (is_npos (find eq "..."))); [reflexivity|]. simpl.
  set (nA := u32 (length A_shape)).
  set (nB := if usesB eq then u32 (length B_shape) else 0).
  set (e0 := if negb (usesB eq)
             then set_numModesB_ (Einsum_init A_shape B_shape) 0
             else Einsum_init A_shape B_shape).
  assert (He0 : e0 = mkEinsum nA nB 0 false
                       (filled (take 0 modeA)) (filled (take 0 modeB))
                       (replicate kMaxNumModes_ None)
                       (filled (take 0 A_shape)) (filled (take 0 B_shape))
                       (replicate kMaxNumModes_ None)
                       (filled (take 0 A_strides)) (filled (take 0 B_strides))).
  { subst e0 nA nB. rewrite !take_0, !filled_nil.
    destruct (usesB eq); reflexivity. }
  rewrite He0. clear He0 e0. simpl.
  destruct (Nat.eqb_spec (length modeA) nA) as [HA|]; [simpl|reflexivity].
  destruct (Nat.eqb_spec (length modeB) nB) as [HB|]; [simpl|reflexivity].
  destruct (Nat.ltb_spec kMaxNumModes_ nA) as [|HKA]; [reflexivity|].
  destruct (Nat.ltb_spec kMaxNumModes_ nB) as [|HKB]; [reflexivity|].
  assert (HsA : nA <= length A_shape) by apply u32_le.
  assert (HsB : nB <= length B_shape).
  { subst nB. destruct (usesB eq); [apply u32_le | lia]. }
  rewrite output_modes_spec by (simpl; congruence).
  set (rC := if isImplicit eq then std_sort (implicit_modes modeA modeB) else modeC).
  assert (Hout :
    (if isImplicit eq
     then if kMaxNumModes_ <? length (implicit_modes modeA modeB)
          then Throw (runtime_error "too many modes in output tensor.")
          else Done (std_sort (implicit_modes modeA modeB),
                     set_numModesC_
                       (mkEinsum nA nB 0 false
                          (filled (take 0 modeA)) (filled (take 0 modeB))
                          (replicate kMaxNumModes_ None)
                          (filled (take 0 A_shape)) (filled (take 0 B_shape))
                          (replicate kMaxNumModes_ None)
                          (filled (take 0 A_strides)) (filled (take 0 B_strides)))
                       (length (implicit_modes modeA modeB)))
     else Done (modeC,
                set_numModesC_
                  (mkEinsum nA nB 0 false
                     (filled (take 0 modeA)) (filled (take 0 modeB))
                     (replicate kMaxNumModes_ None)
                     (filled (take 0 A_shape)) (filled (take 0 B_shape))
                     (replicate kMaxNumModes_ None)
                     (filled (take 0 A_strides)) (filled (take 0 B_strides)))
                  (length modeC))) =
    if isImplicit eq && (kMaxNumModes_ <? length rC)
    then Throw (runtime_error "too many modes in output tensor.")
    else Done (rC,
               mkEinsum nA nB (length rC) false
                 (filled (take 0 modeA)) (filled (take 0 modeB))
                 (replicate kMaxNumModes_ None)
                 (filled (take 0 A_shape)) (filled (take 0 B_shape))
                 (replicate kMaxNumModes_ None)
                 (filled (take 0 A_strides)) (filled (take 0 B_strides)))).
  { subst rC. destruct (isImplicit eq); simpl; [|reflexivity].
    rewrite std_sort_length.
    destruct (kMaxNumModes_ <? length (implicit_modes modeA modeB)); reflexivity. }
  rewrite Hout. clear Hout.
  destruct (isImplicit eq && (kMaxNumModes_ <? length rC)) eqn:Eover;
    [reflexivity|]. simpl.
  rewrite (copy_operand_spec "A" modeA A_shape A_strides nA 0) by (simpl; lia).
  simpl.
  replace (nA <=? length A_strides) with (negb (length A_strides <? nA))
    by (destruct (Nat.leb_spec nA (length A_strides));
        destruct (Nat.ltb_spec (length A_strides) nA); simpl; lia || reflexivity).
  destruct (length A_strides <? nA); [reflexivity|]. simpl.
  rewrite (copy_operand_spec "B" modeB B_shape B_strides nB 0) by (simpl; lia).
  simpl.
  replace (nB <=? length B_strides) with (negb (length B_strides <? nB))
    by (destruct (Nat.leb_spec nB (length B_strides));
        destruct (Nat.ltb_spec (length B_strides) nB); simpl; lia || reflexivity).
  destruct (length B_strides <? nB); [reflexivity|]. simpl.
  unfold set_operandA, set_operandB. simpl.
  rewrite (take_ge modeA nA), (take_ge modeB nB) by lia.
  pose proof (resolve_output_spec modeA modeB (take nA A_shape) (take nB B_shape)
                (filled (take nA A_strides)) (filled (take nB B_strides))
                rC (length rC) false (length rC) 0) as Hres.
  rewrite !length_take in Hres.
  replace (nA `min` length A_shape) with nA in Hres by lia.
  replace (nB `min` length B_shape) with nB in Hres by lia.
  unfold output_cells at 1 in Hres. rewrite !take_0, !filled_nil in Hres.
  simpl in Hres. rewrite Nat.sub_0_r in Hres.
  rewrite HA, HB in Hres. rewrite Hres by lia. clear Hres.
  replace (length rC <=? kMaxNumModes_) with (negb (kMaxNumModes_ <? length rC))
    by (destruct (Nat.leb_spec (length rC) kMaxNumModes_);
        destruct (Nat.ltb_spec kMaxNumModes_ (length rC)); simpl; lia || reflexivity).
  destruct (kMaxNumModes_ <? length rC); reflexivity.
Qed.

Lemma operand_modes_short (segment : list ascii) :
  length (operand_modes segment) <= kMaxNumModes_ ->
  operand_modes segment = remove_spaces segment.
Proof.
  unfold operand_modes. intros H. rewrite length_take in H.
  apply take_ge. lia.
Qed.

Lemma operand_modes_eq (segment : list ascii) :
  length (remove_spaces segment) <= kMaxNumModes_ ->
  operand_modes segment = remove_spaces segment.
Proof. intros H. unfold operand_modes. apply take_ge. lia. Qed.

Lemma segmentB_unused (equation : list ascii) :
  usesB equation = false -> segmentB equation = [].
Proof.
  intros H. unfold segmentB, b_start, b_end. rewrite H. reflexivity.
Qed.

(** The object that a completed construction returns. *)
Lemma Einsum_ctor_Done (equation : string)
    (A_shape A_strides B_shape B_strides : list Z) (e : Einsum) :
  Einsum_ctor equation A_shape A_strides B_shape B_strides = Done e ->
  let eq := list_ascii_of_string equation in
  let modeA := remove_spaces (segmentA eq) in
  let modeB := remove_spaces (segmentB eq) in
  let rC := if isImplicit eq then std_sort (implicit_modes modeA modeB)
            else remove_spaces (segmentC eq) in
  let nA := length modeA in
  let nB := length modeB in
  find eq "..." = None /\
  nA = u32 (length A_shape) /\
  nB = (if usesB eq then u32 (length B_shape) else 0) /\
  nA <= kMaxNumModes_ /\ nB <= kMaxNumModes_ /\ length rC <= kMaxNumModes_ /\
  nA <= length A_strides /\ nB <= length B_strides /\
  e = mkEinsum nA nB (length rC) true
        (filled modeA) (filled modeB) (filled rC)
        (filled (take nA A_shape)) (filled (take nB B_shape))
        (output_cells modeA (take nA A_shape) modeB (take nB B_shape) rC)
        (filled (take nA A_strides)) (filled (take nB B_strides)).
Proof.
  rewrite Einsum_ctor_summary. unfold ctor_summary.
  set (eq := list_ascii_of_string equation).
  destruct (find eq "...") eqn:Edots; simpl; [discriminate|].
  destruct (Nat.eqb_spec (length (operand_modes (segmentA eq)))
              (u32 (length A_shape))) as [HA|]; simpl; [|discriminate].
  destruct (Nat.eqb_spec (length (operand_modes (segmentB eq)))
              (if usesB eq then u32 (length B_shape) else 0)) as [HB|];
    simpl; [|discriminate].
  rewrite <- HA, <- HB.
  destruct (Nat.ltb_spec kMaxNumModes_ (length (operand_modes (segmentA eq))))
    as [|HKA]; [discriminate|].
  destruct (Nat.ltb_spec kMaxNumModes_ (length (operand_modes (segmentB eq))))
    as [|HKB]; [discriminate|].
  rewrite (operand_modes_short _ HKA), (operand_modes_short _ HKB) in *.
  match goal with
  | |- context [isImplicit eq && ?b] => destruct (isImplicit eq && b)
  end; [discriminate|].
  destruct (Nat.ltb_spec (length A_strides) (length (remove_spaces (segmentA eq))));
    [discriminate|].
  destruct (Nat.ltb_spec (length B_strides) (length (remove_spaces (segmentB eq))));
    [discriminate|].
  match goal with
  | |- context [kMaxNumModes_ <? length ?l] =>
      destruct (Nat.ltb_spec kMaxNumModes_ (length l)) as [|HKC]
  end; [discriminate|].
  intros [= <-].
  assert (HC : (if isImplicit eq
                then std_sort (implicit_modes (remove_spaces (segmentA eq))
                                 (remove_spaces (segmentB eq)))
                else operand_modes (segmentC eq)) =
               (if isImplicit eq
                then std_sort (implicit_modes (remove_spaces (segmentA eq))
                                 (remove_spaces (segmentB eq)))
                else remove_spaces (segmentC eq))).
  { destruct (isImplicit eq); [reflexivity|]. apply operand_modes_short, HKC. }
  rewrite HC in *. repeat split; try assumption; try lia;
    [rewrite <- (operand_modes_short _ HKA) | rewrite <- (operand_modes_short _ HKB)];
    assumption.
Qed.

(** ** The accessors *)

Lemma copy_at_filled {T} (name : string) (l : list T) :
  length l <= kMaxNumModes_ ->
  copy_at name (filled l) (length l) 0 = Done l.
Proof.
  intros H. rewrite copy_at_take by (rewrite filled_length; lia).
  rewrite drop_0, take_filled. apply read_cells_written.
Qed.

Lemma copy_at_output_cells (mA mB : list ascii) (sA sB : list Z) (rC : list ascii) :
  length rC <= kMaxNumModes_ ->
  copy_at "extentC_" (output_cells mA sA mB sB rC) (length rC) 0 =
  read_cells "extentC_" (output_extent mA sA mB sB <$> rC) 0.
Proof.
  intros H. unfold output_cells.
  rewrite copy_at_take
    by (rewrite length_app, length_fmap, length_replicate; lia).
  rewrite drop_0, take_app_le by (rewrite length_fmap; lia).
  rewrite take_ge by (rewrite length_fmap; lia). reflexivity.
Qed.

Lemma extent_of_take (mode : ascii) (modes : list ascii) (shape : list Z) :
  extent_of mode modes (take (length modes) shape) = extent_of mode modes shape.
Proof.
  revert shape. induction modes as [|m modes IH]; intros [|x shape]; simpl;
    try reflexivity.
  destruct (Ascii.eqb m mode); [reflexivity | apply IH].
Qed.

Lemma extent_of_not_In (mode : ascii) (modes : list ascii) (shape : list Z) :
  ~ In mode modes -> extent_of mode modes shape = None.
Proof.
  revert shape. induction modes as [|m modes IH]; intros [|x shape] H; simpl;
    try reflexivity.
  destruct (Ascii.eqb_spec m mode) as [->|].
  - exfalso. apply H. left. reflexivity.
  - apply IH. intros Hin. apply H. right. exact Hin.
Qed.

Lemma output_extent_take (modeA modeB : list ascii) (A_shape B_shape : list Z)
    (mode : ascii) :
  output_extent modeA (take (length modeA) A_shape)
    modeB (take (length modeB) B_shape) mode =
  output_extent modeA A_shape modeB B_shape mode.
Proof. unfold output_extent. rewrite !extent_of_take. reflexivity. Qed.

Lemma modes_accessors (equation : string)
    (A_shape A_strides B_shape B_strides : list Z) (e : Einsum) :
  Einsum_ctor equation A_shape A_strides B_shape B_strides = Done e ->
  let eq := list_ascii_of_string equation in
  let modeA := remove_spaces (segmentA eq) in
  let modeB := remove_spaces (segmentB eq) in
  let rC := if isImplicit eq then std_sort (implicit_modes modeA modeB)
            else remove_spaces (segmentC eq) in
  modesA e = Done modeA /\
  modesB e = Done modeB /\
  modesC e = Done rC /\
  numModesC_ e = length rC /\
  getOutputShape e =
    read_cells "extentC_" (output_extent modeA A_shape modeB B_shape <$> rC) 0.
Proof.
  intros H. apply Einsum_ctor_Done in H.
  destruct H as (_ & _ & _ & HKA & HKB & HKC & _ & _ & ->).
  unfold modesA, modesB, modesC, getOutputShape. simpl.
  rewrite !copy_at_filled by assumption.
  rewrite copy_at_output_cells by assumption.
  repeat split. f_equal. apply list_fmap_ext. intros i m _.
  apply output_extent_take.
Qed.

(** ** Output modes with and without an extent *)

Lemma output_cells_lookup (mA mB : list ascii) (sA sB : list Z) (rC : list ascii)
    (i : nat) (m : ascii) :
  rC !! i = Some m ->
  output_cells mA sA mB sB rC !! i = Some (output_extent mA sA mB sB m).
Proof.
  intros H. unfold output_cells. rewrite lookup_app_l.
  - rewrite list_lookup_fmap, H. reflexivity.
  - rewrite length_fmap. eapply lookup_lt_Some, H.
Qed.

Lemma output_extent_unresolved (mA mB : list ascii) (sA sB : list Z) (m : ascii) :
  ~ In m mA -> ~ In m mB -> output_extent mA sA mB sB m = None.
Proof.
  intros HA HB. unfold output_extent.
  rewrite (extent_of_not_In _ _ _ HA). apply extent_of_not_In, HB.
Qed.

Lemma extent_of_In (mode : ascii) (modes : list ascii) (shape : list Z) :
  In mode modes -> length modes <= length shape ->
  is_Some (extent_of mode modes shape).
Proof.
  revert shape. induction modes as [|m modes IH]; intros shape Hin Hlen;
    [destruct Hin|].
  destruct shape as [|x shape]; [simpl in Hlen; lia|]. simpl.
  destruct (Ascii.eqb_spec m mode) as [->|Hne]; [eauto|].
  apply IH; [|simpl in Hlen; lia].
  destruct Hin as [->|Hin]; [contradiction | exact Hin].
Qed.

Lemma output_extent_resolved (modeA modeB : list ascii) (A_shape B_shape : list Z)
    (m : ascii) :
  length modeA <= length A_shape -> length modeB <= length B_shape ->
  In m modeA \/ In m modeB ->
  is_Some (output_extent modeA A_shape modeB B_shape m).
Proof.
  intros HA HB Hin. unfold output_extent.
  destruct (extent_of m modeA A_shape) as [x|] eqn:E; [eauto|].
  destruct Hin as [Hin|Hin].
  - destruct (extent_of_In m modeA A_shape Hin HA) as [x Hx]. congruence.
  - exact (extent_of_In m modeB B_shape Hin HB).
Qed.

Lemma resolved_cells (modeA modeB : list ascii) (A_shape B_shape : list Z)
    (modes : list ascii) :
  length modeA <= length A_shape -> length modeB <= length B_shape ->
  (forall m, In m modes -> In m modeA \/ In m modeB) ->
  exists shape,
    output_extent modeA A_shape modeB B_shape <$> modes = Some <$> shape.
Proof.
  intros HA HB. induction modes as [|m modes IH]; intros Hin.
  - exists []. reflexivity.
  - destruct IH as [shape Hs]; [intros x Hx; apply Hin; right; exact Hx|].
    destruct (output_extent_resolved modeA modeB A_shape B_shape m HA HB)
      as [x Hx]; [apply Hin; left; reflexivity|].
    exists (x :: shape). simpl. rewrite Hx. f_equal. exact Hs.
Qed.

Lemma implicit_modes_In (modeA modeB : list ascii) (m : ascii) :
  In m (std_sort (implicit_modes modeA modeB)) -> In m modeA \/ In m modeB.
Proof.
  intros H. apply (proj1 (std_sort_In _ _)) in H. unfold implicit_modes in H.
  apply in_app_or in H as [H|H]; apply non_contracted_In in H as [H _]; auto.
Qed.

(** The lengths of the shapes of a completed construction. *)
Lemma constructed_lengths (equation : string)
    (A_shape A_strides B_shape B_strides : list Z) (e : Einsum) :
  Einsum_ctor equation A_shape A_strides B_shape B_strides = Done e ->
  length (remove_spaces (segmentA (list_ascii_of_string equation))) <=
    length A_shape /\
  length (remove_spaces (segmentB (list_ascii_of_string equation))) <=
    length B_shape.
Proof.
  intros H. apply Einsum_ctor_Done in H. cbv zeta in H.
  destruct H as (_ & HnA & HnB & _). rewrite HnA, HnB.
  split; [apply u32_le|].
  destruct (usesB _); [apply u32_le | lia].
Qed.

(** The cells of [extentC_] of a constructed object. *)
Lemma constructed_extentC (equation : string)
    (A_shape A_strides B_shape B_strides : list Z) (e : Einsum) :
  Einsum_ctor equation A_shape A_strides B_shape B_strides = Done e ->
  let eq := list_ascii_of_string equation in
  let modeA := remove_spaces (segmentA eq) in
  let modeB := remove_spaces (segmentB eq) in
  let rC := if isImplicit eq then std_sort (implicit_modes modeA modeB)
            else remove_spaces (segmentC eq) in
  forall i m,
    rC !! i = Some m ->
    extentC_ e !! i = Some (output_extent modeA A_shape modeB B_shape m).
Proof.
  intros H eq modeA modeB rC i m Hm. apply Einsum_ctor_Done in H.
  cbv zeta in H. fold eq modeA modeB rC in H.
  destruct H as (_ & _ & _ & _ & _ & _ & _ & _ & ->). simpl.
  rewrite (output_cells_lookup _ _ _ _ _ _ _ Hm).
  rewrite output_extent_take. reflexivity.
Qed.

(** [getOutputShape] on a constructed object: the extents of the output
    modes when each of them occurs in an operand, and no defined result when
    one of them occurs in neither. *)
Lemma getOutputShape_constructed (equation : string)
    (A_shape A_strides B_shape B_strides : list Z) (e : Einsum) :
  Einsum_ctor equation A_shape A_strides B_shape B_strides = Done e ->
  let eq := list_ascii_of_string equation in
  let modeA := remove_spaces (segmentA eq) in
  let modeB := remove_spaces (segmentB eq) in
  let rC := if isImplicit eq then std_sort (implicit_modes modeA modeB)
            else remove_spaces (segmentC eq) in
  ((forall m, In m rC -> In m modeA \/ In m modeB) ->
   exists shape,
     getOutputShape e = Done shape /\
     Some <$> shape = output_extent modeA A_shape modeB B_shape <$> rC) /\
  (forall i m,
      rC !! i = Some m -> ~ In m modeA -> ~ In m modeB ->
      exists j, j <= i /\
        getOutputShape e = Undefined (Indeterminate "extentC_" j)).
Proof.
  intros H eq modeA modeB rC.
  destruct (constructed_lengths _ _ _ _ _ _ H) as [HlA HlB].
  fold eq modeA modeB in HlA, HlB.
  apply modes_accessors in H. cbv zeta in H. fold eq modeA modeB rC in H.
  destruct H as (_ & _ & _ & _ & Hs). rewrite Hs. split.
  - intros Hin.
    destruct (resolved_cells modeA modeB A_shape B_shape rC HlA HlB Hin)
      as [shape Hshape].
    exists shape. rewrite Hshape. split; [apply read_cells_written | reflexivity].
  - intros i m Hm HnA HnB.
    apply (read_cells_unwritten "extentC_" _ 0 i).
    rewrite list_lookup_fmap, Hm. simpl. unfold output_extent.
    rewrite !extent_of_not_In by assumption. reflexivity.
Qed.

(** ** Calls after construction *)



(** The constructor once the checks of lines 101-160 have passed. *)
Lemma Einsum_ctor_checked (equation : string)
    (A_shape A_strides B_shape B_strides : list Z) :
  let eq := list_ascii_of_string equation in
  let modeA := remove_spaces (segmentA eq) in
  let modeB := remove_spaces (segmentB eq) in
  let rC := if isImplicit eq then std_sort (implicit_modes modeA modeB)
            else operand_modes (segmentC eq) in
  let nB := if usesB eq then length B_shape else 0 in
  (Z.of_nat kMaxNumModes_ < 2 ^ 31)%Z ->
  find eq "..." = None ->
  length modeA = length A_shape ->
  (usesB eq = true -> length modeB = length B_shape) ->
  length modeA <= kMaxNumModes_ -> length modeB <= kMaxNumModes_ ->
  Einsum_ctor equation A_shape A_strides B_shape B_strides =
  if isImplicit eq && (kMaxNumModes_ <? length rC)
  then Throw (runtime_error "too many modes in output tensor.")
  else if length A_strides <? length A_shape
  then Undefined (OutOfBounds "A_strides" (length A_strides))
  else if length B_strides <? nB
  then Undefined (OutOfBounds "B_strides" (length B_strides))
  else if kMaxNumModes_ <? length rC
  then Undefined (OutOfBounds "modesC_" kMaxNumModes_)
  else
    Done (mkEinsum (length A_shape) nB (length rC) true
            (filled modeA) (filled modeB) (filled rC)
            (filled A_shape) (filled (take nB B_shape))
            (output_cells modeA A_shape modeB (take nB B_shape) rC)
            (filled (take (length A_shape) A_strides))
            (filled (take nB B_strides))).
Proof.
  intros eq modeA modeB rC nB Hint Hdots HA HB HKA HKB.
  rewrite Einsum_ctor_summary. unfold ctor_summary. fold eq.
  rewrite Hdots. simpl.
  rewrite (operand_modes_eq (segmentA eq)), (operand_modes_eq (segmentB eq))
    by assumption.
  fold modeA modeB rC.
  assert (HuA : u32 (length A_shape) = length A_shape)
    by (apply u32_small; lia).
  assert (HuB : (if usesB eq then u32 (length B_shape) else 0) = nB).
  { subst nB. destruct (usesB eq); [|reflexivity].
    apply u32_small. specialize (HB eq_refl). lia. }
  assert (HnB : length modeB = nB).
  { subst nB. destruct (usesB eq) eqn:E; [auto|].
    subst modeB. rewrite (segmentB_unused _ E). reflexivity. }
  rewrite HuA, HuB, HA, HnB, !Nat.eqb_refl. simpl.
  rewrite HA in HKA. rewrite HnB in HKB.
  destruct (Nat.ltb_spec kMaxNumModes_ (length A_shape)); [lia|].
  destruct (Nat.ltb_spec kMaxNumModes_ nB); [lia|].
  rewrite (take_ge A_shape) by lia. reflexivity.
Qed.

(** Settles statements about the outcome of a call from the equation [Hctor]
    that gives that outcome. *)
Ltac settle_outcome Hctor :=
  repeat match goal with
         | H : ?x = ?x -> _ |- _ => specialize (H eq_refl)
         end;
  repeat split; intros;
  repeat match goal with
         | H : ?x = ?x -> _ |- _ => specialize (H eq_refl)
         end;
  try assumption; try lia; try (exfalso; lia); try discriminate;
  try (rewrite Hctor; discriminate);
  try (rewrite Hctor in *; discriminate);
  try (match goal with
       | H : _ = Done _ |- _ =>
           rewrite Hctor in H; injection H as <-; reflexivity
       end).

(** Two equations without "..." that agree on the presence of "," and of
    "->" and whose segments have the same characters other than spaces give
    the same extracted modes and the same result of construction. *)
Lemma same_segments_same_result (equation1 equation2 : string)
    (A_shape A_strides B_shape B_strides : list Z) :
  let eq1 := list_ascii_of_string equation1 in
  let eq2 := list_ascii_of_string equation2 in
  find eq1 "..." = None -> find eq2 "..." = None ->
  usesB eq1 = usesB eq2 -> isImplicit eq1 = isImplicit eq2 ->
  remove_spaces (segmentA eq1) = remove_spaces (segmentA eq2) ->
  remove_spaces (segmentB eq1) = remove_spaces (segmentB eq2) ->
  remove_spaces (segmentC eq1) = remove_spaces (segmentC eq2) ->
  extract_modeA eq1 = extract_modeA eq2 /\
  extract_modeB eq1 = extract_modeB eq2 /\
  extract_modeC eq1 = extract_modeC eq2 /\
  Einsum_ctor equation1 A_shape A_strides B_shape B_strides =
  Einsum_ctor equation2 A_shape A_strides B_shape B_strides.
Proof.
  intros eq1 eq2 Hd1 Hd2 HB Himp HsA HsB HsC.
  destruct (extraction_spec eq1) as (-> & -> & ->).
  destruct (extraction_spec eq2) as (-> & -> & ->).
  unfold operand_modes. rewrite HsA, HsB, HsC.
  repeat split.
  rewrite !Einsum_ctor_summary. unfold ctor_summary, operand_modes.
  fold eq1 eq2. rewrite Hd1, Hd2, HB, Himp, HsA, HsB, HsC. reflexivity.
Qed.

(** ** Dispatch *)
Lemma HANDLE_ERROR_log (line : nat) (call : backend_call)
    (log : list backend_call) :
  (HANDLE_ERROR line call log).2 = log ++ [call] /\
  ((HANDLE_ERROR line call log).1 = Done tt \/
   exists ex, (HANDLE_ERROR line call log).1 = Throw ex).
Proof.
  unfold HANDLE_ERROR. destruct (backend log call); simpl; eauto.
Qed.

(** One step of a sequence of backend calls. *)
Lemma io_bind_HANDLE_ERROR {A} (line : nat) (call : backend_call)
    (k : unit -> backend_io A) (log : list backend_call) :
  io_bind (HANDLE_ERROR line call) k log = k tt (log ++ [call]) \/
  exists ex, io_bind (HANDLE_ERROR line call) k log = (Throw ex, log ++ [call]).
Proof.
  unfold io_bind, HANDLE_ERROR. destruct (backend log call); eauto.
Qed.

Ltac step_call H :=
  match type of H with
  | io_bind (HANDLE_ERROR ?line ?call) ?k ?log = _ =>
      destruct (io_bind_HANDLE_ERROR line call k log) as [Hstep|[? Hstep]];
      rewrite Hstep in H; clear Hstep; cbv beta in H
  | HANDLE_ERROR ?line ?call ?log = _ =>
      let Hl := fresh "Hlog" in
      let Hr := fresh "Hres" in
      destruct (HANDLE_ERROR_log line call log) as [Hl Hr];
      destruct (HANDLE_ERROR line call log) as [? ?]; simpl in Hl, Hr
  end.

Lemma contraction_path_calls (e : Einsum) (log log' : list backend_call)
    (r : outcome unit) :
  contraction_path e log = (r, log') ->
  exists calls,
    log' = log ++ calls /\
    Forall (fun c => reduction_call c = false) calls /\
    (r = Done tt -> last calls = Some (cutensorContraction 1 0 kWorksize_)).
Proof.
  unfold contraction_path. intros H.
  repeat (step_call H;
          [|injection H as <- <-; eexists; rewrite <- ?app_assoc;
            split; [reflexivity|];
            split; [repeat constructor | discriminate]]).
  step_call H. injection H as <- <-. subst. eexists. rewrite <- ?app_assoc.
  split; [reflexivity|]. split; [repeat constructor|].
  intros _. reflexivity.
Qed.

Lemma reduction_path_calls (e : Einsum) (log log' : list backend_call)
    (r : outcome unit) :
  reduction_path e log = (r, log') ->
  exists calls,
    log' = log ++ calls /\
    Forall (fun c => contraction_call c = false) calls /\
    (r = Done tt ->
     last calls =
     Some (cutensorReduction 1 0 (modesA_ e) (modesC_ e) kWorksize_)).
Proof.
  unfold reduction_path. intros H. step_call H.
  injection H as <- <-. subst. eexists. split; [reflexivity|].
  split; [repeat constructor|]. intros _. reflexivity.
Qed.

Lemma execute_calls (e : Einsum) (C_strides : list Z)
    (log log' : list backend_call) (r : outcome bool) :
  execute e C_strides log = (r, log') ->
  exists calls,
    log' = log ++ calls /\
    (numModesB_ e = 0 -> Forall (fun c => contraction_call c = false) calls) /\
    (0 < numModesB_ e -> Forall (fun c => reduction_call c = false) calls) /\
    (r = Done true ->
     last calls =
     Some (if 0 <? numModesB_ e
           then cutensorContraction 1 0 kWorksize_
           else cutensorReduction 1 0 (modesA_ e) (modesC_ e) kWorksize_)).
Proof.
  unfold execute. intros H.
  destruct (isInitialized_ e); simpl in H.
  2:{ injection H as <- <-. exists []. rewrite app_nil_r.
      repeat split; try constructor. discriminate. }
  repeat (step_call H;
          [|injection H as <- <-; eexists; rewrite <- ?app_assoc;
            split; [reflexivity|];
            repeat split; try (intros; repeat constructor); discriminate]).
  unfold io_bind in H.
  destruct (Nat.ltb_spec 0 (numModesB_ e)) as [Hpos|Hzero].
  - destruct (contraction_path e _) as [r1 log1] eqn:E1.
    apply contraction_path_calls in E1 as (calls & -> & HF & Hlast).
    rewrite <- !app_assoc in H.
    match type of H with
    | context [log ++ ?l] =>
        assert (Hr : log' = log ++ l /\ (r = Done true -> r1 = Done tt))
    end.
    { destruct r1 as [[]| |]; injection H as <- <-;
        (split; [reflexivity|]); intros; reflexivity || discriminate. }
    destruct Hr as [-> Hr]. eexists. split; [reflexivity|].
    split; [intros; lia|]. split.
    { intros _. simpl. repeat (constructor; [reflexivity|]). exact HF. }
    intros Hdone. specialize (Hlast (Hr Hdone)). simpl.
    destruct calls; [discriminate|]. exact Hlast.
  - destruct (reduction_path e _) as [r1 log1] eqn:E1.
    apply reduction_path_calls in E1 as (calls & -> & HF & Hlast).
    rewrite <- !app_assoc in H.
    match type of H with
    | context [log ++ ?l] =>
        assert (Hr : log' = log ++ l /\ (r = Done true -> r1 = Done tt))
    end.
    { destruct r1 as [[]| |]; injection H as <- <-;
        (split; [reflexivity|]); intros; reflexivity || discriminate. }
    destruct Hr as [-> Hr]. eexists. split; [reflexivity|].
    split.
    { intros _. simpl. repeat (constructor; [reflexivity|]). exact HF. }
    split; [intros; lia|].
    intros Hdone. specialize (Hlast (Hr Hdone)). simpl.
    destruct calls; [discriminate|]. exact Hlast.
Qed.

(** On a constructed object the branch of [execute] is decided by the number
    of modes of the second operand. *)
Lemma constructed_numModesB (equation : string)
    (A_shape A_strides B_shape B_strides : list Z) (e : Einsum) :
  Einsum_ctor equation A_shape A_strides B_shape B_strides = Done e ->
  isInitialized_ e = true /\
  numModesB_ e = length (remove_spaces (segmentB (list_ascii_of_string equation))) /\
  (usesB (list_ascii_of_string equation) = false -> numModesB_ e = 0).
Proof.
  intros H. apply Einsum_ctor_Done in H.
  destruct H as (_ & _ & _ & _ & _ & _ & _ & _ & ->). simpl.
  repeat split. intros E. rewrite (segmentB_unused _ E). reflexivity.
Qed.

(** ** A space inserted in an equation *)
Lemma with_space_cons (k : nat) (c : ascii) (l : list ascii) :
  with_space (S k) (c :: l) = c :: with_space k l.
Proof. reflexivity. Qed.

Lemma with_space_nil (k : nat) : with_space k [] = [" "%char].
Proof. unfold with_space. rewrite take_nil, drop_nil. reflexivity. Qed.

Lemma with_space_length (k : nat) (l : list ascii) :
  length (with_space k l) = S (length l).
Proof.
  unfold with_space. rewrite length_app. simpl.
  rewrite length_take, length_drop. lia.
Qed.

Lemma remove_spaces_with_space (k : nat) (l : list ascii) :
  remove_spaces (with_space k l) = remove_spaces l.
Proof.
  unfold with_space. rewrite remove_spaces_app. simpl.
  rewrite <- remove_spaces_app, take_drop. reflexivity.
Qed.

Lemma starts_with_with_space (pat s : list ascii) (k : nat) :
  ~ In " "%char pat ->
  starts_with pat (with_space k s) =
  if k <? length pat then false else starts_with pat s.
Proof.
  revert k s. induction pat as [|p pat IH]; intros k s Hsp; [reflexivity|].
  assert (Hp : Ascii.eqb p " " = false).
  { apply Ascii.eqb_neq. intros ->. apply Hsp. left. reflexivity. }
  assert (Hpat : ~ In " "%char pat) by (intros H; apply Hsp; right; exact H).
  destruct k as [|k].
  - unfold with_space. simpl. rewrite Hp. reflexivity.
  - destruct s as [|c s].
    + rewrite with_space_nil. simpl. rewrite Hp.
      destruct (S k <? S (length pat)); reflexivity.
    + rewrite with_space_cons. simpl. rewrite (IH k s Hpat).
      change (S k <? S (length pat)) with (k <? length pat).
      destruct (k <? length pat); [apply andb_false_r | reflexivity].
Qed.

Lemma find_from_shift (pat s : list ascii) (pos : nat) :
  find_from pat s (S pos) = S <$> find_from pat s pos.
Proof.
  revert pos. induction s as [|c s IH]; intros pos; simpl.
  - destruct (starts_with pat []); reflexivity.
  - destruct (starts_with pat (c :: s)); [reflexivity | apply IH].
Qed.

Lemma find_from_with_space_0 (pat s : list ascii) (pos : nat) :
  pat <> [] -> ~ In " "%char pat ->
  find_from pat (with_space 0 s) pos = S <$> find_from pat s pos.
Proof.
  intros Hne Hsp. destruct pat as [|p pat]; [contradiction|].
  assert (Hp : Ascii.eqb p " " = false).
  { apply Ascii.eqb_neq. intros ->. apply Hsp. left. reflexivity. }
  unfold with_space. rewrite take_0, drop_0. simpl. rewrite Hp. simpl.
  apply find_from_shift.
Qed.

Lemma find_from_with_space (pat s : list ascii) (k : nat) :
  pat <> [] -> ~ In " "%char pat ->
  forall pos,
    match find_from pat s pos with
    | None => find_from pat (with_space k s) pos = None
    | Some p =>
        k <= p - pos \/ p - pos + length pat <= k ->
        find_from pat (with_space k s) pos =
        Some (if k <=? p - pos then S p else p)
    end.
Proof.
  intros Hne Hsp. revert k.
  assert (Hnil : forall l, l = [] \/ l = [" "%char] -> starts_with pat l = false).
  { destruct pat as [|p pat]; [contradiction|].
    intros l [->| ->]; [reflexivity|]. simpl.
    replace (Ascii.eqb p " ") with false; [reflexivity|].
    symmetry. apply Ascii.eqb_neq. intros ->. apply Hsp. left. reflexivity. }
  induction s as [|c s IH]; intros k pos.
  - rewrite with_space_nil. simpl. rewrite !Hnil by auto. reflexivity.
  - destruct k as [|k].
    + rewrite find_from_with_space_0 by assumption.
      destruct (find_from pat (c :: s) pos) as [q|]; [|reflexivity].
      intros _. reflexivity.
    + rewrite with_space_cons.
      change (find_from pat (c :: with_space k s) pos)
        with (if starts_with pat (with_space (S k) (c :: s)) then Some pos
              else find_from pat (with_space k s) (S pos)).
      rewrite starts_with_with_space by exact Hsp. simpl find_from.
      destruct (starts_with pat (c :: s)) eqn:Est.
      * intros [Hk|Hk]; [lia|].
        rewrite Nat.sub_diag in Hk. simpl in Hk.
        destruct (Nat.ltb_spec (S k) (length pat)); [lia|].
        rewrite Nat.sub_diag. reflexivity.
      * assert (Hsame : (if (if S k <? length pat then false else false)
                         then Some pos
                         else find_from pat (with_space k s) (S pos)) =
                        find_from pat (with_space k s) (S pos))
          by (destruct (S k <? length pat); reflexivity).
        rewrite Hsame. clear Hsame.
        specialize (IH k (S pos)).
        destruct (find_from pat s (S pos)) as [q|] eqn:Eq; [|exact IH].
        apply find_from_bound in Eq as [Hq _]. intros Hk.
        rewrite IH by lia.
        destruct (Nat.leb_spec k (q - S pos));
          destruct (Nat.leb_spec (S k) (q - pos)); try lia; reflexivity.
Qed.

Lemma with_space_ge (k : nat) (l : list ascii) :
  length l <= k -> with_space k l = with_space (length l) l.
Proof.
  intros H. unfold with_space.
  rewrite !take_ge, !drop_ge by lia. reflexivity.
Qed.

Lemma take_with_space (n k : nat) (l : list ascii) :
  k <= length l ->
  take n (with_space k l) =
  if n <=? k then take n l else with_space k (take (n - 1) l).
Proof.
  intros Hk. unfold with_space. rewrite take_app, length_take.
  replace (k `min` length l) with k by lia.
  destruct (Nat.leb_spec n k) as [Hle|Hgt].
  - replace (n - k) with 0 by lia. rewrite take_0, app_nil_r, take_take.
    f_equal. lia.
  - replace (n - k) with (S (n - 1 - k)) by lia. simpl.
    rewrite !take_take, take_drop_commute.
    replace (n `min` k) with k by lia.
    replace (k `min` (n - 1)) with k by lia.
    replace (k + (n - 1 - k)) with (n - 1) by lia. reflexivity.
Qed.

Lemma drop_with_space (n k : nat) (l : list ascii) :
  k <= length l ->
  drop n (with_space k l) =
  if n <=? k then with_space (k - n) (drop n l) else drop (n - 1) l.
Proof.
  intros Hk. unfold with_space. rewrite drop_app, length_take.
  replace (k `min` length l) with k by lia.
  destruct (Nat.leb_spec n k) as [Hle|Hgt].
  - replace (n - k) with 0 by lia. rewrite drop_0, drop_drop.
    replace (n + (k - n)) with k by lia.
    rewrite take_drop_commute.
    replace (n + (k - n)) with k by lia. reflexivity.
  - rewrite (drop_ge (take k l)) by (rewrite length_take; lia).
    replace (n - k) with (S (n - 1 - k)) by lia. simpl.
    rewrite drop_drop. f_equal. lia.
Qed.

(** A segment whose bounds move with the inserted space keeps its
    characters other than spaces. *)
Lemma substr_with_space (k first last first' last' : nat) (l : list ascii) :
  k <= length l ->
  (first' = first /\ first <= k) \/ (first' = S first /\ k <= first) ->
  (last' = last /\ last <= k) \/ (last' = S last /\ k <= last) ->
  remove_spaces (substr (with_space k l) first' last') =
  remove_spaces (substr l first last).
Proof.
  intros Hk Hfirst Hlast. unfold substr.
  rewrite drop_with_space by exact Hk.
  destruct Hfirst as [[-> Hf]|[-> Hf]].
  - destruct (Nat.leb_spec first k); [|lia].
    rewrite take_with_space by (rewrite length_drop; lia).
    destruct Hlast as [[-> Hl]|[-> Hl]].
    + destruct (Nat.leb_spec (last - first) (k - first)); [reflexivity | lia].
    + destruct (Nat.leb_spec (S last - first) (k - first)); [lia|].
      rewrite remove_spaces_with_space. do 2 f_equal. lia.
  - destruct (Nat.leb_spec (S first) k); [lia|].
    replace (S first - 1) with first by lia.
    destruct Hlast as [[-> Hl]|[-> Hl]].
    + replace (last - S first) with 0 by lia.
      replace (last - first) with 0 by lia. reflexivity.
    + reflexivity.
Qed.

Lemma find_with_space (equation : list ascii) (pat : string) (k : nat) :
  list_ascii_of_string pat <> [] -> ~ In " "%char (list_ascii_of_string pat) ->
  match find equation pat with
  | None => find (with_space k equation) pat = None
  | Some p =>
      k <= p \/ p + length (list_ascii_of_string pat) <= k ->
      find (with_space k equation) pat = Some (if k <=? p then S p else p)
  end.
Proof.
  intros Hne Hsp. unfold find.
  pose proof (find_from_with_space _ equation k Hne Hsp 0) as H.
  destruct (find_from (list_ascii_of_string pat) equation 0) as [p|];
    [|exact H].
  rewrite Nat.sub_0_r in H. exact H.
Qed.

Lemma with_space_segments (equation : list ascii) (k : nat) :
  k <= length equation ->
  find equation "..." = None ->
  (forall p, find equation "->" = Some p -> k <> p + 1) ->
  find (with_space k equation) "..." = None /\
  usesB (with_space k equation) = usesB equation /\
  isImplicit (with_space k equation) = isImplicit equation /\
  remove_spaces (segmentA (with_space k equation)) =
    remove_spaces (segmentA equation) /\
  remove_spaces (segmentB (with_space k equation)) =
    remove_spaces (segmentB equation) /\
  remove_spaces (segmentC (with_space k equation)) =
    remove_spaces (segmentC equation).
Proof.
  intros Hk Hdots Harrow.
  assert (Hpat : forall pat : string,
             pat = "..." \/ pat = "," \/ pat = "->" ->
             list_ascii_of_string pat <> [] /\
             ~ In " "%char (list_ascii_of_string pat)).
  { intros pat [->|[->| ->]]; (split; [discriminate|]); simpl;
      intros H; repeat (destruct H as [H|H]; [discriminate H|]); exact H. }
  pose proof (find_with_space equation "..." k) as Hd.
  pose proof (find_with_space equation "," k) as Hc.
  pose proof (find_with_space equation "->" k) as Ha.
  destruct (Hpat "...") as [H1 H2]; [auto|]. specialize (Hd H1 H2). clear H1 H2.
  destruct (Hpat ",") as [H1 H2]; [auto|]. specialize (Hc H1 H2). clear H1 H2.
  destruct (Hpat "->") as [H1 H2]; [auto|]. specialize (Ha H1 H2). clear H1 H2.
  rewrite Hdots in Hd.
  unfold segmentA, segmentB, segmentC, a_start, a_end, b_start, b_end,
    c_start, c_end, usesB, isImplicit.
  rewrite with_space_length.
  destruct (find equation ",") as [pc|] eqn:Ec;
    destruct (find equation "->") as [pa|] eqn:Ea;
    try (rewrite Hc by (simpl; lia));
    try (rewrite Ha by (specialize (Harrow pa eq_refl); simpl; lia));
    try specialize (Harrow pa eq_refl);
    try apply find_bound in Ec; try apply find_bound in Ea;
    simpl in *;
    (split; [exact Hd|]); (split; [reflexivity|]); (split; [reflexivity|]);
    repeat split;
    repeat match goal with
           | |- context [?a <=? ?b] => destruct (Nat.leb_spec a b)
           end;
    simpl; apply substr_with_space; lia.
Qed.

Lemma insert_space_list (k : nat) (equation : string) :
  list_ascii_of_string (insert_space k equation) =
  with_space (k `min` length (list_ascii_of_string equation))
    (list_ascii_of_string equation).
Proof.
  unfold insert_space. rewrite list_ascii_of_string_of_list_ascii.
  destruct (Nat.le_gt_cases k (length (list_ascii_of_string equation))).
  - f_equal. lia.
  - rewrite with_space_ge by lia. f_equal. lia.
Qed.

(** ** The calls of [execute] in order *)

Lemma run_plan_spec (plan : list (nat * backend_call)) :
  forall log,
    run_plan plan log =
    match list_find (fun status => status <> 0) (statuses log plan.*2) with
    | None => (Done tt, log ++ plan.*2)
    | Some (k, status) =>
        (Throw (cutensor_error (default 0 (fst <$> plan !! k)) status),
         log ++ take (S k) plan.*2)
    end.
Proof.
  induction plan as [|[line call] rest IH]; intros log.
  - simpl. unfold io_ret. rewrite app_nil_r. reflexivity.
  - rewrite fmap_cons. cbn [run_plan statuses snd list_find].
    unfold io_bind, HANDLE_ERROR.
    destruct (backend log call) as [|status] eqn:E.
    + rewrite IH. rewrite decide_False by lia.
      destruct (list_find _ (statuses (log ++ [call]) rest.*2)) as [[k status]|];
        simpl; rewrite <- app_assoc; reflexivity.
    + rewrite decide_True by lia. reflexivity.
Qed.

Lemma execute_run_plan (e : Einsum) (C_strides : list Z) (log : list backend_call) :
  isInitialized_ e = true ->
  execute e C_strides log =
  ((run_plan (execute_plan e C_strides) log).1 ≫= (fun _ => Done true),
   (run_plan (execute_plan e C_strides) log).2).
Proof.
  intros Hinit. unfold execute, execute_plan, contraction_path, reduction_path.
  rewrite Hinit. simpl.
  destruct (0 <? numModesB_ e); simpl; unfold io_bind, HANDLE_ERROR, io_ret;
    repeat match goal with
           | |- context [backend ?l ?c] => destruct (backend l c); [|reflexivity]
           end; reflexivity.
Qed.

Lemma execute_uninitialized (e : Einsum) (C_strides : list Z)
    (log : list backend_call) :
  isInitialized_ e = false -> execute e C_strides log = (Done false, log).
Proof. intros H. unfold execute. rewrite H. reflexivity. Qed.

(** The calls that [execute] makes are the first calls of its plan. *)
Lemma execute_log (e : Einsum) (C_strides : list Z) (log : list backend_call) :
  exists n, (execute e C_strides log).2 = log ++ take n (execute_plan e C_strides).*2.
Proof.
  destruct (isInitialized_ e) eqn:Hinit.
  - rewrite execute_run_plan by assumption. cbn [snd]. rewrite run_plan_spec.
    destruct (list_find _ _) as [[k status]|]; cbn [snd].
    + exists (S k). reflexivity.
    + exists (length (execute_plan e C_strides).*2). rewrite firstn_all. reflexivity.
  - rewrite execute_uninitialized by assumption. exists 0. cbn [snd].
    rewrite take_0, app_nil_r. reflexivity.
Qed.

Lemma statuses_length (calls : list backend_call) :
  forall log, length (statuses log calls) = length calls.
Proof.
  induction calls as [|c calls IH]; intros log; simpl; [reflexivity|].
  rewrite IH. reflexivity.
Qed.

Lemma statuses_lookup (calls : list backend_call) :
  forall log k c,
    calls !! k = Some c ->
    statuses log calls !! k = Some (backend (log ++ take k calls) c).
Proof.
  induction calls as [|c0 calls IH]; intros log k c H; [discriminate|].
  destruct k as [|k]; simpl in *.
  - injection H as ->. rewrite app_nil_r. reflexivity.
  - rewrite (IH _ _ _ H). rewrite <- app_assoc. reflexivity.
Qed.

Lemma execute_plan_worksize (e : Einsum) (C_strides : list Z) :
  Forall (fun c => forall w, worksize_of c = Some w -> w = getWorksize)
    (execute_plan e C_strides).*2.
Proof.
  unfold execute_plan. destruct (0 <? numModesB_ e); simpl;
    repeat constructor; intros w H; simpl in H;
    try discriminate H; injection H as <-; reflexivity.
Qed.

(** The log of [execute] on an initialized object starts with the first call
    of the plan, and goes on with the second when the first succeeds. *)
Lemma run_plan_first_calls (l1 l2 : nat) (c1 c2 : backend_call)
    (rest : list (nat * backend_call)) (log : list backend_call) :
  exists tail,
    (run_plan ((l1, c1) :: (l2, c2) :: rest) log).2 = log ++ c1 :: tail /\
    (backend log c1 = 0 -> exists tail', tail = c2 :: tail').
Proof.
  cbn [run_plan]. unfold io_bind at 1. unfold HANDLE_ERROR at 1.
  destruct (backend log c1) as [|status].
  - unfold io_bind at 1. unfold HANDLE_ERROR at 1.
    destruct (backend (log ++ [c1]) c2) as [|status].
    + rewrite run_plan_spec.
      destruct (list_find _ _) as [[k status]|]; cbn [snd];
        rewrite <- !app_assoc; simpl; eauto.
    + cbn [snd]. rewrite <- app_assoc. simpl. eauto.
  - cbn [snd]. exists []. split; [reflexivity | discriminate].
Qed.

(** ** The extent of an output mode *)

Lemma extent_of_first (mode : ascii) (modes : list ascii) (shape : list Z) :
  forall j,
    modes !! j = Some mode ->
    (forall j', j' < j -> modes !! j' <> Some mode) ->
    j < length shape ->
    extent_of mode modes shape = shape !! j.
Proof.
  revert shape. induction modes as [|m modes IH]; intros shape j Hj Hfirst Hlen;
    [discriminate|].
  destruct shape as [|x shape]; [simpl in Hlen; lia|].
  destruct j as [|j]; simpl in *.
  - injection Hj as ->. rewrite Ascii.eqb_refl. reflexivity.
  - destruct (Ascii.eqb_spec m mode) as [->|].
    + exfalso. apply (Hfirst 0); [lia | reflexivity].
    + apply IH; [exact Hj | | lia].
      intros j' Hlt. apply (Hfirst (S j')). lia.
Qed.

(** ** Counting modes *)

Lemma count_occ_non_contracted (modeA modeB : list ascii) (m : ascii) :
  count_occ ascii_dec (non_contracted modeA modeB) m =
  if existsb (Ascii.eqb m) modeB then 0 else count_occ ascii_dec modeA m.
Proof.
  unfold non_contracted. induction modeA as [|a modeA IH]; simpl.
  - destruct (existsb _ modeB); reflexivity.
  - destruct (ascii_dec a m) as [->|Hne].
    + destruct (existsb (Ascii.eqb m) modeB) eqn:E; simpl.
      * rewrite IH. reflexivity.
      * destruct (ascii_dec m m); [|contradiction]. rewrite IH. reflexivity.
    + destruct (existsb (Ascii.eqb a) modeB); simpl; [exact IH|].
      destruct (ascii_dec a m); [contradiction | exact IH].
Qed.

(** ** The equation and its segments *)

Lemma find_from_Some (pat s : list ascii) :
  forall pos p,
    find_from pat s pos = Some p ->
    pos <= p /\ take (length pat) (drop (p - pos) s) = pat.
Proof.
  induction s as [|c s IH]; intros pos p; simpl.
  - destruct (starts_with pat []) eqn:E; [|discriminate].
    intros [= <-]. apply starts_with_prefix in E as [post E].
    symmetry in E. apply app_eq_nil in E as [-> _].
    split; [lia | reflexivity].
  - destruct (starts_with pat (c :: s)) eqn:E.
    + intros [= <-]. apply starts_with_prefix in E as [post E].
      split; [lia|]. rewrite Nat.sub_diag, drop_0, E.
      rewrite take_app_length. reflexivity.
    + intros H. apply IH in H as [Hle H]. split; [lia|].
      replace (p - pos) with (S (p - S pos)) by lia. exact H.
Qed.

Lemma find_Some (equation : list ascii) (pat : string) (p : nat) :
  find equation pat = Some p ->
  equation =
  take p equation ++ list_ascii_of_string pat ++
  drop (p + length (list_ascii_of_string pat)) equation.
Proof.
  unfold find. intros H. apply find_from_Some in H as [_ H].
  rewrite Nat.sub_0_r in H.
  rewrite <- (take_drop p equation) at 1. f_equal.
  rewrite <- (take_drop (length (list_ascii_of_string pat)) (drop p equation)) at 1.
  rewrite H, drop_drop. reflexivity.
Qed.

Lemma existsb_eqb_In (m : ascii) (l : list ascii) :
  existsb (Ascii.eqb m) l = true <-> In m l.
Proof.
  rewrite existsb_exists. split.
  - intros (x & Hx & Heq). apply Ascii.eqb_eq in Heq as ->. exact Hx.
  - intros H. exists m. split; [exact H | apply Ascii.eqb_refl].
Qed.

Lemma copy_at_past_end {T} (name : string) (a : list (option T)) (n : nat) :
  forall i,
    i <= length a -> length a < i + n ->
    copy_at name a n i =
    match read_cells name (drop i a) i with
    | Done _ => Throw (out_of_range name)
    | other => other
    end.
Proof.
  induction n as [|n IH]; intros i Hi H.
  - lia.
  - cbn [copy_at]. destruct (a !! i) as [cell|] eqn:E.
    + rewrite (drop_S _ _ _ E). cbn [read_cells].
      destruct cell as [x|]; [|reflexivity].
      apply lookup_lt_Some in E. rewrite IH by lia.
      destruct (read_cells name (drop (S i) a) (S i)); reflexivity.
    + apply lookup_ge_None in E. rewrite drop_ge by lia. reflexivity.
Qed.

Lemma copy_at_bounds {T} (name : string) (a : list (option T)) (n : nat) :
  reads_checked name a (length a) n (copy_at name a n 0).
Proof.
  split.
  - intros l Hl. destruct (Nat.leb_spec n (length a)) as [Hle|Hgt].
    + rewrite copy_at_take by lia. rewrite drop_0.
      rewrite Nat.min_l in Hl by lia. rewrite Hl. apply read_cells_written.
    + rewrite copy_at_past_end by lia. rewrite drop_0.
      rewrite Nat.min_r, firstn_all in Hl by lia.
      rewrite Hl, read_cells_written. reflexivity.
  - intros i Hi Hnone.
    destruct (Nat.leb_spec n (length a)) as [Hle|Hgt].
    + rewrite copy_at_take by lia. rewrite drop_0.
      apply (read_cells_unwritten name (take n a) 0 i).
      rewrite lookup_take_lt by lia. exact Hnone.
    + rewrite copy_at_past_end by lia. rewrite drop_0.
      destruct (read_cells_unwritten name a 0 i Hnone) as (j & Hj & ->).
      exists j. split; [exact Hj | reflexivity].
Qed.

(** ** The handle *)

Lemma CreateCuTensorHandle_spec (getenv : string -> option string)
    (log : list handle_call) :
  let attach := cutensorHandleAttachPlanCachelines CUTENSOR_N_CACHELINES in
  let init := handle_backend log cutensorInit in
  let err := handle_backend (log ++ [cutensorInit]) attach in
  CreateCuTensorHandle getenv log =
  if cache_requested getenv
  then (match err with
        | 0 => Done [(cutensorInit, init); (attach, 0)]
        | S _ => Throw (cutensor_error 428 err)
        end, log ++ [cutensorInit; attach])
  else (Done [(cutensorInit, init)], log ++ [cutensorInit]).
Proof.
  unfold CreateCuTensorHandle, cache_requested.
  destruct (match getenv "CUTENSOR_CACHE" with
            | Some value => (atoi value =? 1)%Z
            | None => false
            end); [|reflexivity].
  destruct (handle_backend (log ++ [cutensorInit])
              (cutensorHandleAttachPlanCachelines CUTENSOR_N_CACHELINES));
    simpl; rewrite <- app_assoc; reflexivity.
Qed.


Lemma execute_success_log (e : Einsum) (C_strides : list Z)
    (log : list backend_call) :
  (execute e C_strides log).1 = Done true ->
  (execute e C_strides log).2 = log ++ (execute_plan e C_strides).*2.
Proof.
  destruct (isInitialized_ e) eqn:Hinit.
  - rewrite execute_run_plan by assumption. cbn [fst snd].
    rewrite run_plan_spec.
    destruct (list_find _ _) as [[k status]|]; cbn [fst snd];
      [discriminate | reflexivity].
  - rewrite execute_uninitialized by assumption. discriminate.
Qed.

(** ** An implicit output written out *)

Lemma starts_with_app_true (pat s t : list ascii) :
  starts_with pat s = true -> starts_with pat (s ++ t) = true.
Proof.
  intros H. apply starts_with_prefix in H as [post ->].
  apply starts_with_prefix. exists (post ++ t). rewrite app_assoc. reflexivity.
Qed.

Lemma starts_with_app_false (pat : list ascii) :
  forall s t,
    starts_with pat s = false -> length pat <= length s ->
    starts_with pat (s ++ t) = false.
Proof.
  induction pat as [|p pat IH]; intros s t H Hlen; simpl in *; [discriminate|].
  destruct s as [|c s]; simpl in *; [lia|].
  destruct (Ascii.eqb p c); simpl in *; [|reflexivity].
  apply IH; [exact H | lia].
Qed.

Lemma find_from_here (pat s : list ascii) (pos : nat) :
  starts_with pat s = true -> find_from pat s pos = Some pos.
Proof.
  intros H. destruct s as [|c s]; simpl; rewrite H; reflexivity.
Qed.

Lemma find_from_app_Some (pat s t : list ascii) :
  forall pos p,
    find_from pat s pos = Some p -> find_from pat (s ++ t) pos = Some p.
Proof.
  induction s as [|c s IH]; intros pos p; simpl.
  - destruct (starts_with pat []) eqn:E; [|discriminate].
    intros [= <-]. apply find_from_here.
    apply (starts_with_app_true pat [] t E).
  - destruct (starts_with pat (c :: s)) eqn:E.
    + intros [= <-].
      pose proof (starts_with_app_true pat (c :: s) t E) as E'.
      rewrite <- app_comm_cons in E'. rewrite E'. reflexivity.
    + intros H. pose proof (find_from_bound _ _ _ _ H) as [Hle Hb].
      assert (E' : starts_with pat ((c :: s) ++ t) = false)
        by (apply starts_with_app_false; [exact E | simpl; lia]).
      rewrite <- app_comm_cons in E'. rewrite E'.
      apply IH. exact H.
Qed.

Lemma find_app_Some (equation rest : list ascii) (pat : string) (p : nat) :
  find equation pat = Some p -> find (equation ++ rest) pat = Some p.
Proof. apply find_from_app_Some. Qed.

Lemma find_comma_None (equation : list ascii) :
  find equation "," = None <-> ~ In ","%char equation.
Proof.
  rewrite find_None. split.
  - intros H Hin. apply in_split in Hin as (pre & post & ->).
    exact (H pre post eq_refl).
  - intros H pre post ->. apply H. apply in_or_app. right. left. reflexivity.
Qed.

Lemma find_from_arrow_app (s rest : list ascii) :
  forall pos,
    find_from ["-"; ">"]%char s pos = None ->
    find_from ["-"; ">"]%char (s ++ "-"%char :: ">"%char :: rest) pos =
    Some (pos + length s).
Proof.
  induction s as [|c s IH]; intros pos H.
  - simpl. rewrite Nat.add_0_r. reflexivity.
  - cbn [find_from] in H.
    destruct (starts_with ["-"; ">"]%char (c :: s)) eqn:E; [discriminate|].
    cbn [app find_from].
    assert (E' : starts_with ["-"; ">"]%char
                   (c :: s ++ "-"%char :: ">"%char :: rest) = false).
    { cbn [starts_with] in E |- *.
      destruct (Ascii.eqb "-" c); [|reflexivity]. cbn [andb] in E |- *.
      destruct s as [|d s]; cbn [app starts_with] in E |- *;
        [reflexivity | exact E]. }
    rewrite E'. rewrite (IH (S pos) H). f_equal. simpl. lia.
Qed.

Lemma find_arrow_app (equation rest : list ascii) :
  find equation "->" = None ->
  find (equation ++ "-"%char :: ">"%char :: rest) "->" = Some (length equation).
Proof. intros H. apply (find_from_arrow_app equation rest 0 H). Qed.

Lemma remove_spaces_In (segment : list ascii) (c : ascii) :
  In c (remove_spaces segment) <-> In c segment /\ c <> " "%char.
Proof.
  unfold remove_spaces. rewrite List.filter_In, negb_true_iff.
  split; intros [H1 H2]; (split; [exact H1|]).
  - intros ->. rewrite Ascii.eqb_refl in H2. discriminate.
  - destruct (Ascii.eqb_spec c " "); [contradiction | reflexivity].
Qed.

Lemma remove_spaces_id (modes : list ascii) :
  ~ In " "%char modes -> remove_spaces modes = modes.
Proof.
  unfold remove_spaces. induction modes as [|c modes IH]; intros H; simpl;
    [reflexivity|].
  destruct (Ascii.eqb_spec c " ") as [->|_]; simpl.
  - exfalso. apply H. left. reflexivity.
  - f_equal. apply IH. intros Hin. apply H. right. exact Hin.
Qed.

Lemma substr_In (equation : list ascii) (first last : nat) (c : ascii) :
  In c (substr equation first last) -> In c equation.
Proof.
  unfold substr. intros H.
  apply list_elem_of_In. apply list_elem_of_In in H.
  apply (subseteq_drop first equation).
  apply (subseteq_take (last - first) (drop first equation)). exact H.
Qed.

(** The segments of an equation with implicit output, once the output
    [modes] is written after it. *)
Lemma explicit_form_segments (equation modes : list ascii) :
  find equation "->" = None ->
  (find equation "," = None -> ~ In ","%char modes) ->
  let explicit := equation ++ "-"%char :: ">"%char :: modes in
  find explicit "->" = Some (length equation) /\
  usesB explicit = usesB equation /\
  segmentA explicit = segmentA equation /\
  segmentB explicit = segmentB equation /\
  segmentC explicit = modes.
Proof.
  intros Harrow Hcomma explicit.
  pose proof (find_arrow_app equation modes Harrow) as Ha. fold explicit in Ha.
  assert (Hc : find explicit "," = find equation ",").
  { destruct (find equation ",") as [q|] eqn:E.
    - apply find_app_Some. exact E.
    - apply find_comma_None. unfold explicit. intros Hin.
      apply in_app_or in Hin as [Hin|Hin].
      + apply find_comma_None in E. contradiction.
      + destruct Hin as [Hin|[Hin|Hin]]; try discriminate Hin.
        exact (Hcomma eq_refl Hin). }
  assert (Hlen : length explicit = length equation + 2 + length modes)
    by (unfold explicit; rewrite length_app; simpl; lia).
  unfold segmentA, segmentB, segmentC, substr, a_start, a_end, b_start, b_end,
    c_start, c_end, usesB, isImplicit.
  rewrite Ha, Hc, Harrow. simpl.
  split; [reflexivity|]. split; [reflexivity|].
  destruct (find equation ",") as [q|] eqn:E; simpl.
  - pose proof (find_bound _ _ _ E) as Hq. simpl in Hq.
    rewrite !Nat.sub_0_r, !drop_0. unfold explicit.
    split; [rewrite take_app_le by lia; reflexivity|].
    split.
    + rewrite drop_app_le by lia.
      rewrite take_app_length' by (rewrite length_drop; lia).
      rewrite take_ge by (rewrite length_drop; lia). reflexivity.
    + rewrite drop_app_ge by lia.
      replace (length equation + 2 - length equation) with 2 by lia. simpl.
      apply take_ge. fold explicit. lia.
  - rewrite !Nat.sub_0_r, !drop_0. unfold explicit.
    split; [rewrite take_app_length, take_ge by lia; reflexivity|].
    split; [reflexivity|].
    rewrite drop_app_ge by lia.
    replace (length equation + 2 - length equation) with 2 by lia. simpl.
    apply take_ge. fold explicit. lia.
Qed.

(** ** The sorted output does not depend on the order of its modes *)

Lemma char_less_spec (a b : ascii) :
  reflect (char_value a < char_value b)%Z (char_less a b).
Proof. unfold char_less. apply Z.ltb_spec0. Qed.

Lemma sort_insert_comm (a b : ascii) (l : list ascii) :
  sort_insert a (sort_insert b l) = sort_insert b (sort_insert a l).
Proof.
  assert (Hsame : (char_value a <= char_value b)%Z ->
                  (char_value b <= char_value a)%Z -> a = b)
    by (intros; apply char_value_inj; lia).
  induction l as [|x l IH]; simpl.
  - destruct (char_less_spec a b), (char_less_spec b a);
      try reflexivity; try lia.
    rewrite (Hsame ltac:(lia) ltac:(lia)). reflexivity.
  - destruct (char_less_spec b x), (char_less_spec a x); simpl;
      repeat match goal with
             | |- context [char_less ?u ?v] => destruct (char_less_spec u v)
             end;
      try reflexivity; try lia.
    + rewrite (Hsame ltac:(lia) ltac:(lia)). reflexivity.
    + rewrite IH. reflexivity.
Qed.

Lemma std_sort_Permutation (l1 l2 : list ascii) :
  Permutation l1 l2 -> std_sort l1 = std_sort l2.
Proof.
  induction 1 as [|x l1 l2 _ IH|x y l|l1 l2 l3 _ IH1 _ IH2]; simpl.
  - reflexivity.
  - rewrite IH. reflexivity.
  - apply sort_insert_comm.
  - rewrite IH1. exact IH2.
Qed.

Lemma find_from_comma_app (a b : list ascii) :
  forall pos,
    ~ In ","%char a ->
    find_from [","%char] (a ++ ","%char :: b) pos = Some (pos + length a).
Proof.
  induction a as [|c a IH]; intros pos H.
  - simpl. rewrite Nat.add_0_r. reflexivity.
  - cbn [app find_from starts_with length].
    destruct (Ascii.eqb_spec "," c) as [<-|_]; cbn [andb].
    + exfalso. apply H. left. reflexivity.
    + rewrite IH by (intros Hin; apply H; right; exact Hin).
      f_equal. lia.
Qed.

Lemma find_comma_app (a b : list ascii) :
  ~ In ","%char a -> find (a ++ ","%char :: b) "," = Some (length a).
Proof. intros H. apply (find_from_comma_app a b 0 H). Qed.

Lemma operand_pair_segments (a b : list ascii) :
  ~ In ","%char a ->
  find (a ++ ","%char :: b) "->" = None ->
  segmentA (a ++ ","%char :: b) = a /\ segmentB (a ++ ","%char :: b) = b.
Proof.
  intros Ha Harrow.
  unfold segmentA, segmentB, substr, a_start, a_end, b_start, b_end, usesB,
    isImplicit.
  rewrite (find_comma_app a b Ha), Harrow. simpl.
  rewrite Nat.sub_0_r, drop_0, take_app_length.
  split; [reflexivity|].
  rewrite drop_app_ge by lia.
  replace (length a + 1 - length a) with 1 by lia. simpl.
  apply take_ge. rewrite length_app. simpl. lia.
Qed.

Lemma output_extent_swap (modeA modeB : list ascii) (A_shape B_shape : list Z)
    (m : ascii) :
  ~ In m modeA \/ ~ In m modeB ->
  output_extent modeA A_shape modeB B_shape m =
  output_extent modeB B_shape modeA A_shape m.
Proof.
  unfold output_extent. intros [H|H]; rewrite (extent_of_not_In _ _ _ H).
  - destruct (extent_of m modeB B_shape); reflexivity.
  - destruct (extent_of m modeA A_shape); reflexivity.
Qed.

(** ** The checks and the strides *)

(** A construction that throws nothing has passed every check. *)
Lemma Einsum_ctor_not_thrown (equation : string)
    (A_shape A_strides B_shape B_strides : list Z) :
  let eq := list_ascii_of_string equation in
  let modeA := remove_spaces (segmentA eq) in
  let modeB := remove_spaces (segmentB eq) in
  (forall ex,
      Einsum_ctor equation A_shape A_strides B_shape B_strides <> Throw ex) ->
  find eq "..." = None /\
  length modeA = u32 (length A_shape) /\
  length modeB = (if usesB eq then u32 (length B_shape) else 0) /\
  length modeA <= kMaxNumModes_ /\
  length modeB <= kMaxNumModes_ /\
  (isImplicit eq = true ->
   length (implicit_modes modeA modeB) <= kMaxNumModes_).
Proof.
  intros eq modeA modeB. rewrite Einsum_ctor_summary. unfold ctor_summary.
  fold eq. intros H.
  destruct (find eq "...") eqn:Edots; simpl in H;
    [exfalso; eapply H; reflexivity|].
  destruct (Nat.eqb_spec (length (operand_modes (segmentA eq)))
              (u32 (length A_shape))) as [HA|]; simpl in H;
    [|exfalso; eapply H; reflexivity].
  destruct (Nat.eqb_spec (length (operand_modes (segmentB eq)))
              (if usesB eq then u32 (length B_shape) else 0)) as [HB|];
    simpl in H; [|exfalso; eapply H; reflexivity].
  rewrite <- HA, <- HB in *.
  destruct (Nat.ltb_spec kMaxNumModes_ (length (operand_modes (segmentA eq))))
    as [|HKA]; [exfalso; eapply H; reflexivity|].
  destruct (Nat.ltb_spec kMaxNumModes_ (length (operand_modes (segmentB eq))))
    as [|HKB]; [exfalso; eapply H; reflexivity|].
  assert (HKA' : length (remove_spaces (segmentA eq)) <= kMaxNumModes_)
    by (rewrite <- (operand_modes_short _ HKA); exact HKA).
  assert (HKB' : length (remove_spaces (segmentB eq)) <= kMaxNumModes_)
    by (rewrite <- (operand_modes_short _ HKB); exact HKB).
  rewrite (operand_modes_short _ HKA), (operand_modes_short _ HKB) in H |- *.
  subst modeA modeB.
  repeat (split; [assumption || reflexivity|]).
  intros Himp. rewrite Himp in H. simpl in H.
  rewrite std_sort_length in H.
  match type of H with
  | context [kMaxNumModes_ <? ?n] => destruct (Nat.ltb_spec kMaxNumModes_ n)
  end; [exfalso; eapply H; reflexivity | assumption].
Qed.

(** An exception of the constructor does not depend on the strides. *)
Lemma Einsum_ctor_throw_strides (equation : string)
    (A_shape A_strides B_shape B_strides A_strides' B_strides' : list Z)
    (ex : exception) :
  Einsum_ctor equation A_shape A_strides B_shape B_strides = Throw ex ->
  Einsum_ctor equation A_shape A_strides' B_shape B_strides' = Throw ex.
Proof.
  rewrite !Einsum_ctor_summary. unfold ctor_summary. intros H.
  repeat match type of H with
         | (if ?b then _ else _) = _ => destruct b
         end;
    try discriminate H; exact H.
Qed.

Lemma Einsum_ctor_no_comma (equation : string)
    (A_shape A_strides B_shape B_strides B_shape' B_strides' : list Z) :
  usesB (list_ascii_of_string equation) = false ->
  Einsum_ctor equation A_shape A_strides B_shape' B_strides' =
  Einsum_ctor equation A_shape A_strides B_shape B_strides.
Proof.
  intros HB. rewrite !Einsum_ctor_summary. unfold ctor_summary.
  rewrite HB. reflexivity.
Qed.

(** * The claims *)

(** C1, at the inputs on which the code departs from the claim. With
    explicit output the constructor does not check that an output mode
    occurs in an operand, and it has no error for one that does not: when
    the checks it does make pass (no "...", the mode count of each operand
    equal to the length of its shape and at most [kMaxNumModes_], strides as
    long as the shapes, at most [kMaxNumModes_] output modes), construction
    completes and the output modes are the ones written after "->". The
    loop of lines 226-248 gives an output mode found in A or B the extent
    found there and writes nothing for a mode found in neither: the cell of
    [extentC_] of such a mode is never written, and [getOutputShape] then
    reads a cell that holds no value. *)
Theorem unresolved_output_mode_unassigned (equation : string)
    (A_shape A_strides B_shape B_strides : list Z) (arrow_pos : nat) :
  let eq := list_ascii_of_string equation in
  let modeA := remove_spaces (segmentA eq) in
  let modeB := remove_spaces (segmentB eq) in
  let modeC := remove_spaces (segmentC eq) in
  (Z.of_nat kMaxNumModes_ < 2 ^ 31)%Z ->
  find eq "..." = None ->
  find eq "->" = Some arrow_pos ->
  length modeA = length A_shape ->
  (usesB eq = true -> length modeB = length B_shape) ->
  length modeA <= kMaxNumModes_ -> length modeB <= kMaxNumModes_ ->
  length modeC <= kMaxNumModes_ ->
  length A_shape <= length A_strides ->
  (usesB eq = true -> length B_shape <= length B_strides) ->
  exists e,
    Einsum_ctor equation A_shape A_strides B_shape B_strides = Done e /\
    modesC e = Done modeC /\
    (forall i m,
        modeC !! i = Some m ->
        extentC_ e !! i =
          Some (output_extent modeA A_shape modeB B_shape m)) /\
    forall i m,
      modeC !! i = Some m -> ~ In m modeA -> ~ In m modeB ->
      extentC_ e !! i = Some None /\
      exists j,
        j <= i /\
        getOutputShape e = Undefined (Indeterminate "extentC_" j).
Proof.
  intros eq modeA modeB modeC Hint Hdots Harrow HA HB HKA HKB HKC HsA HsB.
  pose proof (Einsum_ctor_checked equation A_shape A_strides B_shape B_strides
                Hint Hdots HA HB HKA HKB) as Hctor.
  fold eq modeA modeB in Hctor.
  unfold isImplicit in Hctor. rewrite Harrow in Hctor. simpl in Hctor.
  rewrite (operand_modes_eq _ HKC) in Hctor. fold modeC in Hctor.
  destruct (Nat.ltb_spec (length A_strides) (length A_shape)); [lia|].
  destruct (Nat.ltb_spec (length B_strides)
              (if usesB eq then length B_shape else 0)) as [Hlt|_].
  { destruct (usesB eq); [specialize (HsB eq_refl)|]; lia. }
  destruct (Nat.ltb_spec kMaxNumModes_ (length modeC)); [lia|].
  eexists. split; [exact Hctor|].
  pose proof (modes_accessors _ _ _ _ _ _ Hctor) as Hacc.
  fold eq modeA modeB in Hacc. unfold isImplicit in Hacc.
  rewrite Harrow in Hacc. simpl in Hacc. fold modeC in Hacc.
  destruct Hacc as (_ & _ & HC & _ & _).
  split; [exact HC|].
  assert (Hcell : forall i m,
             modeC !! i = Some m ->
             output_cells modeA A_shape modeB
               (take (if usesB eq then length B_shape else 0) B_shape) modeC !! i =
             Some (output_extent modeA A_shape modeB B_shape m)).
  { intros i m Hm. rewrite (output_cells_lookup _ _ _ _ _ _ _ Hm).
    f_equal. unfold output_extent.
    destruct (extent_of m modeA A_shape); [reflexivity|].
    destruct (usesB eq) eqn:EB.
    - rewrite <- (HB eq_refl). apply extent_of_take.
    - assert (HmB : modeB = [])
        by (unfold modeB; rewrite (segmentB_unused _ EB); reflexivity).
      rewrite HmB. reflexivity. }
  split; [exact Hcell|].
  intros i m Hm HnA HnB. split.
  - simpl. rewrite (Hcell i m Hm).
    rewrite output_extent_unresolved by assumption. reflexivity.
  - pose proof (getOutputShape_constructed _ _ _ _ _ _ Hctor) as Hs.
    cbv zeta in Hs. fold eq modeA modeB in Hs. unfold isImplicit in Hs.
    rewrite Harrow in Hs. simpl in Hs. fold modeC in Hs.
    exact (proj2 Hs i m Hm HnA HnB).
Qed.

(** C2. For an equation with implicit output (no "->") whose construction
    completes, the output modes are the modes of A that occur nowhere in B
    followed by the modes of B that occur nowhere in A, sorted by ascending
    character: the result is sorted, it is a rearrangement of that list, a
    symbol is in it exactly when it occurs in one operand only, and a mode
    of both operands never appears in it. *)
Theorem implicit_output_modes (equation : string)
    (A_shape A_strides B_shape B_strides : list Z) (e : Einsum) :
  Einsum_ctor equation A_shape A_strides B_shape B_strides = Done e ->
  find (list_ascii_of_string equation) "->" = None ->
  let modeA := remove_spaces (segmentA (list_ascii_of_string equation)) in
  let modeB := remove_spaces (segmentB (list_ascii_of_string equation)) in
  let combined := non_contracted modeA modeB ++ non_contracted modeB modeA in
  modesA e = Done modeA /\
  modesB e = Done modeB /\
  modesC e = Done (std_sort combined) /\
  Sorted char_le (std_sort combined) /\
  Permutation (std_sort combined) combined /\
  (forall m, In m (std_sort combined) <->
             (In m modeA /\ ~ In m modeB) \/ (In m modeB /\ ~ In m modeA)) /\
  (forall m, In m modeA -> In m modeB -> ~ In m (std_sort combined)).
Proof.
  intros H Himp modeA modeB combined.
  apply modes_accessors in H. unfold isImplicit in H. rewrite Himp in H.
  simpl in H. destruct H as (HA & HB & HC & _ & _).
  assert (Hin : forall m, In m (std_sort combined) <->
                          (In m modeA /\ ~ In m modeB) \/
                          (In m modeB /\ ~ In m modeA)).
  { intros m. rewrite std_sort_In. unfold combined.
    rewrite in_app_iff, !non_contracted_In. reflexivity. }
  repeat split; try assumption.
  - apply std_sort_sorted.
  - apply std_sort_perm.
  - apply Hin.
  - apply Hin.
  - intros m HmA HmB Hm. apply Hin in Hm as [[_ Hn]|[_ Hn]]; contradiction.
Qed.

(** C3, as amended. When the checks made before the copy loops pass (no
    "...", the mode count of each operand equal to the length of its shape
    and at most [kMaxNumModes_], and with implicit output at most
    [kMaxNumModes_] output modes), the constructor reads [A_strides] at
    every index below the length of [A_shape] and, when the equation has a
    comma, [B_strides] at every index below the length of [B_shape]: a
    strides vector shorter than its shape makes it index that vector at
    its length, past the end; strides at least as long as the shapes are
    never indexed out of bounds and are copied into the members. A call
    that does not pass those checks throws, and what it throws does not
    depend on the strides: no stride is read before the checks. Without a
    comma [B_strides] is not read at all. *)
Theorem strides_read_bounds (equation : string)
    (A_shape A_strides B_shape B_strides : list Z) :
  let eq := list_ascii_of_string equation in
  let modeA := remove_spaces (segmentA eq) in
  let modeB := remove_spaces (segmentB eq) in
  let ctor := Einsum_ctor equation A_shape A_strides B_shape B_strides in
  ((Z.of_nat kMaxNumModes_ < 2 ^ 31)%Z ->
   find eq "..." = None ->
   length modeA = length A_shape ->
   (usesB eq = true -> length modeB = length B_shape) ->
   length modeA <= kMaxNumModes_ -> length modeB <= kMaxNumModes_ ->
   (isImplicit eq = true ->
    length (implicit_modes modeA modeB) <= kMaxNumModes_) ->
   (length A_strides < length A_shape ->
    ctor = Undefined (OutOfBounds "A_strides" (length A_strides))) /\
   (length A_shape <= length A_strides -> usesB eq = true ->
    length B_strides < length B_shape ->
    ctor = Undefined (OutOfBounds "B_strides" (length B_strides))) /\
   (length A_shape <= length A_strides ->
    (usesB eq = true -> length B_shape <= length B_strides) ->
    forall i, ctor <> Undefined (OutOfBounds "A_strides" i) /\
              ctor <> Undefined (OutOfBounds "B_strides" i)) /\
   (usesB eq = false ->
    forall i, ctor <> Undefined (OutOfBounds "B_strides" i)) /\
   (forall e, ctor = Done e ->
      length A_shape <= length A_strides /\
      stridesA_ e = filled (take (length A_shape) A_strides) /\
      (usesB eq = true ->
       length B_shape <= length B_strides /\
       stridesB_ e = filled (take (length B_shape) B_strides)))) /\
  ((forall ex, ctor <> Throw ex) ->
   find eq "..." = None /\
   length modeA = u32 (length A_shape) /\
   length modeB = (if usesB eq then u32 (length B_shape) else 0) /\
   length modeA <= kMaxNumModes_ /\
   length modeB <= kMaxNumModes_ /\
   (isImplicit eq = true ->
    length (implicit_modes modeA modeB) <= kMaxNumModes_)) /\
  (forall ex,
      ctor = Throw ex ->
      forall A_strides' B_strides',
        Einsum_ctor equation A_shape A_strides' B_shape B_strides' = Throw ex) /\
  (usesB eq = false ->
   forall B_strides',
     Einsum_ctor equation A_shape A_strides B_shape B_strides' = ctor).
Proof.
  intros eq modeA modeB ctor.
  split; [|split; [|split]].
  2:{ apply Einsum_ctor_not_thrown. }
  2:{ intros ex H A_strides' B_strides'.
      exact (Einsum_ctor_throw_strides _ _ _ _ _ _ _ _ H). }
  2:{ intros HB B_strides'. apply Einsum_ctor_no_comma. exact HB. }
  intros Hint Hdots HA HB HKA HKB Himp.
  pose proof (Einsum_ctor_checked equation A_shape A_strides B_shape B_strides
                Hint Hdots HA HB HKA HKB) as Hctor.
  fold eq modeA modeB ctor in Hctor.
  assert (Hover : isImplicit eq &&
                  (kMaxNumModes_ <?
                   length (if isImplicit eq
                           then std_sort (implicit_modes modeA modeB)
                           else operand_modes (segmentC eq))) = false).
  { destruct (isImplicit eq); [|reflexivity]. simpl.
    rewrite std_sort_length. apply Nat.ltb_ge. auto. }
  rewrite Hover in Hctor. clear Hover.
  destruct (Nat.ltb_spec (length A_strides) (length A_shape)) as [HltA|HgeA];
    [settle_outcome Hctor|].
  destruct (usesB eq) eqn:EB; simpl in Hctor.
  - destruct (Nat.ltb_spec (length B_strides) (length B_shape)) as [HltB|HgeB];
      [settle_outcome Hctor|].
    destruct (kMaxNumModes_ <? _) in Hctor; settle_outcome Hctor.
  - destruct (kMaxNumModes_ <? _) in Hctor; settle_outcome Hctor.
Qed.

(** C5, as amended. For an equation with explicit output whose construction
    completes, the output modes are the characters after the first "->"
    other than the space character (no other character is removed, a tab or
    a line feed is an output mode), in the order in which they are written,
    and their number is the output mode count. *)
Theorem explicit_output_modes (equation : string)
    (A_shape A_strides B_shape B_strides : list Z) (e : Einsum) (arrow_pos : nat) :
  Einsum_ctor equation A_shape A_strides B_shape B_strides = Done e ->
  find (list_ascii_of_string equation) "->" = Some arrow_pos ->
  let raw := remove_spaces (drop (arrow_pos + 2) (list_ascii_of_string equation)) in
  modesC e = Done raw /\ numModesC_ e = length raw /\
  forall c,
    In c raw <->
    In c (drop (arrow_pos + 2) (list_ascii_of_string equation)) /\
    c <> " "%char.
Proof.
  intros H Harrow raw.
  apply modes_accessors in H. unfold isImplicit in H. rewrite Harrow in H.
  simpl in H. destruct H as (_ & _ & HC & Hn & _).
  assert (Hseg : segmentC (list_ascii_of_string equation) =
                 drop (arrow_pos + 2) (list_ascii_of_string equation)).
  { unfold segmentC, c_start, c_end, isImplicit, substr. rewrite Harrow. simpl.
    apply take_ge. rewrite length_drop. lia. }
  rewrite Hseg in HC, Hn. split; [assumption|]. split; [assumption|].
  intros c. apply remove_spaces_In.
Qed.

(** C6, as amended. For an equation without "...": when the number of
    characters extracted for the first operand differs from the length of
    [A_shape] the constructor throws the mismatch error of the first
    operand; when that number agrees, the equation has a comma and the
    number extracted for the second operand differs from the length of
    [B_shape], it throws the mismatch error of the second operand; and it
    throws neither error when the counts agree. ([B_shape] is compared
    only when the equation has a comma; the shapes have fewer than 2^32
    dimensions.) *)
Theorem mode_count_mismatch_rejected (equation : string)
    (A_shape A_strides B_shape B_strides : list Z) (modeA modeB : list ascii) :
  let eq := list_ascii_of_string equation in
  let numModesA := length modeA in
  let numModesB := length modeB in
  let ctor := Einsum_ctor equation A_shape A_strides B_shape B_strides in
  extract_modeA eq = Done modeA -> extract_modeB eq = Done modeB ->
  find eq "..." = None ->
  (Z.of_nat (length A_shape) < 2 ^ 32)%Z ->
  (Z.of_nat (length B_shape) < 2 ^ 32)%Z ->
  (numModesA <> length A_shape ->
   ctor = Throw (runtime_error
                   "modes substring for first operand and shape don't match.")) /\
  (numModesA = length A_shape -> usesB eq = true ->
   numModesB <> length B_shape ->
   ctor = Throw (runtime_error
                   "modes substring for second operand and shape don't match.")) /\
  (numModesA = length A_shape ->
   (usesB eq = true -> numModesB = length B_shape) ->
   ctor <> Throw (runtime_error
                    "modes substring for first operand and shape don't match.") /\
   ctor <> Throw (runtime_error
                    "modes substring for second operand and shape don't match.")).
Proof.
  intros eq numModesA numModesB ctor HeA HeB Hdots HuA HuB.
  unfold numModesA, numModesB in *. clear numModesA numModesB.
  destruct (extraction_spec eq) as (HeA' & HeB' & _).
  rewrite HeA' in HeA. rewrite HeB' in HeB.
  injection HeA as HeA. injection HeB as HeB.
  assert (Hctor : ctor = ctor_summary equation A_shape A_strides B_shape B_strides)
    by apply Einsum_ctor_summary.
  unfold ctor_summary in Hctor. fold eq in Hctor.
  rewrite Hdots in Hctor. simpl in Hctor.
  rewrite HeA, HeB in Hctor.
  rewrite (u32_small _ HuA) in Hctor.
  destruct (Nat.eqb_spec (length modeA) (length A_shape)) as [HA|HA];
    simpl in Hctor; [|settle_outcome Hctor].
  assert (HnB : usesB eq = false -> length modeB = 0).
  { intros E. rewrite <- HeB, (segmentB_unused _ E).
    unfold operand_modes. simpl. rewrite take_nil. reflexivity. }
  destruct (usesB eq) eqn:EB.
  - rewrite (u32_small _ HuB) in Hctor.
    destruct (Nat.eqb_spec (length modeB) (length B_shape)) as [HB|HB];
      simpl in Hctor; [|settle_outcome Hctor].
    repeat match type of Hctor with
           | _ = (if ?b then _ else _) => destruct b
           end; settle_outcome Hctor.
  - rewrite (HnB eq_refl) in Hctor. simpl in Hctor.
    repeat match type of Hctor with
           | _ = (if ?b then _ else _) => destruct b
           end; settle_outcome Hctor.
Qed.

(** C7. An equation that contains the substring "..." is rejected, whatever
    the shapes and strides: the constructor throws the TORCH_CHECK error
    for broadcast notation, the first check it makes. *)
Theorem broadcast_rejected (equation : string)
    (A_shape A_strides B_shape B_strides : list Z) :
  (exists pre post : string, equation = pre +:+ "..." +:+ post) ->
  Einsum_ctor equation A_shape A_strides B_shape B_strides =
  Throw (c10_Error "Broadcast einsum with ... is not supported.").
Proof.
  intros (pre & post & ->).
  rewrite Einsum_ctor_summary. unfold ctor_summary.
  assert (H : is_npos (find (list_ascii_of_string (pre +:+ "..." +:+ post)) "...")
              = false).
  { apply find_contains.
    exists (list_ascii_of_string pre), (list_ascii_of_string post).
    rewrite !list_ascii_of_string_app. reflexivity. }
  rewrite H. reflexivity.
Qed.

(** C8, as amended. The extraction loops skip the space character and no
    other: the modes extracted from each of the three segments are its
    characters other than spaces, every other character being kept, in
    their order and up to the capacity of the buffer. Inserting a space at
    any position of an equation without "...", except between the two
    characters of its first "->", changes neither the extracted modes nor
    the result of construction. *)
Theorem spaces_ignored (equation : string) (k : nat)
    (A_shape A_strides B_shape B_strides : list Z) :
  let eq := list_ascii_of_string equation in
  let eq' := list_ascii_of_string (insert_space k equation) in
  find eq "..." = None ->
  (forall p, find eq "->" = Some p -> k <> p + 1) ->
  (forall segment c,
      In c (remove_spaces segment) <-> In c segment /\ c <> " "%char) /\
  extract_modeA eq =
    Done (take (kMaxNumModes_ + 2) (remove_spaces (segmentA eq))) /\
  extract_modeB eq =
    Done (take (kMaxNumModes_ + 2) (remove_spaces (segmentB eq))) /\
  extract_modeC eq =
    Done (take (kMaxNumModes_ + 2) (remove_spaces (segmentC eq))) /\
  extract_modeA eq' = extract_modeA eq /\
  extract_modeB eq' = extract_modeB eq /\
  extract_modeC eq' = extract_modeC eq /\
  Einsum_ctor (insert_space k equation) A_shape A_strides B_shape B_strides =
  Einsum_ctor equation A_shape A_strides B_shape B_strides.
Proof.
  intros eq eq' Hdots Harrow.
  assert (Hseg := with_space_segments eq (k `min` length eq)).
  destruct Hseg as (Hd & HB & Himp & HsA & HsB & HsC).
  - lia.
  - exact Hdots.
  - intros p Hp. specialize (Harrow p Hp). apply find_bound in Hp.
    simpl in Hp. lia.
  - unfold eq' in *. rewrite insert_space_list. fold eq.
    pose proof (same_segments_same_result (insert_space k equation) equation
                  A_shape A_strides B_shape B_strides) as H.
    cbv zeta in H. rewrite insert_space_list in H. fold eq in H.
    specialize (H Hd Hdots HB Himp HsA HsB HsC).
    destruct H as (HA' & HB' & HC' & Hctor).
    split; [intros segment c; apply remove_spaces_In|].
    split; [apply extraction_spec|].
    split; [apply extraction_spec|].
    split; [apply extraction_spec|]. auto.
Qed.


(** C10, at the inputs on which the code departs from the claim. The count
    of output modes is compared with [kMaxNumModes_] for implicit output
    only (inside [copyModesIf]). With explicit output, when every check the
    constructor makes passes and more than [kMaxNumModes_] modes are
    written after "->", nothing is thrown: [numModesC_] is set to that
    number and the loop of lines 226-248 writes [modesC_] at index
    [kMaxNumModes_], past its end. *)
Theorem explicit_output_overflow (equation : string)
    (A_shape A_strides B_shape B_strides : list Z) (arrow_pos : nat) :
  let eq := list_ascii_of_string equation in
  let modeA := remove_spaces (segmentA eq) in
  let modeB := remove_spaces (segmentB eq) in
  let modeC := remove_spaces (segmentC eq) in
  (Z.of_nat kMaxNumModes_ < 2 ^ 31)%Z ->
  find eq "..." = None ->
  find eq "->" = Some arrow_pos ->
  length modeA = length A_shape ->
  (usesB eq = true -> length modeB = length B_shape) ->
  length modeA <= kMaxNumModes_ -> length modeB <= kMaxNumModes_ ->
  length A_shape <= length A_strides ->
  (usesB eq = true -> length B_shape <= length B_strides) ->
  kMaxNumModes_ < length modeC ->
  Einsum_ctor equation A_shape A_strides B_shape B_strides =
  Undefined (OutOfBounds "modesC_" kMaxNumModes_).
Proof.
  intros eq modeA modeB modeC Hint Hdots Harrow HA HB HKA HKB HsA HsB HKC.
  rewrite Einsum_ctor_checked by assumption. fold eq modeA modeB.
  unfold isImplicit. rewrite Harrow. simpl.
  destruct (Nat.ltb_spec (length A_strides) (length A_shape)); [lia|].
  destruct (Nat.ltb_spec (length B_strides)
              (if usesB eq then length B_shape else 0)) as [Hlt|_].
  { destruct (usesB eq); [specialize (HsB eq_refl)|]; lia. }
  unfold operand_modes. fold modeC. rewrite length_take.
  destruct (Nat.ltb_spec kMaxNumModes_ ((kMaxNumModes_ + 2) `min` length modeC));
    [reflexivity | lia].
Qed.

(** * Further properties *)

(** The extraction loops never index the equation past its end and never
    write past their buffers of [kMaxNumModes_ + 2] cells: each returns the
    characters of its segment other than spaces, as many as the buffer
    holds. *)
Theorem extraction_never_throws (equation : list ascii) :
  exists modeA modeB modeC,
    extract_modeA equation = Done modeA /\
    extract_modeB equation = Done modeB /\
    extract_modeC equation = Done modeC /\
    modeA = take (kMaxNumModes_ + 2) (remove_spaces (segmentA equation)) /\
    modeB = take (kMaxNumModes_ + 2) (remove_spaces (segmentB equation)) /\
    modeC = take (kMaxNumModes_ + 2) (remove_spaces (segmentC equation)) /\
    length modeA <= kMaxNumModes_ + 2 /\
    length modeB <= kMaxNumModes_ + 2 /\
    length modeC <= kMaxNumModes_ + 2.
Proof.
  destruct (extraction_spec equation) as (HA & HB & HC).
  do 3 eexists. split; [exact HA|]. split; [exact HB|]. split; [exact HC|].
  unfold operand_modes. repeat split; rewrite length_take; lia.
Qed.

(** With implicit output, when the non-contracted modes are more than
    [kMaxNumModes_] construction never completes: it throws, and once the
    earlier checks have passed what it throws is the error for too many
    modes in the output tensor. An object whose construction completes
    within defined behaviour has at most [kMaxNumModes_] output modes. *)
Theorem output_mode_count_bounded (equation : string)
    (A_shape A_strides B_shape B_strides : list Z) :
  let eq := list_ascii_of_string equation in
  let modeA := remove_spaces (segmentA eq) in
  let modeB := remove_spaces (segmentB eq) in
  (find eq "->" = None ->
   kMaxNumModes_ <
     length (non_contracted modeA modeB ++ non_contracted modeB modeA) ->
   (exists ex,
       Einsum_ctor equation A_shape A_strides B_shape B_strides = Throw ex) /\
   ((Z.of_nat kMaxNumModes_ < 2 ^ 31)%Z ->
    find eq "..." = None ->
    length modeA = length A_shape ->
    (usesB eq = true -> length modeB = length B_shape) ->
    length modeA <= kMaxNumModes_ -> length modeB <= kMaxNumModes_ ->
    Einsum_ctor equation A_shape A_strides B_shape B_strides =
    Throw (runtime_error "too many modes in output tensor."))) /\
  (forall e,
      Einsum_ctor equation A_shape A_strides B_shape B_strides = Done e ->
      numModesC_ e <= kMaxNumModes_).
Proof.
  intros eq modeA modeB. split.
  - intros Himp Hover.
    assert (Hchecked :
      (Z.of_nat kMaxNumModes_ < 2 ^ 31)%Z ->
      find eq "..." = None ->
      length modeA = length A_shape ->
      (usesB eq = true -> length modeB = length B_shape) ->
      length modeA <= kMaxNumModes_ -> length modeB <= kMaxNumModes_ ->
      Einsum_ctor equation A_shape A_strides B_shape B_strides =
      Throw (runtime_error "too many modes in output tensor.")).
    { intros Hint Hdots HA HB HKA HKB.
      rewrite Einsum_ctor_checked by assumption. fold eq modeA modeB.
      unfold isImplicit. rewrite Himp. simpl.
      rewrite std_sort_length. unfold implicit_modes.
      destruct (Nat.ltb_spec kMaxNumModes_
                  (length (non_contracted modeA modeB ++
                           non_contracted modeB modeA))); [reflexivity | lia]. }
    split; [|exact Hchecked].
    destruct (Einsum_ctor equation A_shape A_strides B_shape B_strides)
      as [e|ex|f] eqn:E.
    + exfalso. apply Einsum_ctor_Done in E.
      destruct E as (_ & _ & _ & _ & _ & HKC & _).
      fold eq in HKC. unfold isImplicit in HKC. rewrite Himp in HKC.
      simpl in HKC. rewrite std_sort_length in HKC. unfold implicit_modes in HKC.
      fold modeA modeB in HKC. lia.
    + eauto.
    + exfalso. rewrite Einsum_ctor_summary in E. unfold ctor_summary in E.
      fold eq in E. unfold isImplicit in E. rewrite Himp in E. simpl in E.
      destruct (negb (is_npos (find eq "..."))); [discriminate|].
      destruct (Nat.eqb_spec (length (operand_modes (segmentA eq)))
                  (u32 (length A_shape))) as [HA|]; [|discriminate].
      destruct (Nat.eqb_spec (length (operand_modes (segmentB eq)))
                  (if usesB eq then u32 (length B_shape) else 0)) as [HB|];
        [|discriminate].
      simpl in E. rewrite <- HA, <- HB in E.
      destruct (Nat.ltb_spec kMaxNumModes_ (length (operand_modes (segmentA eq))))
        as [|HKA]; [discriminate|].
      destruct (Nat.ltb_spec kMaxNumModes_ (length (operand_modes (segmentB eq))))
        as [|HKB]; [discriminate|].
      rewrite (operand_modes_short _ HKA), (operand_modes_short _ HKB) in E.
      fold modeA modeB in E. rewrite std_sort_length in E.
      unfold implicit_modes in E.
      destruct (Nat.ltb_spec kMaxNumModes_
                  (length (non_contracted modeA modeB ++
                           non_contracted modeB modeA))); [discriminate | lia].
  - intros e H. apply Einsum_ctor_Done in H.
    destruct H as (_ & _ & _ & _ & _ & HKC & _ & _ & ->). exact HKC.
Qed.

(** The constructor throws nothing but the broadcast error of TORCH_CHECK and
    its five [std::runtime_error]s; no other exception leaves it. *)
Theorem constructor_exceptions (equation : string)
    (A_shape A_strides B_shape B_strides : list Z) (ex : exception) :
  Einsum_ctor equation A_shape A_strides B_shape B_strides = Throw ex ->
  ex = c10_Error "Broadcast einsum with ... is not supported." \/
  ex = runtime_error "modes substring for first operand and shape don't match." \/
  ex = runtime_error "modes substring for second operand and shape don't match." \/
  ex = runtime_error "too many modes in first operand." \/
  ex = runtime_error "too many modes in second operand." \/
  ex = runtime_error "too many modes in output tensor.".
Proof.
  rewrite Einsum_ctor_summary. unfold ctor_summary. intros H.
  repeat match type of H with
         | (if ?b then _ else _) = _ => destruct b
         end;
    try discriminate H; injection H as <-; auto 10.
Qed.

(** On a constructed object [execute] takes the contraction branch exactly
    when the second operand has at least one mode: whatever the backend
    answers, it makes no contraction call when that operand has no mode
    (in particular when the equation has no comma) and no reduction call
    when it has one; when [execute] returns true the last call made is the
    contraction in the one case and the reduction in the other. *)
Theorem execute_dispatch (equation : string)
    (A_shape A_strides B_shape B_strides : list Z) (e : Einsum)
    (C_strides : list Z) (log : list backend_call) :
  Einsum_ctor equation A_shape A_strides B_shape B_strides = Done e ->
  let eq := list_ascii_of_string equation in
  let nB := length (remove_spaces (segmentB eq)) in
  (usesB eq = false -> nB = 0) /\
  exists calls,
    (execute e C_strides log).2 = log ++ calls /\
    (nB = 0 -> Forall (fun c => contraction_call c = false) calls) /\
    (0 < nB -> Forall (fun c => reduction_call c = false) calls) /\
    ((execute e C_strides log).1 = Done true ->
     last calls =
     Some (if 0 <? nB
           then cutensorContraction 1 0 kWorksize_
           else cutensorReduction 1 0 (modesA_ e) (modesC_ e) kWorksize_)).
Proof.
  intros H eq nB.
  apply constructed_numModesB in H as (_ & HnB & Hno). fold eq nB in HnB.
  split; [intros E; rewrite <- HnB; exact (Hno E)|].
  destruct (execute e C_strides log) as [r log'] eqn:E.
  apply execute_calls in E as (calls & -> & Hc & Hr & Hlast).
  rewrite HnB in *. exists calls. auto.
Qed.

(** [execute] on an object that is not initialized returns false without a
    backend call. On an initialized object it makes the calls of its plan in
    order and stops at the first one to which the backend returns a status
    other than success: it throws the error of that invocation of
    [HANDLE_ERROR] with that status and makes no call after it; when every
    call succeeds it returns true after the whole plan. *)
Theorem execute_stops_at_first_failure (e : Einsum) (C_strides : list Z)
    (log : list backend_call) :
  let plan := execute_plan e C_strides in
  (isInitialized_ e = false -> execute e C_strides log = (Done false, log)) /\
  (isInitialized_ e = true ->
   match list_find (fun status => status <> 0) (statuses log plan.*2) with
   | None => execute e C_strides log = (Done true, log ++ plan.*2)
   | Some (k, status) =>
       exists line call,
         plan !! k = Some (line, call) /\
         status = backend (log ++ take k plan.*2) call /\
         status <> 0 /\
         execute e C_strides log =
           (Throw (cutensor_error line status), log ++ take (S k) plan.*2)
   end).
Proof.
  intros plan. split; [apply execute_uninitialized|].
  intros Hinit. rewrite execute_run_plan by assumption. fold plan.
  rewrite run_plan_spec.
  destruct (list_find _ _) as [[k status]|] eqn:E; [|reflexivity].
  apply list_find_Some in E as (Hk & Hstatus & _).
  assert (Hlt : k < length plan).
  { apply lookup_lt_Some in Hk. rewrite statuses_length, length_fmap in Hk.
    exact Hk. }
  destruct (lookup_lt_is_Some_2 plan k Hlt) as [[line call] Hplan].
  exists line, call. rewrite Hplan.
  assert (Hcall : plan.*2 !! k = Some call)
    by (rewrite list_lookup_fmap, Hplan; reflexivity).
  rewrite (statuses_lookup _ log _ _ Hcall) in Hk. injection Hk as Hk.
  repeat split; try reflexivity; [symmetry; exact Hk | exact Hstatus].
Qed.

(** The workspace that [execute] declares to the backend does not depend on
    the operands: every call that carries a workspace size carries
    [getWorksize ()], which is 2^30 bytes. *)
Theorem execute_workspace (e : Einsum) (C_strides : list Z)
    (log : list backend_call) :
  getWorksize = (2 ^ 30)%Z /\
  exists calls,
    (execute e C_strides log).2 = log ++ calls /\
    Forall (fun c => forall w, worksize_of c = Some w -> w = getWorksize) calls.
Proof.
  split; [reflexivity|].
  destruct (execute_log e C_strides log) as [n Hn].
  eexists. split; [exact Hn|].
  apply Forall_take, execute_plan_worksize.
Qed.

(** [execute] on a constructed object first describes operand A to the
    backend with the number of modes, the extents and the strides that the
    constructor was given; when that call succeeds it next describes the
    output with the number of output modes, with the cells of [extentC_],
    which hold the extents that [getOutputShape] returns whenever it returns
    a shape, and with [C_strides] as passed, whose length it does not
    compare with the number of output modes. *)
Theorem execute_describes_tensors (equation : string)
    (A_shape A_strides B_shape B_strides : list Z) (e : Einsum)
    (C_strides : list Z) (log : list backend_call) :
  Einsum_ctor equation A_shape A_strides B_shape B_strides = Done e ->
  exists nA extentA stridesA tail,
    let descA := cutensorInitTensorDescriptor tensorA nA extentA stridesA in
    (execute e C_strides log).2 = log ++ descA :: tail /\
    nA = u32 (length A_shape) /\
    take nA extentA = Some <$> take nA A_shape /\
    take nA stridesA = Some <$> take nA A_strides /\
    (backend log descA = 0 ->
     exists nC extentC tail',
       tail = cutensorInitTensorDescriptor tensorC nC extentC (Some <$> C_strides)
              :: tail' /\
       nC = numModesC_ e /\
       forall shape,
         getOutputShape e = Done shape -> take nC extentC = Some <$> shape).
Proof.
  intros Hctor.
  pose proof (Einsum_ctor_Done _ _ _ _ _ _ Hctor) as H. cbv zeta in H.
  destruct H as (_ & HnA & _ & HKA & _ & HKC & HsA & _ & He).
  assert (Hinit : isInitialized_ e = true) by (rewrite He; reflexivity).
  rewrite execute_run_plan by assumption. cbn [snd].
  unfold execute_plan. cbn [app].
  match goal with
  | |- context [run_plan ((?l1, ?c1) :: (?l2, ?c2) :: ?rest) log] =>
      destruct (run_plan_first_calls l1 l2 c1 c2 rest log) as (tail & Hlog & Hnext)
  end.
  do 3 eexists. exists tail. cbv zeta.
  split; [exact Hlog|].
  pose proof (u32_le (length A_shape)) as Hle.
  rewrite He. cbn [numModesA_ extentA_ stridesA_ numModesC_ extentC_].
  split; [exact HnA|].
  set (nA := length (remove_spaces (segmentA (list_ascii_of_string equation)))) in *.
  assert (HlA : length (take nA A_shape) = nA) by (rewrite length_take; lia).
  assert (HlS : length (take nA A_strides) = nA) by (rewrite length_take; lia).
  split.
  { rewrite <- (take_filled (take nA A_shape)), HlA. reflexivity. }
  split.
  { rewrite <- (take_filled (take nA A_strides)), HlS. reflexivity. }
  intros Hok. rewrite He in Hnext. cbn [numModesA_ extentA_ stridesA_] in Hnext.
  destruct (Hnext Hok) as [tail' ->].
  do 2 eexists. exists tail'. split; [reflexivity|]. split; [reflexivity|].
  intros shape. unfold getOutputShape.
  cbn [isInitialized_ negb numModesC_ extentC_].
  rewrite copy_at_output_cells by assumption. intros Hshape.
  apply read_cells_Done in Hshape.
  unfold output_cells. rewrite take_app_length'; [exact Hshape|].
  rewrite length_fmap. reflexivity.
Qed.

(** Every object whose construction completes is initialized, has the mode
    counts of the shapes it was given (none for the second operand when the
    equation has no comma), none of them above [kMaxNumModes_], and strides
    for every mode. Its accessors [modesA], [modesB] and [modesC] return,
    without an exception, modes that the constructor wrote, as many as the
    counts. [getOutputShape] never throws on it, and returns a shape with
    one extent for each output mode when every output mode occurs in an
    operand, as is the case whenever the output is implicit. *)
Theorem constructed_object_invariant (equation : string)
    (A_shape A_strides B_shape B_strides : list Z) (e : Einsum) :
  Einsum_ctor equation A_shape A_strides B_shape B_strides = Done e ->
  isInitialized e = true /\
  numModesA_ e = u32 (length A_shape) /\
  numModesB_ e = (if usesB (list_ascii_of_string equation)
                  then u32 (length B_shape) else 0) /\
  numModesA_ e <= kMaxNumModes_ /\
  numModesB_ e <= kMaxNumModes_ /\
  numModesC_ e <= kMaxNumModes_ /\
  numModesA_ e <= length A_strides /\
  numModesB_ e <= length B_strides /\
  exists mA mB mC,
    modesA e = Done mA /\ length mA = numModesA_ e /\
    modesB e = Done mB /\ length mB = numModesB_ e /\
    modesC e = Done mC /\ length mC = numModesC_ e /\
    (forall ex, getOutputShape e <> Throw ex) /\
    (find (list_ascii_of_string equation) "->" = None \/
     (forall m, In m mC -> In m mA \/ In m mB) ->
     exists shape,
       getOutputShape e = Done shape /\ length shape = numModesC_ e).
Proof.
  intros Hctor.
  pose proof (modes_accessors _ _ _ _ _ _ Hctor) as Hacc. cbv zeta in Hacc.
  destruct Hacc as (HmA & HmB & HmC & HnC & Hshape).
  pose proof (getOutputShape_constructed _ _ _ _ _ _ Hctor) as Hs.
  cbv zeta in Hs. destruct Hs as [Hres _].
  pose proof (Einsum_ctor_Done _ _ _ _ _ _ Hctor) as H. cbv zeta in H.
  destruct H as (_ & HnA & HnB & HKA & HKB & HKC & HsA & HsB & He).
  assert (HA : numModesA_ e =
               length (remove_spaces (segmentA (list_ascii_of_string equation))))
    by (rewrite He; reflexivity).
  assert (HB : numModesB_ e =
               length (remove_spaces (segmentB (list_ascii_of_string equation))))
    by (rewrite He; reflexivity).
  rewrite HA, HB, HnC.
  split; [rewrite He; reflexivity|].
  repeat (split; [assumption|]).
  do 3 eexists.
  split; [exact HmA|]. split; [reflexivity|].
  split; [exact HmB|]. split; [reflexivity|].
  split; [exact HmC|]. split; [reflexivity|].
  split.
  - intros ex. rewrite Hshape. apply read_cells_no_throw.
  - intros Hin.
    destruct Hres as (shape & Hdone & Hext).
    { destruct Hin as [Himp|Hin]; [|exact Hin].
      unfold isImplicit. rewrite Himp. simpl. apply implicit_modes_In. }
    exists shape. split; [exact Hdone|].
    apply (f_equal length) in Hext. rewrite !length_fmap in Hext. exact Hext.
Qed.

(** When the equation has no comma the second operand is not looked at:
    whatever [B_shape] and [B_strides] are, the constructor does what it
    does for empty ones. *)
Theorem second_operand_ignored_without_comma (equation : string)
    (A_shape A_strides B_shape B_strides : list Z) :
  find (list_ascii_of_string equation) "," = None ->
  Einsum_ctor equation A_shape A_strides B_shape B_strides =
  Einsum_ctor equation A_shape A_strides [] [].
Proof.
  intros Hcomma. rewrite !Einsum_ctor_summary. unfold ctor_summary.
  assert (HB : usesB (list_ascii_of_string equation) = false)
    by (unfold usesB; rewrite Hcomma; reflexivity).
  rewrite HB. reflexivity.
Qed.

(** Strides beyond the number of dimensions of the shape are never read:
    appending any values to strides that are at least as long as their shape
    changes nothing in what the constructor does. *)
Theorem surplus_strides_ignored (equation : string)
    (A_shape A_strides B_shape B_strides A_more B_more : list Z) :
  length A_shape <= length A_strides ->
  length B_shape <= length B_strides ->
  Einsum_ctor equation A_shape (A_strides ++ A_more) B_shape (B_strides ++ B_more) =
  Einsum_ctor equation A_shape A_strides B_shape B_strides.
Proof.
  intros HA HB. rewrite !Einsum_ctor_summary. unfold ctor_summary.
  set (eq := list_ascii_of_string equation).
  set (nA := u32 (length A_shape)).
  set (nB := if usesB eq then u32 (length B_shape) else 0).
  assert (HnA : nA <= length A_strides)
    by (pose proof (u32_le (length A_shape)); subst nA; lia).
  assert (HnB : nB <= length B_strides).
  { subst nB. destruct (usesB eq); [|lia].
    pose proof (u32_le (length B_shape)). lia. }
  rewrite !(take_app_le _ _ _ HnA), !(take_app_le _ _ _ HnB).
  rewrite !length_app.
  destruct (Nat.ltb_spec (length A_strides + length A_more) nA); [lia|].
  destruct (Nat.ltb_spec (length A_strides) nA); [lia|].
  destruct (Nat.ltb_spec (length B_strides + length B_more) nB); [lia|].
  destruct (Nat.ltb_spec (length B_strides) nB); [lia|].
  reflexivity.
Qed.

(** The constructor never inspects an extent or a stride, it only counts
    them: with shapes and strides of the same lengths it fails in the same
    way or builds an object with the same mode counts and the same modes.
    In particular no extent is checked for being positive, and the extents
    that two operands give to a mode they share are not compared. *)
Theorem extents_never_inspected (equation : string)
    (A_shape A_strides B_shape B_strides : list Z)
    (A_shape' A_strides' B_shape' B_strides' : list Z) :
  length A_shape = length A_shape' ->
  length A_strides = length A_strides' ->
  length B_shape = length B_shape' ->
  length B_strides = length B_strides' ->
  match Einsum_ctor equation A_shape A_strides B_shape B_strides,
        Einsum_ctor equation A_shape' A_strides' B_shape' B_strides' with
  | Done e, Done e' =>
      numModesA_ e = numModesA_ e' /\ numModesB_ e = numModesB_ e' /\
      numModesC_ e = numModesC_ e' /\
      modesA_ e = modesA_ e' /\ modesB_ e = modesB_ e' /\ modesC_ e = modesC_ e'
  | Throw ex, Throw ex' => ex = ex'
  | Undefined f, Undefined f' => f = f'
  | _, _ => False
  end.
Proof.
  intros HA HsA HB HsB. rewrite !Einsum_ctor_summary. unfold ctor_summary.
  rewrite <- HA, <- HsA, <- HB, <- HsB.
  repeat match goal with
         | |- context [if ?b then _ else _] =>
             match b with
             | context [if _ then _ else _] => fail 1
             | _ => destruct b eqn:?
             end
         end; simpl; auto 10.
Qed.

(** An operand with more than [kMaxNumModes_] modes is always rejected with
    an exception, so the member arrays of the operands are never written
    past their end. The count that is compared with the shape stops at
    [kMaxNumModes_ + 2]: an operand A with more modes than that and a shape
    of as many dimensions is reported as a mismatch. *)
Theorem operand_overflow_rejected (equation : string)
    (A_shape A_strides B_shape B_strides : list Z) :
  let eq := list_ascii_of_string equation in
  let modeA := remove_spaces (segmentA eq) in
  let modeB := remove_spaces (segmentB eq) in
  (kMaxNumModes_ < length modeA \/ kMaxNumModes_ < length modeB ->
   exists ex,
     Einsum_ctor equation A_shape A_strides B_shape B_strides = Throw ex /\
     (ex = c10_Error "Broadcast einsum with ... is not supported." \/
      ex = runtime_error
             "modes substring for first operand and shape don't match." \/
      ex = runtime_error
             "modes substring for second operand and shape don't match." \/
      ex = runtime_error "too many modes in first operand." \/
      ex = runtime_error "too many modes in second operand.")) /\
  (find eq "..." = None ->
   kMaxNumModes_ + 2 < length modeA ->
   length A_shape = length modeA ->
   (Z.of_nat (length A_shape) < 2 ^ 32)%Z ->
   Einsum_ctor equation A_shape A_strides B_shape B_strides =
   Throw (runtime_error
            "modes substring for first operand and shape don't match.")).
Proof.
  intros eq modeA modeB. split.
  - intros Hover. rewrite Einsum_ctor_summary. unfold ctor_summary. fold eq.
    destruct (negb (is_npos (find eq "..."))); [eauto 10|].
    destruct (Nat.eqb_spec (length (operand_modes (segmentA eq)))
                (u32 (length A_shape))) as [HA|]; simpl; [|eauto 10].
    destruct (Nat.eqb_spec (length (operand_modes (segmentB eq)))
                (if usesB eq then u32 (length B_shape) else 0)) as [HB|];
      simpl; [|eauto 10].
    rewrite <- HA, <- HB.
    destruct (Nat.ltb_spec kMaxNumModes_ (length (operand_modes (segmentA eq))))
      as [|HKA]; [eauto 10|].
    destruct (Nat.ltb_spec kMaxNumModes_ (length (operand_modes (segmentB eq))))
      as [|HKB]; [eauto 10|].
    exfalso. unfold operand_modes in HKA, HKB. rewrite length_take in HKA, HKB.
    fold modeA modeB in HKA, HKB. lia.
  - intros Hdots Hover HA Hint. rewrite Einsum_ctor_summary.
    unfold ctor_summary. fold eq. rewrite Hdots. simpl.
    rewrite (u32_small _ Hint).
    destruct (Nat.eqb_spec (length (operand_modes (segmentA eq)))
                (length A_shape)) as [Heq|]; [|reflexivity].
    exfalso. unfold operand_modes in Heq. rewrite length_take in Heq.
    fold modeA in Heq. lia.
Qed.

(** The extent that the constructor writes for an output mode is the one at
    the first position of operand A that holds the mode; when A does not
    hold it, the one at the first such position of operand B; when neither
    does, the constructor writes none. Other positions that hold the mode,
    in A or in B, have no effect on it. Whenever [getOutputShape] returns a
    shape, the entry of the mode in it is that extent. *)
Theorem output_extent_first_occurrence (equation : string)
    (A_shape A_strides B_shape B_strides : list Z) (e : Einsum) :
  Einsum_ctor equation A_shape A_strides B_shape B_strides = Done e ->
  let eq := list_ascii_of_string equation in
  let modeA := remove_spaces (segmentA eq) in
  let modeB := remove_spaces (segmentB eq) in
  exists modeC,
    modesC e = Done modeC /\
    forall i m,
      modeC !! i = Some m ->
      (forall j,
          modeA !! j = Some m ->
          (forall j', j' < j -> modeA !! j' <> Some m) ->
          is_Some (A_shape !! j) /\
          extentC_ e !! i = Some (A_shape !! j) /\
          forall shape,
            getOutputShape e = Done shape -> shape !! i = A_shape !! j) /\
      (~ In m modeA ->
       forall j,
         modeB !! j = Some m ->
         (forall j', j' < j -> modeB !! j' <> Some m) ->
         is_Some (B_shape !! j) /\
         extentC_ e !! i = Some (B_shape !! j) /\
         forall shape,
           getOutputShape e = Done shape -> shape !! i = B_shape !! j) /\
      (~ In m modeA -> ~ In m modeB -> extentC_ e !! i = Some None).
Proof.
  intros Hctor eq modeA modeB.
  pose proof (modes_accessors _ _ _ _ _ _ Hctor) as Hacc. cbv zeta in Hacc.
  fold eq modeA modeB in Hacc.
  destruct Hacc as (_ & _ & HmC & _ & Hshape).
  destruct (constructed_lengths _ _ _ _ _ _ Hctor) as [HlA HlB].
  fold eq modeA modeB in HlA, HlB.
  pose proof (constructed_extentC _ _ _ _ _ _ Hctor) as Hcell.
  cbv zeta in Hcell. fold eq modeA modeB in Hcell.
  eexists. split; [exact HmC|].
  intros i m Hm. specialize (Hcell i m Hm).
  assert (Hread : forall shape x,
             getOutputShape e = Done shape ->
             output_extent modeA A_shape modeB B_shape m = x ->
             shape !! i = x).
  { intros shape x Hdone <-. rewrite Hshape in Hdone.
    apply read_cells_Done in Hdone.
    apply (f_equal (fun l => l !! i)) in Hdone.
    rewrite !list_lookup_fmap, Hm in Hdone. simpl in Hdone.
    destruct (shape !! i); simpl in Hdone; congruence. }
  split; [|split].
  - intros j Hj Hfirst.
    assert (Hlt : j < length A_shape)
      by (apply lookup_lt_Some in Hj; lia).
    assert (Hx : output_extent modeA A_shape modeB B_shape m = A_shape !! j).
    { unfold output_extent.
      rewrite (extent_of_first m modeA A_shape j Hj Hfirst Hlt).
      destruct (A_shape !! j) eqn:E; [reflexivity|].
      apply lookup_ge_None in E. lia. }
    split; [apply lookup_lt_is_Some; exact Hlt|].
    split; [rewrite Hcell, Hx; reflexivity|].
    intros shape Hdone. exact (Hread shape _ Hdone Hx).
  - intros HnotA j Hj Hfirst.
    assert (Hlt : j < length B_shape)
      by (apply lookup_lt_Some in Hj; lia).
    assert (Hx : output_extent modeA A_shape modeB B_shape m = B_shape !! j).
    { unfold output_extent. rewrite (extent_of_not_In _ _ _ HnotA).
      apply (extent_of_first m modeB B_shape j Hj Hfirst Hlt). }
    split; [apply lookup_lt_is_Some; exact Hlt|].
    split; [rewrite Hcell, Hx; reflexivity|].
    intros shape Hdone. exact (Hread shape _ Hdone Hx).
  - intros HnotA HnotB. rewrite Hcell. unfold output_extent.
    rewrite !extent_of_not_In by assumption. reflexivity.
Qed.

(** With implicit output a mode is never merged with itself: a mode that
    occurs in one operand only is an output mode as many times as it occurs
    there, and a mode that occurs in both operands is no output mode. *)
Theorem implicit_output_multiplicity (equation : string)
    (A_shape A_strides B_shape B_strides : list Z) (e : Einsum) :
  Einsum_ctor equation A_shape A_strides B_shape B_strides = Done e ->
  find (list_ascii_of_string equation) "->" = None ->
  let eq := list_ascii_of_string equation in
  let modeA := remove_spaces (segmentA eq) in
  let modeB := remove_spaces (segmentB eq) in
  exists modeC,
    modesC e = Done modeC /\
    forall m,
      (In m modeA -> In m modeB -> count_occ ascii_dec modeC m = 0) /\
      (~ In m modeB ->
       count_occ ascii_dec modeC m = count_occ ascii_dec modeA m) /\
      (~ In m modeA ->
       count_occ ascii_dec modeC m = count_occ ascii_dec modeB m).
Proof.
  intros Hctor Harrow eq modeA modeB.
  pose proof (modes_accessors _ _ _ _ _ _ Hctor) as Hacc. cbv zeta in Hacc.
  fold eq modeA modeB in Hacc. unfold isImplicit in Hacc. fold eq in Harrow.
  rewrite Harrow in Hacc. simpl in Hacc.
  destruct Hacc as (_ & _ & HmC & _).
  eexists. split; [exact HmC|]. intros m.
  assert (Hcount :
    count_occ ascii_dec (std_sort (implicit_modes modeA modeB)) m =
    (if existsb (Ascii.eqb m) modeB then 0 else count_occ ascii_dec modeA m) +
    (if existsb (Ascii.eqb m) modeA then 0 else count_occ ascii_dec modeB m)).
  { rewrite (proj1 (Permutation_count_occ ascii_dec _ _)
               (std_sort_perm (implicit_modes modeA modeB)) m).
    unfold implicit_modes. rewrite count_occ_app, !count_occ_non_contracted.
    reflexivity. }
  rewrite Hcount.
  destruct (existsb (Ascii.eqb m) modeA) eqn:EA;
    destruct (existsb (Ascii.eqb m) modeB) eqn:EB;
    try (apply existsb_eqb_In in EA); try (apply existsb_eqb_In in EB);
    repeat split; intros; try contradiction; try lia;
    try (exfalso;
         match goal with
         | H : existsb (Ascii.eqb m) ?l = false, H' : In m ?l |- _ =>
             apply existsb_eqb_In in H'; congruence
         end).
  - assert (count_occ ascii_dec modeB m = 0)
      by (apply count_occ_not_In; assumption). lia.
  - assert (count_occ ascii_dec modeA m = 0)
      by (apply count_occ_not_In; assumption). lia.
Qed.

(** The three segments that the extraction loops visit, the first comma and
    the first "->" make up the whole equation when the comma, if there is
    one, comes before the "->": no character is left out and none is refused,
    so every character other than a space becomes a mode of the segment it
    is in. When the first comma comes after the first "->", the second
    operand has no segment, the segment of A runs up to the comma, "->"
    included, and the segment of the output runs from the "->" to the end,
    comma included. *)
Theorem segments_partition_equation (equation : list ascii) :
  ((forall p q,
       find equation "->" = Some p -> find equation "," = Some q -> q < p) ->
   equation =
   segmentA equation ++
   (if usesB equation then ","%char :: segmentB equation else []) ++
   (if isImplicit equation then []
    else "-"%char :: ">"%char :: segmentC equation)) /\
  (forall p q,
      find equation "->" = Some p -> find equation "," = Some q -> p < q ->
      p + 2 <= q /\
      segmentA equation = take q equation /\
      segmentB equation = [] /\
      segmentC equation = drop (p + 2) equation).
Proof.
  unfold segmentA, segmentB, segmentC, substr, a_start, a_end, b_start, b_end,
    c_start, c_end, usesB, isImplicit.
  split.
  - intros Horder.
    destruct (find equation "->") as [p|] eqn:Ea;
      destruct (find equation ",") as [q|] eqn:Ec; simpl.
    + specialize (Horder p q eq_refl eq_refl).
      pose proof (find_bound _ _ _ Ea) as Hp. simpl in Hp.
      pose proof (find_Some _ _ _ Ea) as Hsa. simpl in Hsa.
      pose proof (find_Some _ _ _ Ec) as Hsc. simpl in Hsc.
      rewrite Nat.sub_0_r, drop_0.
      rewrite (take_ge (drop (p + 2) equation))
        by (rewrite length_drop; lia).
      assert (Hd : drop p equation =
                   "-"%char :: ">"%char :: drop (p + 2) equation).
      { rewrite Hsa at 1. rewrite drop_app_length'; [reflexivity|].
        rewrite length_take. lia. }
      rewrite <- Hd.
      assert (Hdd : drop p equation = drop (p - (q + 1)) (drop (q + 1) equation))
        by (rewrite drop_drop; f_equal; lia).
      rewrite Hdd, take_drop. exact Hsc.
    + pose proof (find_bound _ _ _ Ea) as Hp. simpl in Hp.
      pose proof (find_Some _ _ _ Ea) as Hsa. simpl in Hsa.
      rewrite Nat.sub_0_r, drop_0.
      rewrite (take_ge (drop (p + 2) equation))
        by (rewrite length_drop; lia).
      exact Hsa.
    + pose proof (find_Some _ _ _ Ec) as Hsc. simpl in Hsc.
      rewrite Nat.sub_0_r, drop_0, app_nil_r.
      rewrite (take_ge (drop (q + 1) equation))
        by (rewrite length_drop; lia).
      exact Hsc.
    + rewrite Nat.sub_0_r, drop_0, take_ge, app_nil_r by lia. reflexivity.
  - intros p q Ea Ec Hlt. rewrite Ea, Ec. simpl.
    pose proof (find_bound _ _ _ Ea) as Hp. simpl in Hp.
    pose proof (find_Some _ _ _ Ea) as Hsa. simpl in Hsa.
    pose proof (find_Some _ _ _ Ec) as Hsc. simpl in Hsc.
    assert (Hq : equation !! q = Some ","%char).
    { rewrite Hsc. rewrite lookup_app_r by (rewrite length_take; lia).
      rewrite length_take.
      pose proof (find_bound _ _ _ Ec) as Hqb. simpl in Hqb.
      replace (q - q `min` length equation) with 0 by lia. reflexivity. }
    assert (Hp1 : equation !! (p + 1) = Some ">"%char).
    { rewrite Hsa. rewrite lookup_app_r by (rewrite length_take; lia).
      rewrite length_take.
      replace (p + 1 - p `min` length equation) with 1 by lia. reflexivity. }
    assert (q <> p + 1) by (intros ->; rewrite Hq in Hp1; discriminate).
    split; [lia|].
    rewrite Nat.sub_0_r, drop_0.
    split; [reflexivity|].
    split; [replace (p - (q + 1)) with 0 by lia; apply take_0|].
    apply take_ge. rewrite length_drop. lia.
Qed.

(** The accessors are bounds checked. On any state of the object, whose
    arrays have [kMaxNumModes_] cells, an accessor whose count is at most
    [kMaxNumModes_] returns the values of the first cells of its array, as
    many as the count, when those cells were all written; an accessor whose
    count is more than [kMaxNumModes_] throws [std::out_of_range] when every
    cell of the array was written; and reading a cell that was never written
    has no defined result. [getOutputShape] returns the empty shape on an
    object that is not initialized, whatever its cells hold. *)
Theorem accessors_bounds_checked (e : Einsum) :
  length (modesA_ e) = kMaxNumModes_ ->
  length (modesB_ e) = kMaxNumModes_ ->
  length (modesC_ e) = kMaxNumModes_ ->
  length (extentC_ e) = kMaxNumModes_ ->
  reads_checked "modesA_" (modesA_ e) kMaxNumModes_ (numModesA_ e) (modesA e) /\
  reads_checked "modesB_" (modesB_ e) kMaxNumModes_ (numModesB_ e) (modesB e) /\
  reads_checked "modesC_" (modesC_ e) kMaxNumModes_ (numModesC_ e) (modesC e) /\
  (isInitialized_ e = true ->
   reads_checked "extentC_" (extentC_ e) kMaxNumModes_ (numModesC_ e)
     (getOutputShape e)) /\
  (isInitialized_ e = false -> getOutputShape e = Done []).
Proof.
  intros HA HB HC HX. unfold modesA, modesB, modesC, getOutputShape.
  rewrite <- HA at 1. rewrite <- HB at 1. rewrite <- HC at 1.
  split; [apply copy_at_bounds|]. split; [apply copy_at_bounds|].
  split; [apply copy_at_bounds|].
  split; intros ->; simpl; [|reflexivity].
  rewrite <- HX at 1. apply copy_at_bounds.
Qed.

(** [copyModesIf], called with a buffer [modeC] that holds at most
    [kMaxNumModes_] modes and with counts that do not exceed what [modeA]
    and [modeB] hold, never writes past the [kMaxNumModes_ + 1] cells of the
    buffer: it appends the modes among the first [numModesA] of [modeA] that
    are not among the first [numModesB] of [modeB], in their order, and
    throws as soon as the buffer holds more than [kMaxNumModes_] modes. *)
Theorem copyModesIf_bounded (modeA : list ascii) (numModesA : nat)
    (modeB : list ascii) (numModesB : nat) (modeC : list ascii) :
  length modeC <= kMaxNumModes_ ->
  numModesA <= length modeA ->
  numModesB <= length modeB ->
  let added := non_contracted (take numModesA modeA) (take numModesB modeB) in
  copyModesIf modeA numModesA modeB numModesB modeC =
  if length modeC + length added <=? kMaxNumModes_
  then Done (modeC ++ added)
  else Throw (runtime_error "too many modes in output tensor.").
Proof.
  intros HC _ _ added. unfold copyModesIf.
  apply copyModesIf_loop_spec. exact HC.
Qed.

(** [CreateCuTensorHandle] calls [cutensorInit] first and drops the status
    it returns, so a failure of [cutensorInit] is never reported: the handle
    is returned all the same. It attaches CUTENSOR_N_CACHELINES = 512 plan
    cachelines exactly when the environment variable CUTENSOR_CACHE is set
    to a text that [atoi] reads as 1, and the only exception that leaves it
    is the error of that second call, with the status that the call
    returned. *)
Theorem CreateCuTensorHandle_failures (getenv : string -> option string)
    (log : list handle_call) :
  let attach := cutensorHandleAttachPlanCachelines 512 in
  let init := handle_backend log cutensorInit in
  let err := handle_backend (log ++ [cutensorInit]) attach in
  (CreateCuTensorHandle getenv log).2 =
    log ++ cutensorInit :: (if cache_requested getenv then [attach] else []) /\
  (cache_requested getenv = false ->
   (CreateCuTensorHandle getenv log).1 = Done [(cutensorInit, init)]) /\
  (cache_requested getenv = true -> err = 0 ->
   (CreateCuTensorHandle getenv log).1 =
   Done [(cutensorInit, init); (attach, 0)]) /\
  (forall ex,
      (CreateCuTensorHandle getenv log).1 = Throw ex ->
      cache_requested getenv = true /\ err <> 0 /\
      ex = cutensor_error 428 err) /\
  (forall f, (CreateCuTensorHandle getenv log).1 <> Undefined f).
Proof.
  intros attach init err. rewrite CreateCuTensorHandle_spec.
  change CUTENSOR_N_CACHELINES with 512. fold attach. fold init err.
  destruct (cache_requested getenv); cbn [fst snd].
  - split; [reflexivity|]. split; [discriminate|].
    split; [intros _ ->; reflexivity|].
    destruct err as [|status]; split;
      try (intros ex H; discriminate H);
      try (intros f H; discriminate H).
    intros ex [= <-]. repeat split. discriminate.
  - split; [reflexivity|]. split; [reflexivity|].
    split; [discriminate|].
    split; [intros ex H; discriminate H | intros f H; discriminate H].
Qed.


(** Where the constructor leaves defined behaviour. It does so in three
    ways only: reading [A_strides] or [B_strides] past its end, or writing
    [modesC_] past its end. None of them happens when the strides of A are
    at least as long as its shape, those of B too when the equation has a
    comma, and the output is implicit or is written with at most
    [kMaxNumModes_] modes. *)
Theorem constructor_memory_safety (equation : string)
    (A_shape A_strides B_shape B_strides : list Z) :
  let eq := list_ascii_of_string equation in
  (forall f,
      Einsum_ctor equation A_shape A_strides B_shape B_strides = Undefined f ->
      f = OutOfBounds "A_strides" (length A_strides) \/
      f = OutOfBounds "B_strides" (length B_strides) \/
      f = OutOfBounds "modesC_" kMaxNumModes_) /\
  (length A_shape <= length A_strides ->
   (usesB eq = true -> length B_shape <= length B_strides) ->
   find eq "->" = None \/
   length (remove_spaces (segmentC eq)) <= kMaxNumModes_ ->
   forall f,
     Einsum_ctor equation A_shape A_strides B_shape B_strides <> Undefined f).
Proof.
  intros eq. rewrite Einsum_ctor_summary. unfold ctor_summary. fold eq.
  split.
  - intros f H.
    repeat match type of H with
           | (if ?b then _ else _) = _ => destruct b
           end;
      try discriminate H; injection H as <-; auto.
  - intros HA HB HC f.
    pose proof (u32_le (length A_shape)) as HuA.
    pose proof (u32_le (length B_shape)) as HuB.
    destruct (negb (is_npos (find eq "..."))); [discriminate|].
    destruct (negb (_ =? _)); [discriminate|].
    destruct (negb (_ =? _)); [discriminate|].
    destruct (_ <? _); [discriminate|].
    destruct (_ <? _); [discriminate|].
    destruct (Nat.ltb_spec (length A_strides) (u32 (length A_shape))); [lia|].
    destruct (Nat.ltb_spec (length B_strides)
                (if usesB eq then u32 (length B_shape) else 0)) as [Hlt|_].
    { destruct (usesB eq); [specialize (HB eq_refl)|]; lia. }
    unfold isImplicit.
    destruct (find eq "->") as [p|] eqn:Ea; simpl.
    + destruct HC as [HC|HC]; [discriminate|].
      destruct (Nat.ltb_spec kMaxNumModes_ (length (operand_modes (segmentC eq))))
        as [Hlt|_]; [|discriminate].
      unfold operand_modes in Hlt. rewrite length_take in Hlt. lia.
    + destruct (_ <? _); discriminate.
Qed.

(** When [execute] returns true on a constructed object, the backend has been
    given the modes that the accessors report. With a second operand of at
    least one mode, it has been given the descriptor of B with the number of
    modes, the extents and the strides that the constructor was given, and
    the contraction descriptor with the modes of [modesA], [modesB] and
    [modesC]; otherwise the last call is the reduction, with the modes of
    [modesA] and [modesC]. *)
Theorem execute_passes_modes (equation : string)
    (A_shape A_strides B_shape B_strides : list Z) (e : Einsum)
    (C_strides : list Z) (log : list backend_call) :
  Einsum_ctor equation A_shape A_strides B_shape B_strides = Done e ->
  (execute e C_strides log).1 = Done true ->
  exists calls mA mB mC,
    (execute e C_strides log).2 = log ++ calls /\
    (exists modes,
        modesA e = Done modes /\ take (numModesA_ e) mA = Some <$> modes) /\
    (exists modes,
        modesB e = Done modes /\ take (numModesB_ e) mB = Some <$> modes) /\
    (exists modes,
        modesC e = Done modes /\ take (numModesC_ e) mC = Some <$> modes) /\
    if 0 <? numModesB_ e
    then
      In (cutensorInitContractionDescriptor mA mB mC) calls /\
      exists extentB stridesB,
        In (cutensorInitTensorDescriptor tensorB (numModesB_ e) extentB stridesB)
          calls /\
        numModesB_ e = u32 (length B_shape) /\
        take (numModesB_ e) extentB = Some <$> take (numModesB_ e) B_shape /\
        take (numModesB_ e) stridesB = Some <$> take (numModesB_ e) B_strides
    else
      last calls = Some (cutensorReduction 1 0 mA mC getWorksize).
Proof.
  intros Hctor Htrue.
  pose proof (execute_success_log _ _ _ Htrue) as Hlog.
  pose proof (Einsum_ctor_Done _ _ _ _ _ _ Hctor) as H. cbv zeta in H.
  destruct H as (_ & _ & HnB & HKA & HKB & HKC & _ & HsB & He).
  exists (execute_plan e C_strides).*2, (modesA_ e), (modesB_ e), (modesC_ e).
  split; [exact Hlog|].
  pose proof (modes_accessors _ _ _ _ _ _ Hctor) as Hacc. cbv zeta in Hacc.
  destruct Hacc as (HmA & HmB & HmC & _ & _).
  split; [eexists; split; [exact HmA|]; rewrite He; apply take_filled|].
  split; [eexists; split; [exact HmB|]; rewrite He; apply take_filled|].
  split; [eexists; split; [exact HmC|]; rewrite He; apply take_filled|].
  unfold execute_plan.
  destruct (0 <? numModesB_ e) eqn:EB; [|reflexivity].
  split; [simpl; auto 10|].
  exists (extentB_ e), (stridesB_ e).
  split; [simpl; auto 10|].
  apply Nat.ltb_lt in EB.
  set (nB := length (remove_spaces (segmentB (list_ascii_of_string equation)))) in *.
  assert (HeB : numModesB_ e = nB) by (rewrite He; reflexivity).
  assert (HuB : nB = u32 (length B_shape)).
  { destruct (usesB (list_ascii_of_string equation)); [exact HnB | lia]. }
  pose proof (u32_le (length B_shape)) as Hle.
  assert (HlS : length (take nB B_shape) = nB) by (rewrite length_take; lia).
  assert (HlT : length (take nB B_strides) = nB) by (rewrite length_take; lia).
  rewrite HeB. split; [exact HuB|].
  rewrite He. cbn [extentB_ stridesB_].
  split.
  - rewrite <- (take_filled (take nB B_shape)), HlS. reflexivity.
  - rewrite <- (take_filled (take nB B_strides)), HlT. reflexivity.
Qed.

(** An implicit output can be written out. When construction completes for
    an equation without "->", it also completes, with the same object, for
    that equation followed by "->" and by the output modes that [modesC]
    reports, provided that the equation so written contains no "...". *)
Theorem implicit_output_made_explicit (equation : string)
    (A_shape A_strides B_shape B_strides : list Z) (e : Einsum)
    (modeC : list ascii) :
  Einsum_ctor equation A_shape A_strides B_shape B_strides = Done e ->
  find (list_ascii_of_string equation) "->" = None ->
  modesC e = Done modeC ->
  let explicit := equation +:+ "->" +:+ string_of_list_ascii modeC in
  find (list_ascii_of_string explicit) "..." = None ->
  Einsum_ctor explicit A_shape A_strides B_shape B_strides = Done e.
Proof.
  intros Hctor Harrow HmC explicit Hdots.
  set (eq := list_ascii_of_string equation) in *.
  pose proof (modes_accessors _ _ _ _ _ _ Hctor) as Hacc. cbv zeta in Hacc.
  fold eq in Hacc. unfold isImplicit in Hacc. rewrite Harrow in Hacc.
  simpl in Hacc. destruct Hacc as (_ & _ & HmC' & _).
  rewrite HmC in HmC'. injection HmC' as HmC'.
  pose proof (Einsum_ctor_Done _ _ _ _ _ _ Hctor) as H. cbv zeta in H.
  fold eq in H. unfold isImplicit in H. rewrite Harrow in H. simpl in H.
  rewrite <- HmC' in H.
  destruct H as (_ & HnA & HnB & HKA & HKB & HKC & HsA & HsB & He).
  set (modeA := remove_spaces (segmentA eq)) in *.
  set (modeB := remove_spaces (segmentB eq)) in *.
  assert (Hin : forall c, In c modeC -> In c eq /\ c <> " "%char).
  { intros c Hc. rewrite HmC' in Hc. apply (proj1 (std_sort_In _ _)) in Hc.
    unfold implicit_modes in Hc.
    apply in_app_or in Hc as [Hc|Hc]; apply non_contracted_In in Hc as [Hc _];
      apply remove_spaces_In in Hc as [Hc Hsp];
      (split; [|exact Hsp]); eapply substr_In; exact Hc. }
  assert (Hcomma : find eq "," = None -> ~ In ","%char modeC).
  { intros Hnone Hc. apply find_comma_None in Hnone.
    apply Hnone. apply (Hin _ Hc). }
  assert (Hspace : remove_spaces modeC = modeC).
  { apply remove_spaces_id. intros Hc. apply Hin in Hc as [_ Hc].
    apply Hc. reflexivity. }
  assert (Hexp : list_ascii_of_string explicit =
                 eq ++ "-"%char :: ">"%char :: modeC).
  { unfold explicit. rewrite !list_ascii_of_string_app.
    rewrite list_ascii_of_string_of_list_ascii. reflexivity. }
  destruct (explicit_form_segments eq modeC Harrow Hcomma)
    as (Ha & HuB & HA & HB & HC).
  rewrite Einsum_ctor_summary. unfold ctor_summary.
  rewrite Hexp in Hdots |- *.
  unfold isImplicit. rewrite Ha, Hdots, HuB, HA, HB, HC. simpl.
  rewrite (operand_modes_eq (segmentA eq)), (operand_modes_eq (segmentB eq))
    by assumption.
  assert (HoC : operand_modes modeC = modeC).
  { unfold operand_modes. rewrite Hspace. apply take_ge. lia. }
  rewrite HoC. fold modeA modeB.
  rewrite <- HnA, <- HnB, !Nat.eqb_refl. simpl.
  destruct (Nat.ltb_spec kMaxNumModes_ (length modeA)); [lia|].
  destruct (Nat.ltb_spec kMaxNumModes_ (length modeB)); [lia|].
  destruct (Nat.ltb_spec (length A_strides) (length modeA)); [lia|].
  destruct (Nat.ltb_spec (length B_strides) (length modeB)); [lia|].
  destruct (Nat.ltb_spec kMaxNumModes_ (length modeC)); [lia|].
  rewrite He. reflexivity.
Qed.

(** With implicit output the order in which the two operands are written
    does not matter for the output: the equations "a,b" and "b,a", each with
    the shapes and strides in its order, give the same output modes and the
    same output shape. *)
Theorem implicit_output_symmetric (a b : string)
    (A_shape A_strides B_shape B_strides : list Z) (e1 e2 : Einsum) :
  find (list_ascii_of_string a) "," = None ->
  find (list_ascii_of_string b) "," = None ->
  find (list_ascii_of_string (a +:+ "," +:+ b)) "->" = None ->
  find (list_ascii_of_string (b +:+ "," +:+ a)) "->" = None ->
  Einsum_ctor (a +:+ "," +:+ b) A_shape A_strides B_shape B_strides = Done e1 ->
  Einsum_ctor (b +:+ "," +:+ a) B_shape B_strides A_shape A_strides = Done e2 ->
  modesC e1 = modesC e2 /\ getOutputShape e1 = getOutputShape e2.
Proof.
  intros Ha Hb Harrow1 Harrow2 H1 H2.
  apply find_comma_None in Ha, Hb.
  pose proof (modes_accessors _ _ _ _ _ _ H1) as T1.
  pose proof (modes_accessors _ _ _ _ _ _ H2) as T2.
  cbv zeta in T1, T2. unfold isImplicit in T1, T2.
  rewrite Harrow1 in T1. rewrite Harrow2 in T2. simpl in T1, T2.
  rewrite !list_ascii_of_string_app in *. simpl in *.
  destruct (operand_pair_segments _ _ Ha Harrow1) as [HA1 HB1].
  destruct (operand_pair_segments _ _ Hb Harrow2) as [HA2 HB2].
  rewrite HA1, HB1 in T1. rewrite HA2, HB2 in T2.
  set (modeA := remove_spaces (list_ascii_of_string a)) in *.
  set (modeB := remove_spaces (list_ascii_of_string b)) in *.
  destruct T1 as (_ & _ & HC1 & _ & HS1).
  destruct T2 as (_ & _ & HC2 & _ & HS2).
  assert (Hsort : std_sort (implicit_modes modeB modeA) =
                  std_sort (implicit_modes modeA modeB))
    by (apply std_sort_Permutation, Permutation_app_comm).
  rewrite Hsort in HC2, HS2.
  rewrite HC1, HC2, HS1, HS2. split; [reflexivity|].
  f_equal. apply list_fmap_ext. intros i m Hm.
  apply output_extent_swap.
  apply list_elem_of_lookup_2, list_elem_of_In in Hm.
  apply (proj1 (std_sort_In _ _)) in Hm. unfold implicit_modes in Hm.
  apply in_app_or in Hm as [Hm|Hm]; apply non_contracted_In in Hm as [_ Hm];
    [right | left]; exact Hm.
Qed.

End EinsumModel.

(** * Equations of seven-bit characters *)

Lemma char_less_seven_bit (a b : ascii) :
  nat_of_ascii a < 128 -> nat_of_ascii b < 128 ->
  char_less true a b = char_less false a b.
Proof.
  unfold char_less, char_value. intros Ha Hb. simpl.
  destruct (Z.leb_spec 128 (Z.of_nat (nat_of_ascii a))); [lia|].
  destruct (Z.leb_spec 128 (Z.of_nat (nat_of_ascii b))); [lia|].
  reflexivity.
Qed.

Lemma sort_insert_seven_bit (c : ascii) (l : list ascii) :
  nat_of_ascii c < 128 ->
  Forall (fun x => nat_of_ascii x < 128) l ->
  sort_insert true c l = sort_insert false c l.
Proof.
  intros Hc Hl. induction Hl as [|x l Hx Hl IH]; simpl; [reflexivity|].
  rewrite (char_less_seven_bit c x Hc Hx), IH. reflexivity.
Qed.

Lemma std_sort_seven_bit (l : list ascii) :
  Forall (fun x => nat_of_ascii x < 128) l ->
  std_sort true l = std_sort false l.
Proof.
  intros Hl. induction Hl as [|c l Hc Hl IH]; simpl; [reflexivity|].
  rewrite IH. apply sort_insert_seven_bit; [exact Hc|].
  eapply Permutation_Forall; [|exact Hl].
  symmetry. apply std_sort_perm.
Qed.

Lemma seven_bit_substr (equation : list ascii) (first last : nat) :
  Forall (fun x => nat_of_ascii x < 128) equation ->
  Forall (fun x => nat_of_ascii x < 128) (remove_spaces (substr equation first last)).
Proof.
  intros H. unfold remove_spaces, substr.
  eapply incl_Forall; [apply incl_filter|].
  apply Forall_take, Forall_drop, H.
Qed.

(** For an equation of seven-bit characters the constructor does the same
    whether plain [char] is signed or unsigned on the platform: the order in
    which [std::sort] puts the implicit output modes is then the order of
    the character codes. *)
Theorem seven_bit_equation_portable (kMaxNumModes_ : nat) (equation : string)
    (A_shape A_strides B_shape B_strides : list Z) :
  Forall (fun c => nat_of_ascii c < 128) (list_ascii_of_string equation) ->
  Einsum_ctor kMaxNumModes_ true equation A_shape A_strides B_shape B_strides =
  Einsum_ctor kMaxNumModes_ false equation A_shape A_strides B_shape B_strides.
Proof.
  intros H. rewrite !Einsum_ctor_summary. unfold ctor_summary.
  rewrite std_sort_seven_bit; [reflexivity|].
  unfold implicit_modes, operand_modes, non_contracted.
  apply Forall_app. split;
    (eapply incl_Forall; [apply incl_filter|]);
    apply Forall_take; apply seven_bit_substr; exact H.
Qed.

(** * Instances *)

(** C1 at "ij,jk->iz": the output mode z occurs in no operand, construction
    completes and the extent of z is never written. *)
Lemma unresolved_output_mode_unassigned_witness :
  ((Z.of_nat 8 < 2 ^ 31)%Z /\
   find (list_ascii_of_string "ij,jk->iz") "..." = None /\
   find (list_ascii_of_string "ij,jk->iz") "->" = Some 5 /\
   usesB (list_ascii_of_string "ij,jk->iz") = true) /\
  exists e,
    Einsum_ctor 8 true "ij,jk->iz" [2; 3]%Z [3; 1]%Z [3; 4]%Z [4; 1]%Z = Done e /\
    modesC e = Done ["i"; "z"]%char /\
    extentC_ e !! 0 = Some (Some 2%Z) /\
    extentC_ e !! 1 = Some None /\
    exists j,
      j <= 1 /\ getOutputShape e = Undefined (Indeterminate "extentC_" j).
Proof.
  split; [repeat split; reflexivity|].
  destruct (unresolved_output_mode_unassigned 8 true "ij,jk->iz"
              [2; 3]%Z [3; 1]%Z [3; 4]%Z [4; 1]%Z 5)
    as (e & H & HC & Hcell & Hnone).
  - reflexivity.
  - reflexivity.
  - reflexivity.
  - reflexivity.
  - intros _. reflexivity.
  - vm_compute. lia.
  - vm_compute. lia.
  - vm_compute. lia.
  - vm_compute. lia.
  - intros _. vm_compute. lia.
  - exists e. split; [exact H|]. split; [exact HC|].
    split; [exact (Hcell 0 "i"%char eq_refl)|].
    apply (Hnone 1 "z"%char).
    + reflexivity.
    + vm_compute. intros [H1|[H1|[]]]; discriminate H1.
    + vm_compute. intros [H1|[H1|[]]]; discriminate H1.
Defined.

(** C2 at "ij,jk" over shapes (2,3) and (3,4). *)
Lemma implicit_output_modes_witness :
  exists e,
    Einsum_ctor 8 true "ij,jk" [2; 3]%Z [3; 1]%Z [3; 4]%Z [4; 1]%Z = Done e /\
    find (list_ascii_of_string "ij,jk") "->" = None /\
    modesC e = Done ["i"; "k"]%char /\
    getOutputShape e = Done [2; 4]%Z.
Proof.
  eexists.
  match goal with
  | |- ?H1 /\ _ => assert (H : H1) by (vm_compute; reflexivity)
  end.
  split; [exact H|]. split; [reflexivity|].
  pose proof (implicit_output_modes _ _ _ _ _ _ _ _ H eq_refl) as T.
  cbv zeta in T. destruct T as (_ & _ & HC & _).
  split; [exact HC | vm_compute; reflexivity].
Defined.

(** C3 fails at these calls: the strides are shorter than the shapes and no
    stride is read, either because an earlier check throws or because the
    equation has no comma. *)
Lemma short_strides_not_read :
  Einsum_ctor 8 true "ijk" [2; 3]%Z [] [] [] =
    Throw (runtime_error
             "modes substring for first operand and shape don't match.") /\
  Einsum_ctor 8 true "i...k" [2; 3]%Z [] [] [] =
    Throw (c10_Error "Broadcast einsum with ... is not supported.") /\
  exists e,
    Einsum_ctor 8 true "ij" [2; 3]%Z [3; 1]%Z [5]%Z [] = Done e /\
    numModesB_ e = 0 /\
    stridesB_ e = replicate 8 None.
Proof.
  split; [vm_compute; reflexivity|]. split; [vm_compute; reflexivity|].
  eexists. split; [vm_compute; reflexivity|].
  split; vm_compute; reflexivity.
Qed.

(** The amended C3 at "ij,jk". *)
Lemma strides_read_bounds_witness :
  ((Z.of_nat 8 < 2 ^ 31)%Z /\
   find (list_ascii_of_string "ij,jk") "..." = None /\
   usesB (list_ascii_of_string "ij,jk") = true /\
   isImplicit (list_ascii_of_string "ij,jk") = true) /\
  Einsum_ctor 8 true "ij,jk" [2; 3]%Z [] [3; 4]%Z [4; 1]%Z =
    Undefined (OutOfBounds "A_strides" 0) /\
  Einsum_ctor 8 true "ij,jk" [2; 3]%Z [3; 1]%Z [3; 4]%Z [4]%Z =
    Undefined (OutOfBounds "B_strides" 1) /\
  Einsum_ctor 8 true "ijk" [2; 3]%Z [] [] [] =
    Throw (runtime_error
             "modes substring for first operand and shape don't match.") /\
  exists e,
    Einsum_ctor 8 true "ij,jk" [2; 3]%Z [3; 1; 7]%Z [3; 4]%Z [4; 1]%Z = Done e /\
    stridesA_ e = filled 8 [3; 1]%Z /\
    stridesB_ e = filled 8 [4; 1]%Z.
Proof.
  split; [repeat split; reflexivity|].
  assert (Hthrow :
    Einsum_ctor 8 true "ijk" [2; 3]%Z [3; 1]%Z [] [] =
    Throw (runtime_error
             "modes substring for first operand and shape don't match."))
    by (vm_compute; reflexivity).
  assert (Hchecks :
    forall A_strides B_strides,
      let T := proj1 (strides_read_bounds 8 true "ij,jk" [2; 3]%Z A_strides
                        [3; 4]%Z B_strides) in
      ltac:(let ty := type of T in
            match eval cbv zeta in ty with
            | _ -> _ -> _ -> _ -> _ -> _ -> _ -> ?C => exact C
            end)).
  { intros A_strides B_strides.
    apply (proj1 (strides_read_bounds 8 true "ij,jk" [2; 3]%Z A_strides
                    [3; 4]%Z B_strides)).
    - reflexivity.
    - reflexivity.
    - reflexivity.
    - intros _. reflexivity.
    - vm_compute. lia.
    - vm_compute. lia.
    - intros _. vm_compute. lia. }
  split; [|split; [|split]].
  - apply (proj1 (Hchecks [] [4; 1]%Z)). simpl. lia.
  - apply (proj1 (proj2 (Hchecks [3; 1]%Z [4]%Z))); simpl; try lia. reflexivity.
  - exact (proj1 (proj2 (proj2 (strides_read_bounds 8 true "ijk"
                                  [2; 3]%Z [3; 1]%Z [] [])))
             _ Hthrow [] []).
  - destruct (Einsum_ctor 8 true "ij,jk" [2; 3]%Z [3; 1; 7]%Z [3; 4]%Z [4; 1]%Z)
      as [e| |] eqn:E; try (vm_compute in E; discriminate E).
    exists e. split; [reflexivity|].
    pose proof (proj2 (proj2 (proj2 (proj2 (Hchecks [3; 1; 7]%Z [4; 1]%Z))))) as T.
    cbv zeta in T. rewrite E in T.
    destruct (T e eq_refl) as (_ & HA & HB). split; [exact HA|].
    exact (proj2 (HB eq_refl)).
Defined.

(** C4, at the input on which the code departs from the claim. The
    equation "ij,->ij" has a comma and its second operand is a scalar
    (no modes, empty shape). Construction completes with [numModesB_] = 0,
    so [execute] takes the reduction branch: whatever the backend answers,
    it never makes the contraction call, and when every call succeeds the
    last call made is the reduction of A alone. *)
Theorem comma_with_scalar_operand_dispatches_reduction
    (backend : list backend_call -> backend_call -> nat) (C_strides : list Z)
    (log : list backend_call) :
  exists e,
    Einsum_ctor 8 true "ij,->ij" [2; 3]%Z [3; 1]%Z [] [] = Done e /\
    usesB (list_ascii_of_string "ij,->ij") = true /\
    numModesB_ e = 0 /\
    (exists calls,
        (execute backend e C_strides log).2 = log ++ calls /\
        Forall (fun c => contraction_call c = false) calls) /\
    exists calls c,
      execute (fun _ _ => 0) e C_strides log = (Done true, log ++ calls) /\
      last calls = Some c /\ reduction_call c = true.
Proof.
  eexists. split; [vm_compute; reflexivity|].
  split; [reflexivity|]. split; [reflexivity|]. split.
  - match goal with
    | |- context [execute backend ?e _ _] =>
        destruct (execute backend e C_strides log) as [r log'] eqn:E
    end.
    apply execute_calls in E as (calls & -> & Hc & _).
    exists calls. split; [reflexivity|]. apply Hc. reflexivity.
  - match goal with
    | |- context [execute ?b ?e _ _] =>
        assert (Hr : (execute b e C_strides log).1 = Done true) by reflexivity;
        destruct (execute b e C_strides log) as [r log'] eqn:E
    end.
    simpl in Hr. subst r.
    apply execute_calls in E as (calls & -> & _ & _ & Hlast).
    specialize (Hlast eq_refl). simpl in Hlast.
    exists calls. eexists. split; [reflexivity|]. split; [exact Hlast|].
    reflexivity.
Qed.

(** C5 fails at "ij->i<TAB>j": the tab after "->" is not removed, the
    output modes are i, the tab and j, and the output mode count is 3. *)
Lemma tab_is_an_output_mode :
  exists e,
    Einsum_ctor 8 true
      (String "i" (String "j" (String "-" (String ">"
         (String "i" (String "009" (String "j" EmptyString)))))))
      [2; 3]%Z [3; 1]%Z [] [] = Done e /\
    modesC e = Done ["i"; "009"; "j"]%char /\
    numModesC_ e = 3.
Proof.
  eexists. split; [vm_compute; reflexivity|].
  split; vm_compute; reflexivity.
Qed.

(** The amended C5 at "ij,jk->ki" over shapes (2,3) and (3,4). *)
Lemma explicit_output_modes_witness :
  exists e,
    Einsum_ctor 8 true "ij,jk->ki" [2; 3]%Z [3; 1]%Z [3; 4]%Z [4; 1]%Z = Done e /\
    find (list_ascii_of_string "ij,jk->ki") "->" = Some 5 /\
    modesC e = Done ["k"; "i"]%char /\
    numModesC_ e = 2 /\
    getOutputShape e = Done [4; 2]%Z.
Proof.
  eexists.
  match goal with
  | |- ?H1 /\ _ => assert (H : H1) by (vm_compute; reflexivity)
  end.
  split; [exact H|]. split; [reflexivity|].
  pose proof (explicit_output_modes _ _ _ _ _ _ _ _ 5 H eq_refl) as T.
  cbv zeta in T. destruct T as (HC & Hn & _).
  split; [exact HC|]. split; [exact Hn | vm_compute; reflexivity].
Defined.

(** C6 fails at these calls: with "..." in the equation the error is the
    broadcast error, and without a comma the shape of B is not compared. *)
Lemma mismatch_not_reported :
  (extract_modeA 8 (list_ascii_of_string "i...") = Done ["i"; "."; "."; "."]%char /\
   length [2; 3]%Z = 2 /\
   Einsum_ctor 8 true "i..." [2; 3]%Z [3; 1]%Z [] [] =
     Throw (c10_Error "Broadcast einsum with ... is not supported.")) /\
  (extract_modeB 8 (list_ascii_of_string "ij") = Done [] /\
   length [5]%Z = 1 /\
   exists e, Einsum_ctor 8 true "ij" [2; 3]%Z [3; 1]%Z [5]%Z [1]%Z = Done e).
Proof.
  split.
  - repeat split; vm_compute; reflexivity.
  - split; [reflexivity|]. split; [reflexivity|].
    eexists. vm_compute. reflexivity.
Qed.

(** The amended C6 at "ijk" with shape (2,3), and at "ij,jk" with a second
    shape of three dimensions. *)
Lemma mode_count_mismatch_rejected_witness :
  (find (list_ascii_of_string "ijk") "..." = None /\
   extract_modeA 8 (list_ascii_of_string "ijk") = Done ["i"; "j"; "k"]%char /\
   length [2; 3]%Z = 2) /\
  Einsum_ctor 8 true "ijk" [2; 3]%Z [3; 1]%Z [] [] =
    Throw (runtime_error
             "modes substring for first operand and shape don't match.") /\
  Einsum_ctor 8 true "ij,jk" [2; 3]%Z [3; 1]%Z [3; 4; 5]%Z [20; 5; 1]%Z =
    Throw (runtime_error
             "modes substring for second operand and shape don't match.").
Proof.
  split; [repeat split; reflexivity|]. split.
  - apply (mode_count_mismatch_rejected 8 true "ijk" [2; 3]%Z [3; 1]%Z [] []
             ["i"; "j"; "k"]%char []).
    + reflexivity.
    + reflexivity.
    + reflexivity.
    + vm_compute. reflexivity.
    + vm_compute. reflexivity.
    + simpl. lia.
  - apply (mode_count_mismatch_rejected 8 true "ij,jk"
             [2; 3]%Z [3; 1]%Z [3; 4; 5]%Z [20; 5; 1]%Z
             ["i"; "j"]%char ["j"; "k"]%char).
    + reflexivity.
    + reflexivity.
    + reflexivity.
    + vm_compute. reflexivity.
    + vm_compute. reflexivity.
    + reflexivity.
    + reflexivity.
    + simpl. lia.
Defined.

(** C7 at "i...j,jk". *)
Lemma broadcast_rejected_witness :
  (exists pre post : string, "i...j,jk" = pre +:+ "..." +:+ post) /\
  Einsum_ctor 8 true "i...j,jk" [2; 3; 4]%Z [12; 4; 1]%Z [4; 5]%Z [5; 1]%Z =
  Throw (c10_Error "Broadcast einsum with ... is not supported.").
Proof.
  assert (H : exists pre post : string, "i...j,jk" = pre +:+ "..." +:+ post)
    by (exists "i", "j,jk"; reflexivity).
  split; [exact H|].
  exact (broadcast_rejected 8 true _ _ _ _ _ H).
Defined.

(** C8 fails at these calls: a tab between i and j is extracted as a mode,
    and the spaces of ". . ." keep the equation from being rejected. *)
Lemma tab_is_a_mode :
  (exists e, Einsum_ctor 8 true "ij" [2; 3]%Z [3; 1]%Z [] [] = Done e) /\
  extract_modeA 8
    (list_ascii_of_string (String "i" (String "009" (String "j" EmptyString)))) =
    Done ["i"; "009"; "j"]%char /\
  Einsum_ctor 8 true (String "i" (String "009" (String "j" EmptyString)))
    [2; 3]%Z [3; 1]%Z [] [] =
    Throw (runtime_error
             "modes substring for first operand and shape don't match.") /\
  (exists e,
      Einsum_ctor 8 true ". . ." [2; 3; 4]%Z [12; 4; 1]%Z [] [] = Done e) /\
  Einsum_ctor 8 true "..." [2; 3; 4]%Z [12; 4; 1]%Z [] [] =
    Throw (c10_Error "Broadcast einsum with ... is not supported.").
Proof.
  split; [eexists; vm_compute; reflexivity|].
  split; [vm_compute; reflexivity|].
  split; [vm_compute; reflexivity|].
  split; [eexists; vm_compute; reflexivity|].
  vm_compute. reflexivity.
Qed.

(** The amended C8 at "ij,jk->ik" with a space inserted at position 1. *)
Lemma spaces_ignored_witness :
  (find (list_ascii_of_string "ij,jk->ik") "..." = None /\
   find (list_ascii_of_string "ij,jk->ik") "->" = Some 5 /\
   insert_space 1 "ij,jk->ik" = "i j,jk->ik") /\
  extract_modeA 8 (list_ascii_of_string "i j,jk->ik") =
    Done ["i"; "j"]%char /\
  Einsum_ctor 8 true "i j,jk->ik" [2; 3]%Z [3; 1]%Z [3; 4]%Z [4; 1]%Z =
  Einsum_ctor 8 true "ij,jk->ik" [2; 3]%Z [3; 1]%Z [3; 4]%Z [4; 1]%Z.
Proof.
  split; [repeat split; reflexivity|].
  split; [reflexivity|].
  apply (spaces_ignored 8 true "ij,jk->ik" 1).
  - reflexivity.
  - intros p H. vm_compute in H. injection H as <-. lia.
Defined.



(** C10 with [kMaxNumModes_] = 2, at "i->iii". *)
Lemma explicit_output_overflow_witness :
  (find (list_ascii_of_string "i->iii") "->" = Some 1 /\
   2 < length (remove_spaces (segmentC (list_ascii_of_string "i->iii")))) /\
  Einsum_ctor 2 true "i->iii" [2]%Z [1]%Z [] [] =
  Undefined (OutOfBounds "modesC_" 2).
Proof.
  split; [split; [reflexivity | vm_compute; lia]|].
  apply (explicit_output_overflow 2 true "i->iii" [2]%Z [1]%Z [] [] 1).
  - reflexivity.
  - reflexivity.
  - reflexivity.
  - reflexivity.
  - intros H. discriminate H.
  - vm_compute. lia.
  - vm_compute. lia.
  - vm_compute. lia.
  - intros H. discriminate H.
  - vm_compute. lia.
Defined.

(** The bound on implicit output with [kMaxNumModes_] = 2: "ij,kl" has four
    non-contracted modes. *)
Lemma output_mode_count_bounded_witness :
  (find (list_ascii_of_string "ij,kl") "->" = None /\
   2 < length (non_contracted
                 (remove_spaces (segmentA (list_ascii_of_string "ij,kl")))
                 (remove_spaces (segmentB (list_ascii_of_string "ij,kl"))) ++
               non_contracted
                 (remove_spaces (segmentB (list_ascii_of_string "ij,kl")))
                 (remove_spaces (segmentA (list_ascii_of_string "ij,kl")))) /\
   Einsum_ctor 2 true "ij,kl" [2; 3]%Z [3; 1]%Z [4; 5]%Z [5; 1]%Z =
   Throw (runtime_error "too many modes in output tensor.")) /\
  exists e,
    Einsum_ctor 2 true "ij,jk" [2; 3]%Z [3; 1]%Z [3; 4]%Z [4; 1]%Z = Done e /\
    numModesC_ e <= 2.
Proof.
  split.
  - assert (Himp : find (list_ascii_of_string "ij,kl") "->" = None)
      by reflexivity.
    split; [exact Himp|]. split; [vm_compute; lia|].
    refine (proj2 (proj1 (output_mode_count_bounded 2 true "ij,kl"
                            [2; 3]%Z [3; 1]%Z [4; 5]%Z [5; 1]%Z) Himp _)
              _ _ _ _ _ _).
    + vm_compute. lia.
    + vm_compute. reflexivity.
    + reflexivity.
    + reflexivity.
    + intros _. reflexivity.
    + vm_compute. lia.
    + vm_compute. lia.
  - eexists.
    match goal with
    | |- ?H1 /\ _ => assert (H : H1) by (vm_compute; reflexivity)
    end.
    split; [exact H|].
    exact (proj2 (output_mode_count_bounded 2 true "ij,jk" _ _ _ _) _ H).
Defined.

(** The constructor's exceptions at "ijk" with [kMaxNumModes_] = 2. *)
Lemma constructor_exceptions_witness :
  Einsum_ctor 2 true "ijk" [2; 3; 4]%Z [12; 4; 1]%Z [] [] =
    Throw (runtime_error "too many modes in first operand.") /\
  (runtime_error "too many modes in first operand." =
     c10_Error "Broadcast einsum with ... is not supported." \/
   runtime_error "too many modes in first operand." =
     runtime_error "modes substring for first operand and shape don't match." \/
   runtime_error "too many modes in first operand." =
     runtime_error "modes substring for second operand and shape don't match." \/
   runtime_error "too many modes in first operand." =
     runtime_error "too many modes in first operand." \/
   runtime_error "too many modes in first operand." =
     runtime_error "too many modes in second operand." \/
   runtime_error "too many modes in first operand." =
     runtime_error "too many modes in output tensor.").
Proof.
  assert (H : Einsum_ctor 2 true "ijk" [2; 3; 4]%Z [12; 4; 1]%Z [] [] =
              Throw (runtime_error "too many modes in first operand."))
    by (vm_compute; reflexivity).
  split; [exact H|].
  exact (constructor_exceptions 2 true _ _ _ _ _ _ H).
Defined.

(** The dispatch of [execute] at "ij,jk->ik" with a backend that always
    succeeds. *)
Lemma execute_dispatch_witness :
  exists e,
    Einsum_ctor 8 true "ij,jk->ik" [2; 3]%Z [3; 1]%Z [3; 4]%Z [4; 1]%Z = Done e /\
    (execute (fun _ _ => 0) e [4; 1]%Z []).1 = Done true /\
    exists calls,
      (execute (fun _ _ => 0) e [4; 1]%Z []).2 = calls /\
      last calls = Some (cutensorContraction 1 0 kWorksize_) /\
      Forall (fun c => reduction_call c = false) calls.
Proof.
  eexists.
  match goal with
  | |- ?H1 /\ _ => assert (H : H1) by (vm_compute; reflexivity)
  end.
  split; [exact H|]. split; [reflexivity|].
  destruct (execute_dispatch 8 true (fun _ _ => 0) _ _ _ _ _ _ [4; 1]%Z [] H)
    as (_ & calls & Hlog & _ & Hr & Hlast).
  exists calls. split; [exact Hlog|]. split.
  - apply Hlast. reflexivity.
  - apply Hr. vm_compute. lia.
Defined.

(** [execute] at "ij,jk->ik" with a backend that refuses the third call. *)
Lemma execute_stops_at_first_failure_witness :
  exists e,
    Einsum_ctor 8 true "ij,jk->ik" [2; 3]%Z [3; 1]%Z [3; 4]%Z [4; 1]%Z = Done e /\
    isInitialized_ e = true /\
    (execute (fun log _ => if length log =? 2 then 7 else 0) e [4; 1]%Z []).1 =
      Throw (cutensor_error 305 7) /\
    length
      (execute (fun log _ => if length log =? 2 then 7 else 0) e [4; 1]%Z []).2 = 3.
Proof.
  eexists.
  match goal with
  | |- ?H1 /\ _ => assert (H : H1) by (vm_compute; reflexivity)
  end.
  split; [exact H|]. split; [reflexivity|].
  match type of H with
  | _ = Done ?e =>
      pose proof (proj2 (execute_stops_at_first_failure
                           (fun log _ => if length log =? 2 then 7 else 0)
                           e [4; 1]%Z []) eq_refl) as T
  end.
  cbv zeta in T.
  destruct (list_find _ _) as [[k status]|] eqn:F in T;
    vm_compute in F; [|discriminate F].
  injection F as <- <-.
  destruct T as (line & call & Hk & _ & _ & Hex).
  vm_compute in Hk. injection Hk as <- _.
  rewrite Hex. split; reflexivity.
Defined.

(** The descriptors of [execute] at "ij,jk->ik". *)
Lemma execute_describes_tensors_witness :
  exists e,
    Einsum_ctor 8 true "ij,jk->ik" [2; 3]%Z [3; 1]%Z [3; 4]%Z [4; 1]%Z = Done e /\
    exists nA extentA stridesA tail,
      (execute (fun _ _ => 0) e [4; 1]%Z []).2 =
        cutensorInitTensorDescriptor tensorA nA extentA stridesA :: tail /\
      nA = 2 /\
      take nA extentA = [Some 2; Some 3]%Z /\
      take nA stridesA = [Some 3; Some 1]%Z.
Proof.
  eexists.
  match goal with
  | |- ?H1 /\ _ => assert (H : H1) by (vm_compute; reflexivity)
  end.
  split; [exact H|].
  pose proof (execute_describes_tensors 8 true (fun _ _ => 0) _ _ _ _ _ _
                [4; 1]%Z [] H) as T.
  cbv zeta in T.
  destruct T as (nA & xA & sA & tail & Hlog & HnA & HxA & HsA & _).
  exists nA, xA, sA, tail.
  split; [exact Hlog|]. split; [exact HnA|].
  rewrite HxA, HsA, HnA. split; reflexivity.
Defined.

(** The invariant at "ij,jk->ik". *)
Lemma constructed_object_invariant_witness :
  exists e,
    Einsum_ctor 8 true "ij,jk->ik" [2; 3]%Z [3; 1]%Z [3; 4]%Z [4; 1]%Z = Done e /\
    isInitialized e = true /\
    numModesA_ e <= 8 /\ numModesB_ e <= 8 /\ numModesC_ e <= 8.
Proof.
  eexists.
  match goal with
  | |- ?H1 /\ _ => assert (H : H1) by (vm_compute; reflexivity)
  end.
  split; [exact H|].
  destruct (constructed_object_invariant 8 true _ _ _ _ _ _ H)
    as (Hinit & _ & _ & HA & HB & HC & _).
  auto.
Defined.

(** A transposition: the shape and the strides given for B are ignored. *)
Lemma second_operand_ignored_without_comma_witness :
  find (list_ascii_of_string "ij->ji") "," = None /\
  Einsum_ctor 8 true "ij->ji" [2; 3]%Z [3; 1]%Z [5; 6; 7]%Z [1]%Z =
  Einsum_ctor 8 true "ij->ji" [2; 3]%Z [3; 1]%Z [] [].
Proof.
  split; [reflexivity|].
  apply second_operand_ignored_without_comma. reflexivity.
Defined.

(** Two strides more than dimensions for A, one more for B. *)
Lemma surplus_strides_ignored_witness :
  length [2; 3]%Z <= length [3; 1]%Z /\
  length [3]%Z <= length [1]%Z /\
  Einsum_ctor 8 true "ij,j" [2; 3]%Z ([3; 1] ++ [9; 9])%Z [3]%Z ([1] ++ [7])%Z =
  Einsum_ctor 8 true "ij,j" [2; 3]%Z [3; 1]%Z [3]%Z [1]%Z.
Proof.
  split; [simpl; lia|]. split; [simpl; lia|].
  apply surplus_strides_ignored; simpl; lia.
Defined.

(** "ij,jk" with extents of j that disagree, and with a negative and a zero
    extent: the same modes as with extents that agree. *)
Lemma extents_never_inspected_witness :
  exists e e',
    Einsum_ctor 8 true "ij,jk" [2; 3]%Z [3; 1]%Z [3; 4]%Z [4; 1]%Z = Done e /\
    Einsum_ctor 8 true "ij,jk" [2; 3]%Z [3; 1]%Z [5; -4]%Z [0; 0]%Z = Done e' /\
    modesC_ e = modesC_ e'.
Proof.
  do 2 eexists.
  match goal with
  | |- ?H1 /\ ?H2 /\ _ =>
      assert (Ha : H1) by (vm_compute; reflexivity);
      assert (Hb : H2) by (vm_compute; reflexivity)
  end.
  split; [exact Ha|]. split; [exact Hb|].
  pose proof (extents_never_inspected 8 true "ij,jk"
                [2; 3]%Z [3; 1]%Z [3; 4]%Z [4; 1]%Z
                [2; 3]%Z [3; 1]%Z [5; -4]%Z [0; 0]%Z
                eq_refl eq_refl eq_refl eq_refl) as T.
  rewrite Ha, Hb in T. destruct T as (_ & _ & _ & _ & _ & HC). exact HC.
Defined.

(** Five modes for an operand with [kMaxNumModes_] = 2 and a shape of five
    dimensions: the count stops at four and the error is the mismatch. *)
Lemma operand_overflow_rejected_witness :
  2 + 2 < length (remove_spaces (segmentA (list_ascii_of_string "ijklm"))) /\
  Einsum_ctor 2 true "ijklm" [2; 2; 2; 2; 2]%Z [] [] [] =
  Throw (runtime_error
           "modes substring for first operand and shape don't match.").
Proof.
  split; [vm_compute; lia|].
  apply (proj2 (operand_overflow_rejected 2 true "ijklm"
                  [2; 2; 2; 2; 2]%Z [] [] [])).
  - reflexivity.
  - vm_compute. lia.
  - reflexivity.
  - reflexivity.
Defined.

(** "ii,ij->ij": the extent of i is the one at the first i of A, the extent
    of j the one in B. *)
Lemma output_extent_first_occurrence_witness :
  exists e,
    Einsum_ctor 8 true "ii,ij->ij" [2; 3]%Z [3; 1]%Z [4; 5]%Z [5; 1]%Z = Done e /\
    getOutputShape e = Done [2; 5]%Z /\
    extentC_ e !! 0 = Some (Some 2%Z) /\
    extentC_ e !! 1 = Some (Some 5%Z) /\
    [2; 5]%Z !! 0 = [2; 3]%Z !! 0 /\
    [2; 5]%Z !! 1 = [4; 5]%Z !! 1.
Proof.
  eexists.
  match goal with
  | |- ?H1 /\ _ => assert (H : H1) by (vm_compute; reflexivity)
  end.
  split; [exact H|].
  match goal with
  | |- ?H1 /\ _ => assert (Hs : H1) by (vm_compute; reflexivity)
  end.
  split; [exact Hs|].
  pose proof (output_extent_first_occurrence 8 true _ _ _ _ _ _ H) as T.
  cbv zeta in T. destruct T as (modeC & HmC & Hall).
  assert (HC : modeC = ["i"; "j"]%char).
  { vm_compute in HmC. injection HmC as <-. reflexivity. }
  subst modeC.
  destruct (Hall 0 "i"%char eq_refl) as (HA & _ & _).
  destruct (HA 0 eq_refl) as (_ & HcellA & HreadA); [intros j' Hlt; lia|].
  destruct (Hall 1 "j"%char eq_refl) as (_ & HB & _).
  destruct (HB (fun Hin : In "j"%char ["i"; "i"]%char =>
                  match Hin with
                  | or_introl E => ltac:(discriminate E)
                  | or_intror (or_introl E) => ltac:(discriminate E)
                  | or_intror (or_intror F) => F
                  end) 1 eq_refl) as (_ & HcellB & HreadB).
  { intros [|j'] Hlt; [discriminate | lia]. }
  split; [exact HcellA|]. split; [exact HcellB|].
  split; [exact (HreadA _ Hs) | exact (HreadB _ Hs)].
Defined.

(** "ii" with implicit output: the mode i is an output mode twice. *)
Lemma implicit_output_multiplicity_witness :
  exists e modeC,
    Einsum_ctor 8 true "ii" [3; 3]%Z [3; 1]%Z [] [] = Done e /\
    find (list_ascii_of_string "ii") "->" = None /\
    modesC e = Done modeC /\
    count_occ ascii_dec modeC "i"%char = 2.
Proof.
  eexists.
  assert (H : Einsum_ctor 8 true "ii" [3; 3]%Z [3; 1]%Z [] [] = Done _)
    by (vm_compute; reflexivity).
  pose proof (implicit_output_multiplicity 8 true _ _ _ _ _ _ H eq_refl) as T.
  cbv zeta in T. destruct T as (modeC & HmC & Hall).
  exists modeC. split; [exact H|]. split; [reflexivity|].
  split; [exact HmC|].
  destruct (Hall "i"%char) as (_ & HB & _).
  rewrite HB; [reflexivity|]. intros Hin. exact Hin.
Defined.

(** The segments of "ij,jk->ik". *)
Lemma segments_partition_equation_witness :
  list_ascii_of_string "ij,jk->ik" =
  segmentA (list_ascii_of_string "ij,jk->ik") ++
  (if usesB (list_ascii_of_string "ij,jk->ik")
   then ","%char :: segmentB (list_ascii_of_string "ij,jk->ik") else []) ++
  (if isImplicit (list_ascii_of_string "ij,jk->ik") then []
   else "-"%char :: ">"%char :: segmentC (list_ascii_of_string "ij,jk->ik")).
Proof.
  apply (proj1 (segments_partition_equation _)).
  intros p q Hp Hq. vm_compute in Hp, Hq.
  injection Hp as <-. injection Hq as <-. lia.
Defined.

(** An object of two cells an array: a count of three is past the end, and
    a cell that was never written cannot be read. *)
Lemma accessors_bounds_checked_witness :
  getOutputShape
    (mkEinsum 1 0 3 true
       [Some "i"%char; None] [None; None] [Some "i"%char; Some "i"%char]
       [Some 2%Z; None] [None; None] [Some 2%Z; Some 2%Z]
       [Some 1%Z; None] [None; None]) =
  Throw (out_of_range "extentC_") /\
  modesA
    (mkEinsum 1 0 3 true
       [Some "i"%char; None] [None; None] [Some "i"%char; Some "i"%char]
       [Some 2%Z; None] [None; None] [Some 2%Z; Some 2%Z]
       [Some 1%Z; None] [None; None]) =
  Done ["i"%char] /\
  exists j,
    j <= 1 /\
    modesA
      (mkEinsum 2 0 3 true
         [Some "i"%char; None] [None; None] [Some "i"%char; Some "i"%char]
         [Some 2%Z; None] [None; None] [Some 2%Z; Some 2%Z]
         [Some 1%Z; None] [None; None]) =
    Undefined (Indeterminate "modesA_" j).
Proof.
  destruct (accessors_bounds_checked 2
              (mkEinsum 1 0 3 true
                 [Some "i"%char; None] [None; None] [Some "i"%char; Some "i"%char]
                 [Some 2%Z; None] [None; None] [Some 2%Z; Some 2%Z]
                 [Some 1%Z; None] [None; None])
              eq_refl eq_refl eq_refl eq_refl) as (HA & _ & _ & HS & _).
  destruct (accessors_bounds_checked 2
              (mkEinsum 2 0 3 true
                 [Some "i"%char; None] [None; None] [Some "i"%char; Some "i"%char]
                 [Some 2%Z; None] [None; None] [Some 2%Z; Some 2%Z]
                 [Some 1%Z; None] [None; None])
              eq_refl eq_refl eq_refl eq_refl) as (HA' & _).
  split; [exact (proj1 (HS eq_refl) [2; 2]%Z eq_refl)|].
  split; [exact (proj1 HA ["i"%char] eq_refl)|].
  exact (proj2 HA' 1 ltac:(simpl; lia) eq_refl).
Defined.

(** The modes of "ij" that are not in "jk". *)
Lemma copyModesIf_bounded_witness :
  length (@nil ascii) <= 2 /\
  2 <= length ["i"; "j"]%char /\
  2 <= length ["j"; "k"]%char /\
  copyModesIf 2 ["i"; "j"]%char 2 ["j"; "k"]%char 2 [] = Done ["i"%char].
Proof.
  assert (H1 : length (@nil ascii) <= 2) by (simpl; lia).
  assert (H2 : 2 <= length ["i"; "j"]%char) by (simpl; lia).
  assert (H3 : 2 <= length ["j"; "k"]%char) by (simpl; lia).
  split; [exact H1|]. split; [exact H2|]. split; [exact H3|].
  exact (copyModesIf_bounded 2 _ _ _ _ _ H1 H2 H3).
Defined.

(** "ba,c": the same object with signed and with unsigned [char]. *)
Lemma seven_bit_equation_portable_witness :
  Forall (fun c => nat_of_ascii c < 128) (list_ascii_of_string "ba,c") /\
  Einsum_ctor 8 true "ba,c" [2; 3]%Z [3; 1]%Z [4]%Z [1]%Z =
  Einsum_ctor 8 false "ba,c" [2; 3]%Z [3; 1]%Z [4]%Z [1]%Z.
Proof.
  assert (H : Forall (fun c => nat_of_ascii c < 128)
                (list_ascii_of_string "ba,c"))
    by (repeat constructor; vm_compute; lia).
  split; [exact H|].
  exact (seven_bit_equation_portable 8 "ba,c" _ _ _ _ H).
Defined.

(** "i->iii" with [kMaxNumModes_] = 2: the write past [modesC_]. *)
Lemma constructor_memory_safety_witness :
  Einsum_ctor 2 true "i->iii" [2]%Z [1]%Z [] [] =
    Undefined (OutOfBounds "modesC_" 2) /\
  (OutOfBounds "modesC_" 2 = OutOfBounds "A_strides" (length [1]%Z) \/
   OutOfBounds "modesC_" 2 = OutOfBounds "B_strides" (length (@nil Z)) \/
   OutOfBounds "modesC_" 2 = OutOfBounds "modesC_" 2).
Proof.
  assert (H : Einsum_ctor 2 true "i->iii" [2]%Z [1]%Z [] [] =
              Undefined (OutOfBounds "modesC_" 2))
    by (vm_compute; reflexivity).
  split; [exact H|].
  exact (proj1 (constructor_memory_safety 2 true "i->iii" [2]%Z [1]%Z [] []) _ H).
Defined.

(** The modes given to the backend at "ij,jk->ik". *)
Lemma execute_passes_modes_witness :
  exists e,
    Einsum_ctor 8 true "ij,jk->ik" [2; 3]%Z [3; 1]%Z [3; 4]%Z [4; 1]%Z = Done e /\
    (execute (fun _ _ => 0) e [4; 1]%Z []).1 = Done true /\
    exists calls mA mB mC,
      (execute (fun _ _ => 0) e [4; 1]%Z []).2 = calls /\
      In (cutensorInitContractionDescriptor mA mB mC) calls /\
      modesA e = Done ["i"; "j"]%char /\
      take 2 mA = [Some "i"; Some "j"]%char.
Proof.
  eexists.
  match goal with
  | |- ?H1 /\ _ => assert (H : H1) by (vm_compute; reflexivity)
  end.
  split; [exact H|]. split; [reflexivity|].
  destruct (execute_passes_modes 8 true (fun _ _ => 0) _ _ _ _ _ _ [4; 1]%Z []
              H eq_refl)
    as (calls & mA & mB & mC & Hlog & (modes & HA & HtA) & _ & _ & Hif).
  exists calls, mA, mB, mC.
  split; [exact Hlog|].
  split; [exact (proj1 Hif)|].
  assert (Hm : modes = ["i"; "j"]%char).
  { vm_compute in HA. injection HA as <-. reflexivity. }
  subst modes. split; [exact HA | exact HtA].
Defined.

(** "ij,jk" written out as "ij,jk->ik". *)
Lemma implicit_output_made_explicit_witness :
  exists e,
    Einsum_ctor 8 true "ij,jk" [2; 3]%Z [3; 1]%Z [3; 4]%Z [4; 1]%Z = Done e /\
    find (list_ascii_of_string "ij,jk") "->" = None /\
    modesC e = Done ["i"; "k"]%char /\
    find (list_ascii_of_string "ij,jk->ik") "..." = None /\
    Einsum_ctor 8 true "ij,jk->ik" [2; 3]%Z [3; 1]%Z [3; 4]%Z [4; 1]%Z = Done e.
Proof.
  eexists.
  match goal with
  | |- ?H1 /\ _ => assert (H : H1) by (vm_compute; reflexivity)
  end.
  split; [exact H|]. split; [reflexivity|]. split; [reflexivity|].
  split; [reflexivity|].
  exact (implicit_output_made_explicit 8 true "ij,jk" _ _ _ _ _
           ["i"; "k"]%char H eq_refl eq_refl eq_refl).
Defined.

(** "ij,jk" and "jk,ij". *)
Lemma implicit_output_symmetric_witness :
  exists e1 e2,
    Einsum_ctor 8 true "ij,jk" [2; 3]%Z [3; 1]%Z [3; 4]%Z [4; 1]%Z = Done e1 /\
    Einsum_ctor 8 true "jk,ij" [3; 4]%Z [4; 1]%Z [2; 3]%Z [3; 1]%Z = Done e2 /\
    modesC e1 = modesC e2 /\ getOutputShape e1 = getOutputShape e2.
Proof.
  do 2 eexists.
  match goal with
  | |- ?H1 /\ ?H2 /\ _ =>
      assert (Ha : H1) by (vm_compute; reflexivity);
      assert (Hb : H2) by (vm_compute; reflexivity)
  end.
  split; [exact Ha|]. split; [exact Hb|].
  exact (implicit_output_symmetric 8 true "ij" "jk" _ _ _ _ _ _
           eq_refl eq_refl eq_refl eq_refl Ha Hb).
Defined.
